(** * auto-email: the Express handlers of server.js, embedded and verified

Two variants of the server are covered: the nodemailer one (server.js) and
the Gmail raw-message one (the OAuth build of the same file).  Handlers are
pure functions from a request and the state they touch (the files under
public/, the template texts) to a response and the state afterwards; an
exception is a value of [result]; the mail transport is a section
variable. *)

From Stdlib Require Import ZArith NArith List Ascii String Bool Lia.
From stdpp Require Import base list gmap pretty.
Import ListNotations.

Local Open Scope N_scope.

(* ================================================================= *)
(** ** JavaScript strings *)

(** A JavaScript string is a sequence of UTF-16 code units. *)
Abbreviation jsstring := (list N).

(** [js "abc"] is the string with the code units of an ASCII literal. *)
Definition js (s : string) : jsstring :=
  List.map N_of_ascii (list_ascii_of_string s).

Arguments js : simpl never.

Definition LF : N := 10.
Definition CR : N := 13.
Definition DQUOTE : N := 34.

(** String.prototype.trim strips WhiteSpace and LineTerminator code units:
    TAB LF VT FF CR SP NBSP, U+1680, U+2000..U+200A, U+2028, U+2029, U+202F,
    U+205F, U+3000 and U+FEFF. *)
Definition is_ws (c : N) : bool :=
  ((9 <=? c) && (c <=? 13)) || (c =? 32) || (c =? 160) || (c =? 5760)
  || ((8192 <=? c) && (c <=? 8202)) || (c =? 8232) || (c =? 8233)
  || (c =? 8239) || (c =? 8287) || (c =? 12288) || (c =? 65279).

Fixpoint trimStart (s : jsstring) : jsstring :=
  match s with
  | c :: r => if is_ws c then trimStart r else s
  | [] => []
  end.

Definition trimEnd (s : jsstring) : jsstring := rev (trimStart (rev s)).

Definition trim (s : jsstring) : jsstring := trimEnd (trimStart s).

(** [str_eqb a b] is [a === b] on strings. *)
Definition str_eqb (a b : jsstring) : bool := bool_decide (a = b).

(** [s === ''] *)
Definition is_empty (s : jsstring) : bool :=
  match s with [] => true | _ :: _ => false end.

Fixpoint starts_with (p s : jsstring) : bool :=
  match p, s with
  | [], _ => true
  | _ :: _, [] => false
  | a :: p', b :: s' => (a =? b) && starts_with p' s'
  end.

(** [s.includes(p)] *)
Fixpoint contains (p s : jsstring) : bool :=
  starts_with p s || match s with [] => false | _ :: r => contains p r end.

(** [s.split(sep)] for a non-empty separator: the pieces between the
    leftmost, non-overlapping occurrences of [sep].  [skip] counts the code
    units of a matched separator still to pass over, [cur] holds the current
    piece in reverse. *)
Fixpoint split_go (sep s : jsstring) (skip : nat) (cur : jsstring)
  : list jsstring :=
  match s with
  | [] => [rev cur]
  | c :: r =>
      match skip with
      | S k => split_go sep r k cur
      | O =>
          if starts_with sep s
          then rev cur :: split_go sep r (Nat.pred (length sep)) []
          else split_go sep r 0 (c :: cur)
      end
  end.

Definition split (sep s : jsstring) : list jsstring := split_go sep s 0 [].

(** [parts.join(sep)] *)
Fixpoint join (sep : jsstring) (parts : list jsstring) : jsstring :=
  match parts with
  | [] => []
  | [x] => x
  | x :: r => x ++ sep ++ join sep r
  end.

(** [arr.includes(x)] on an array of strings. *)
Definition includes (arr : list jsstring) (x : jsstring) : bool :=
  existsb (str_eqb x) arr.

(** [s.replace(/\n/g, by)] *)
Definition replace_newlines (by_ : jsstring) (s : jsstring) : jsstring :=
  flat_map (fun c => if c =? LF then by_ else [c]) s.

(* ================================================================= *)
(** ** Values, exceptions, responses *)

(** The values a parsed request body can hold.  A number is a whole number
    that a double holds exactly, below 10^21 in size (it prints in decimal);
    an array holds strings (the repeated fields of a form).  Of an object
    only what its conversion to a string does is kept: a parsed body holds
    no function, so an object with a property [toString] of its own cannot
    be converted, and every other object converts to [[object Object]]. *)
Inductive jsval :=
| JUndefined
| JNull
| JBool (b : bool)
| JNum (z : Z)
| JStr (s : jsstring)
| JArr (items : list jsstring)
| JObj (convertible : bool).

(** ToBoolean *)
Definition truthy (v : jsval) : bool :=
  match v with
  | JUndefined | JNull => false
  | JBool b => b
  | JNum z => negb (z =? 0)%Z
  | JStr s => negb (is_empty s)
  | JArr _ | JObj _ => true
  end.

Inductive exn_kind := TypeError | SystemError | TransportError.

Record exn := Exn { exn_kind_of : exn_kind; exn_message : jsstring }.

Inductive result (A : Type) :=
| Ok (a : A)
| Throw (e : exn).
Arguments Ok {A} a.
Arguments Throw {A} e.

Definition bind {A B} (r : result A) (k : A -> result B) : result B :=
  match r with
  | Ok a => k a
  | Throw e => Throw e
  end.

Notation "x <- r ;; k" := (bind r (fun x => k))
  (at level 100, r at next level, right associativity).

(** The TypeError of the call [obj.method(...)] on a value that is not a
    string: [undefined] and [null] have no properties, any other value has
    no such method. *)
Definition no_method (obj method : jsstring) (v : jsval) : exn :=
  Exn TypeError
    (match v with
     | JUndefined =>
         js "Cannot read properties of undefined (reading '" ++ method ++ js "')"
     | JNull =>
         js "Cannot read properties of null (reading '" ++ method ++ js "')"
     | _ => obj ++ js "." ++ method ++ js " is not a function"
     end).

(** [obj.trim()], where [obj] is the name of the variable that holds [v]: a
    method of strings only. *)
Definition call_trim (obj : jsstring) (v : jsval) : result jsstring :=
  match v with
  | JStr s => Ok (trim s)
  | _ => Throw (no_method obj (js "trim") v)
  end.

(** What a handler hands to Express: a JSON body [{success, message}] with a
    status, or an exception that left the handler (Express then answers with
    its own error page). *)
Inductive Response :=
| Json (status : N) (success : bool) (message : jsstring)
| Uncaught (e : exn).

(** [arr.filter(p)] where the callback may throw. *)
Fixpoint filter_r {A} (p : A -> result bool) (l : list A) : result (list A) :=
  match l with
  | [] => Ok []
  | x :: r =>
      b <- p x ;;
      r' <- filter_r p r ;;
      Ok (if b then x :: r' else r')
  end.

(* ================================================================= *)
(** ** Template store: public/templates/subjects.txt and messages.txt *)

Inductive variant := Nodemailer | GmailApi.

(** A text written to a file as UTF-8 and read back as UTF-8: a surrogate
    without its partner was written as the bytes of U+FFFD and comes back as
    U+FFFD, every other code unit comes back as it is. *)
Definition high_surrogate (c : N) : bool := (55296 <=? c) && (c <=? 56319).
Definition low_surrogate (c : N) : bool := (56320 <=? c) && (c <=? 57343).
Definition surrogate (c : N) : bool := high_surrogate c || low_surrogate c.

Fixpoint toWellFormed (s : jsstring) : jsstring :=
  match s with
  | [] => []
  | c :: r =>
      if high_surrogate c then
        match r with
        | d :: r' =>
            if low_surrogate d then c :: d :: toWellFormed r'
            else 65533 :: toWellFormed r
        | [] => [65533]
        end
      else if low_surrogate c then 65533 :: toWellFormed r
      else c :: toWellFormed r
  end.

(** A text that reading back does not change: every surrogate in it has its
    partner. *)
Definition well_formed (s : jsstring) : Prop := toWellFormed s = s.

(** What reading back does to a code unit that does not start a pair. *)
Definition read_back (c : N) : N := if surrogate c then 65533 else c.

(** The texts written to the two files ([None]: the file does not exist) and
    whether the directory public/templates exists.  For a file that was not
    written by these handlers the text is what reading it gives.
    [readFileSync(file, 'utf-8')] is [toWellFormed] of the text. *)
Record TStore := {
  templates_dir : bool;
  subjects_txt : option jsstring;
  messages_txt : option jsstring
}.

Definition DELIM : jsstring := js "---MESSAGE---".

Definition nonblank (s : jsstring) : bool := negb (is_empty (trim s)).

(** GET /templates/subjects *)
Definition subjects_list (st : TStore) : list jsstring :=
  match subjects_txt st with
  | None => []
  | Some stored => List.filter nonblank (split [LF] (toWellFormed stored))
  end.

(** GET /templates/messages *)
Definition messages_list (st : TStore) : list jsstring :=
  match messages_txt st with
  | None => []
  | Some stored =>
      List.map trim (List.filter nonblank (split DELIM (toWellFormed stored)))
  end.

(** The Gmail build creates public/templates before it adds a template; the
    nodemailer build does not. *)
Definition ensure_templates_dir (v : variant) (st : TStore) : TStore :=
  match v with
  | Nodemailer => st
  | GmailApi =>
      {| templates_dir := true;
         subjects_txt := subjects_txt st;
         messages_txt := messages_txt st |}
  end.

(** fs.appendFileSync on a file of public/templates: creates the file when
    it is missing, which needs the directory.  The state keeps the text that
    was written, the file its UTF-8 bytes; what a later read gives is
    [toWellFormed] of the text.  A write never completes a surrogate pair
    that an earlier write left open: the handlers start every append to a
    file that is not empty with a line feed. *)
Definition appendFileSync (dir : bool) (file : option jsstring) (data : jsstring)
  : result jsstring :=
  match file with
  | Some content => Ok (content ++ data)
  | None =>
      if dir then Ok data
      else Throw (Exn SystemError (js "ENOENT: no such file or directory, open"))
  end.

(** [(content ? '\n' : '')] *)
Definition sep_before (content : jsstring) : jsstring :=
  if is_empty content then [] else [LF].

Definition caught (st : TStore) (r : result (TStore * Response))
  : TStore * Response :=
  match r with
  | Ok out => out
  | Throw e => (st, Json 500 false (exn_message e))
  end.

(** POST /templates/subjects/add *)
Definition subjects_add (v : variant) (st : TStore) (subject : jsval)
  : TStore * Response :=
  let st1 := ensure_templates_dir v st in
  caught st1
    (let content := toWellFormed (default [] (subjects_txt st1)) in
     let subjects := List.filter nonblank (split [LF] content) in
     t <- call_trim (js "subject") subject ;;
     if negb (includes subjects t) then
       t' <- call_trim (js "subject") subject ;;
       c' <- appendFileSync (templates_dir st1) (subjects_txt st1)
               (sep_before content ++ t') ;;
       Ok ({| templates_dir := templates_dir st1;
              subjects_txt := Some c';
              messages_txt := messages_txt st1 |},
           Json 200 true (js "Subject added successfully"))
     else
       Ok (st1, Json 200 true (js "Subject added successfully"))).

(** POST /templates/subjects/delete *)
Definition subjects_delete (st : TStore) (subject : jsval)
  : TStore * Response :=
  caught st
    (match subjects_txt st with
     | Some stored =>
         subjects <-
           filter_r
             (fun line =>
                if nonblank line
                then (t <- call_trim (js "subject") subject ;;
                      Ok (negb (str_eqb (trim line) t)))
                else Ok false)
             (split [LF] (toWellFormed stored)) ;;
         Ok ({| templates_dir := templates_dir st;
                subjects_txt := Some (join [LF] subjects);
                messages_txt := messages_txt st |},
             Json 200 true (js "Subject deleted successfully"))
     | None => Ok (st, Json 200 true (js "Subject deleted successfully"))
     end).

(** POST /templates/messages/add *)
Definition messages_add (v : variant) (st : TStore) (message : jsval)
  : TStore * Response :=
  let st1 := ensure_templates_dir v st in
  caught st1
    (let content := toWellFormed (default [] (messages_txt st1)) in
     t <- call_trim (js "message") message ;;
     c' <- appendFileSync (templates_dir st1) (messages_txt st1)
             (sep_before content ++ DELIM ++ [LF] ++ t) ;;
     Ok ({| templates_dir := templates_dir st1;
            subjects_txt := subjects_txt st1;
            messages_txt := Some c' |},
         Json 200 true (js "Message added successfully"))).

(** POST /templates/messages/delete *)
Definition messages_delete (st : TStore) (message : jsval)
  : TStore * Response :=
  caught st
    (match messages_txt st with
     | Some stored =>
         messages <-
           filter_r
             (fun msg =>
                if nonblank msg
                then (t <- call_trim (js "message") message ;;
                      Ok (negb (str_eqb (trim msg) t)))
                else Ok false)
             (split DELIM (toWellFormed stored)) ;;
         Ok ({| templates_dir := templates_dir st;
                subjects_txt := subjects_txt st;
                messages_txt :=
                  Some (join [LF]
                          (List.map (fun msg => DELIM ++ [LF] ++ trim msg) messages)) |},
             Json 200 true (js "Message deleted successfully"))
     | None => Ok (st, Json 200 true (js "Message deleted successfully"))
     end).

(** A fresh installation with the directory public/templates in place and no
    template file yet. *)
Definition empty_store : TStore :=
  {| templates_dir := true; subjects_txt := None; messages_txt := None |}.

(** Adding a sequence of messages, one request each. *)
Definition add_messages (v : variant) (st : TStore) (ms : list jsstring) : TStore :=
  fold_left (fun s m => fst (messages_add v s (JStr m))) ms st.

(* ================================================================= *)
(** ** Paths and the files under public/ *)

Definition SLASH : N := 47.
Definition DOT : N := 46.

(** Paths are relative to [__dirname]. *)

(** path.join(dir, name) for a base name: the name after the directory and a
    slash.  That is what path.join gives for a plain name ([plain_name],
    lemma [posix_join_plain]); multer's [originalname] is the base name of
    the name the client sent, never empty, [.] or [..]. *)
Definition path_join (dir name : jsstring) : jsstring := dir ++ [SLASH] ++ name.

(** A plain file name: not empty, without a slash, neither [.] nor [..]. *)
Definition plain_name (n : jsstring) : Prop :=
  n <> [] /\ ~ In SLASH n /\ n <> [DOT] /\ n <> [DOT; DOT].

(** The state of the loop of normalizeString (POSIX, [allowAboveRoot] set):
    [segment] holds the code units since the last separator, which the
    source slices out of the path as [path.slice(lastSlash + 1, i)], so that
    [lastSlash === i - 1] reads: [segment] is empty. *)
Record norm_state := {
  res : jsstring;
  lastSegmentLength : nat;
  segment : jsstring;
  dots : Z
}.

Definition norm_init : norm_state :=
  {| res := []; lastSegmentLength := 0%nat; segment := []; dots := 0 |}.

(** [s.lastIndexOf(c)], -1 when [c] does not occur. *)
Fixpoint lastIndexOf_go (c : N) (s : jsstring) (i found : Z) : Z :=
  match s with
  | [] => found
  | x :: r => lastIndexOf_go c r (i + 1)%Z (if x =? c then i else found)
  end.

Definition lastIndexOf (c : N) (s : jsstring) : Z := lastIndexOf_go c s 0 (-1).

(** [s.charCodeAt(s.length - k)] *)
Definition code_from_end (s : jsstring) (k : nat) : N :=
  nth (length s - k)%nat s 0.

(** What the loop does at a separator, and once more at the end of the path:
    an empty segment and [.] are passed over, [..] takes the last segment of
    [res] away (or is kept when there is none to take), any other segment is
    added to [res]. *)
Definition norm_separator (st : norm_state) : norm_state :=
  let closed r l :=
    {| res := r; lastSegmentLength := l; segment := []; dots := 0 |} in
  let above :=
    closed (res st ++ (if (0 <? length (res st))%nat then js "/.." else js ".."))
      2%nat in
  if is_empty (segment st) || (dots st =? 1)%Z then
    closed (res st) (lastSegmentLength st)
  else if (dots st =? 2)%Z then
    if (length (res st) <? 2)%nat || negb (lastSegmentLength st =? 2)%nat
       || negb (code_from_end (res st) 1%nat =? DOT)
       || negb (code_from_end (res st) 2%nat =? DOT)
    then
      if (2 <? length (res st))%nat then
        let lastSlashIndex := lastIndexOf SLASH (res st) in
        if (lastSlashIndex =? -1)%Z then closed [] 0%nat
        else
          let r := firstn (Z.to_nat lastSlashIndex) (res st) in
          closed r (Z.to_nat (Z.of_nat (length r) - 1 - lastIndexOf SLASH r))
      else if negb (length (res st) =? 0)%nat then closed [] 0%nat
      else above
    else above
  else
    closed (if (0 <? length (res st))%nat
            then res st ++ [SLASH] ++ segment st else segment st)
      (length (segment st)).

(** The counter of dots after the code units of one segment. *)
Definition count_dots (d : Z) (n : jsstring) : Z :=
  fold_left
    (fun d code =>
       if (code =? DOT) && negb (d =? -1)%Z then (d + 1)%Z else (-1)%Z)
    n d.

Definition norm_step (st : norm_state) (code : N) : norm_state :=
  if code =? SLASH then norm_separator st
  else
    {| res := res st;
       lastSegmentLength := lastSegmentLength st;
       segment := segment st ++ [code];
       dots := if (code =? DOT) && negb (dots st =? -1)%Z
               then (dots st + 1)%Z else (-1)%Z |}.

(** normalizeString(path, true, '/', isPosixPathSeparator): after the last
    code unit the loop runs once more with a separator, unless the path ends
    in one, where the segment is empty and nothing is left to do. *)
Definition normalizeString (p : jsstring) : jsstring :=
  res (norm_separator (fold_left norm_step p norm_init)).

(** path.normalize on a relative path.  In the program every path starts
    with [__dirname], which is absolute: there [..] stops at the root, here
    it is kept in front of the path. *)
Definition normalize (p : jsstring) : jsstring :=
  if is_empty p then js "."
  else
    let trailingSeparator := List.last p 0 =? SLASH in
    let q := normalizeString p in
    if is_empty q then (if trailingSeparator then js "./" else js ".")
    else if trailingSeparator then q ++ [SLASH] else q.

(** path.join(dir, name) on strings: the arguments that are not empty, a
    slash between them, normalised. *)
Definition posix_join (dir name : jsstring) : jsstring :=
  if is_empty dir then normalize name
  else if is_empty name then normalize dir
  else normalize (dir ++ [SLASH] ++ name).

(** Numbers.  [JNum z] is the number that the body parser gives for the
    integer literal [z]: the double nearest to it.  Number::toString writes
    the shortest digits that read back as that double, with an exponent from
    1e21 on. *)

(** The double nearest to a non-negative integer, ties to the even
    significand of 53 bits. *)
Definition nearest_double (a : Z) : Z :=
  let e := (Z.log2 a - 52)%Z in
  if (e <=? 0)%Z then a
  else
    let q := Z.shiftr a e in
    let r := (a - Z.shiftl q e)%Z in
    let half := Z.shiftl 1 (e - 1) in
    Z.shiftl (if (half <? r)%Z || ((r =? half)%Z && Z.odd q) then q + 1 else q)%Z e.

Definition decimal_digits (a : Z) : Z := Z.of_nat (length (js (pretty a))).

(** The shortest digits [s], [k] of them, with [s * 10^(d-k)] read back as
    [a]; of two such the closer one, then the even one. *)
Fixpoint shortest_digits (fuel : nat) (a d k : Z) : Z * Z :=
  match fuel with
  | O => (a, d)
  | S fuel' =>
      let m := (10 ^ (d - k))%Z in
      let lo := (a / m)%Z in
      let hi := (lo + 1)%Z in
      let fits s :=
        (10 ^ (k - 1) <=? s)%Z && (s <? 10 ^ k)%Z
        && (nearest_double (s * m) =? a)%Z in
      let below := (a - lo * m)%Z in
      let above := (hi * m - a)%Z in
      if fits lo && fits hi then
        (if (below <? above)%Z || ((below =? above)%Z && Z.even lo)
         then lo else hi, k)
      else if fits lo then (lo, k)
      else if fits hi then (hi, k)
      else shortest_digits fuel' a d (k + 1)%Z
  end.

Definition DIGIT_ZERO : N := 48.

(** Number::toString of a positive finite double that is an integer. *)
Definition double_text (a : Z) : jsstring :=
  let d := decimal_digits a in
  let '(s, k, n) :=
    if (nearest_double (10 ^ d) =? a)%Z then (1, 1, d + 1)%Z
    else let '(s, k) := shortest_digits (Z.to_nat d) a d 1 in (s, k, d) in
  let digits := js (pretty s) in
  if (n <=? 21)%Z then digits ++ repeat DIGIT_ZERO (Z.to_nat (n - k))
  else
    match digits with
    | [] => []
    | [c] => [c] ++ js "e+" ++ js (pretty (n - 1)%Z)
    | c :: rest => [c] ++ js "." ++ rest ++ js "e+" ++ js (pretty (n - 1)%Z)
    end.

Definition number_text (z : Z) : jsstring :=
  if (z =? 0)%Z then js "0"
  else
    let a := nearest_double (Z.abs z) in
    let t := if (2 ^ 1024 <=? a)%Z then js "Infinity" else double_text a in
    if (z <? 0)%Z then js "-" ++ t else t.

(** What the message of ERR_INVALID_ARG_TYPE says it received (an object or
    array without a property [constructor] of its own). *)
Definition received (v : jsval) : jsstring :=
  match v with
  | JUndefined => js "undefined"
  | JNull => js "null"
  | JBool true => js "type boolean (true)"
  | JBool false => js "type boolean (false)"
  | JNum z => js "type number (" ++ number_text z ++ js ")"
  | JStr s => js "type string ('" ++ s ++ js "')"
  | JArr _ => js "an instance of Array"
  | JObj _ => js "an instance of Object"
  end.

(** path.join validates its arguments: anything but a string is a TypeError. *)
Definition validateString (v : jsval) : result jsstring :=
  match v with
  | JStr name => Ok name
  | _ =>
      Throw (Exn TypeError
               (js "The " ++ [DQUOTE] ++ js "path" ++ [DQUOTE]
                ++ js " argument must be of type string. Received " ++ received v))
  end.

Definition path_join_val (dir : jsstring) (v : jsval) : result jsstring :=
  name <- validateString v ;; Ok (posix_join dir name).

Definition uploadDir : jsstring := js "public/uploads".
Definition filesFolder : jsstring := js "public/files".

(** The regular files, by path, with their bytes.  Directories are not part
    of the state: public/files and public/uploads hold regular files only,
    and [mkdirSync(dir, {recursive: true})] changes no file.  A path that
    names a directory (the folder itself, which a request can name as [.])
    is therefore outside what the functions below describe: the statements
    about names that come with a request keep to plain names and to paths
    of regular files. *)
Abbreviation FS := (gmap jsstring (list N)).

Definition existsSync (fs : FS) (p : jsstring) : bool :=
  match fs !! p with Some _ => true | None => false end.

Definition enoent : exn := Exn SystemError (js "ENOENT: no such file or directory").

Definition readFileSync (fs : FS) (p : jsstring) : result (list N) :=
  match fs !! p with
  | Some bytes => Ok bytes
  | None => Throw enoent
  end.

Definition unlinkSync (fs : FS) (p : jsstring) : result FS :=
  match fs !! p with
  | Some _ => Ok (delete p fs)
  | None => Throw enoent
  end.

Definition renameSync (fs : FS) (src dst : jsstring) : result FS :=
  match fs !! src with
  | Some bytes => Ok (<[dst := bytes]> (delete src fs))
  | None => Throw enoent
  end.

(** A file object of multer: the name the client gave and the path of the
    staged copy. *)
Record File := { originalname : jsstring; path : jsstring }.

(** multer's disk storage: the staged copy is
    [uploadDir/<Date.now()>-<originalname>]. *)
Definition multer_path (t : N) (name : jsstring) : jsstring :=
  path_join uploadDir (js (pretty t) ++ js "-" ++ name).

Definition staged_file (t : N) (name : jsstring) : File :=
  {| originalname := name; path := multer_path t name |}.

(** An entry of the attachment list: [{filename, path}]. *)
Record Attachment := { filename : jsstring; filepath : jsstring }.

(** [req.files.forEach(file => attachments.push({...}))] *)
Definition push_uploads (attachments : list Attachment) (files : list File)
  : list Attachment :=
  if (0 <? length files)%nat then
    fold_left
      (fun acc file =>
         acc ++ [{| filename := originalname file; filepath := path file |}])
      files attachments
  else attachments.

(** [Array.isArray(selectedFiles) ? selectedFiles : [selectedFiles]] *)
Definition filesArray (selectedFiles : jsval) : list jsval :=
  match selectedFiles with
  | JArr names => List.map JStr names
  | v => [v]
  end.

(** One round of the forEach over the selected names, nodemailer build:
    [if (fileName && fs.existsSync(path.join(filesFolder, fileName)))]. *)
Definition push_selected_one (fs : FS) (acc : list Attachment) (fileName : jsval)
  : result (list Attachment) :=
  if truthy fileName then
    name <- validateString fileName ;;
    if existsSync fs (posix_join filesFolder name) then
      Ok (acc ++ [{| filename := name; filepath := posix_join filesFolder name |}])
    else Ok acc
  else Ok acc.

(** The same round in the Gmail build, which joins the path first:
    [const filePath = path.join(filesFolder, fileName);
     if (fileName && fs.existsSync(filePath))]. *)
Definition push_selected_one_gmail (fs : FS) (acc : list Attachment)
  (fileName : jsval) : result (list Attachment) :=
  name <- validateString fileName ;;
  let filePath := posix_join filesFolder name in
  if truthy fileName && existsSync fs filePath then
    Ok (acc ++ [{| filename := name; filepath := filePath |}])
  else Ok acc.

Fixpoint forEach_r {A S} (body : S -> A -> result S) (l : list A) (s : S)
  : result S :=
  match l with
  | [] => Ok s
  | x :: r => s' <- body s x ;; forEach_r body r s'
  end.

(** A selected name for which [path.join] is known to give the path of a
    file of the store or of nothing: a plain name, or the empty name, which
    both builds pass over. *)
Definition plain_or_empty (n : jsstring) : Prop := n = [] \/ plain_name n.

(** [if (selectedFiles) { filesArray.forEach(...) }] *)
Definition push_selected (v : variant) (fs : FS) (attachments : list Attachment)
  (selectedFiles : jsval) : result (list Attachment) :=
  if truthy selectedFiles then
    forEach_r
      (match v with
       | Nodemailer => push_selected_one fs
       | GmailApi => push_selected_one_gmail fs
       end)
      (filesArray selectedFiles) attachments
  else Ok attachments.

(** Promotion of one staged upload:
    [if (!fs.existsSync(destPath)) fs.renameSync(file.path, destPath);
     else fs.unlinkSync(file.path);] *)
Definition promote (fs : FS) (file : File) : result FS :=
  let destPath := path_join filesFolder (originalname file) in
  if negb (existsSync fs destPath) then renameSync fs (path file) destPath
  else unlinkSync fs (path file).

(** The forEach over [req.files]; the files moved before an exception stay
    moved, so the state comes back with the exception. *)
Fixpoint promote_all (fs : FS) (files : list File) : FS * option exn :=
  match files with
  | [] => (fs, None)
  | file :: rest =>
      match promote fs file with
      | Ok fs' => promote_all fs' rest
      | Throw e => (fs, Some e)
      end
  end.

(** [if (req.files && req.files.length > 0) { mkdir; req.files.forEach(...) }] *)
Definition promote_uploads (fs : FS) (files : list File) : FS * option exn :=
  if (0 <? length files)%nat then promote_all fs files else (fs, None).

(** The names the selection refers to, as the specification speaks of them
    (for a plain name this is the test of the handlers): a name
    resolves when it is not empty and is the name of a file of the store. *)
Definition resolves (fs : FS) (name : jsstring) : bool :=
  negb (is_empty name) && existsSync fs (path_join filesFolder name).

(* ================================================================= *)
(** ** Rendering *)

(** ToString, as a template literal applies it: an object that cannot be
    converted to a primitive value is a TypeError. *)
Definition to_string (v : jsval) : result jsstring :=
  match v with
  | JUndefined => Ok (js "undefined")
  | JNull => Ok (js "null")
  | JBool true => Ok (js "true")
  | JBool false => Ok (js "false")
  | JNum z => Ok (number_text z)
  | JStr s => Ok s
  | JArr items => Ok (join (js ",") items)
  | JObj true => Ok (js "[object Object]")
  | JObj false =>
      Throw (Exn TypeError (js "Cannot convert object to primitive value"))
  end.

(** A value that a template literal can convert. *)
Definition convertible (v : jsval) : Prop := v <> JObj false.

(** [message.replace(/\n/g, '<br>')]: a method of strings only. *)
Definition call_replace (v : jsval) : result jsstring :=
  match v with
  | JStr s => Ok (replace_newlines (js "<br>") s)
  | _ => Throw (no_method (js "message") (js "replace") v)
  end.

(** [`<p>${message.replace(/\n/g, '<br>')}</p>`] *)
Definition render_html (message : jsval) : result jsstring :=
  body <- call_replace message ;;
  Ok (js "<p>" ++ body ++ js "</p>").

(* ================================================================= *)
(** ** getMimeType *)

(** The state of the loop of path.extname (POSIX), which scans the path from
    its last code unit to its first. *)
Record ext_state := {
  startDot : Z;
  startPart : Z;
  end_ : Z;
  matchedSlash : bool;
  preDotState : Z;
  stopped : bool
}.

Definition ext_init : ext_state :=
  {| startDot := -1; startPart := 0; end_ := -1; matchedSlash := true;
     preDotState := 0; stopped := false |}.

Definition ext_step (st : ext_state) (i : Z) (code : N) : ext_state :=
  if stopped st then st
  else if code =? SLASH then
    if negb (matchedSlash st) then
      {| startDot := startDot st; startPart := (i + 1)%Z; end_ := end_ st;
         matchedSlash := matchedSlash st; preDotState := preDotState st;
         stopped := true |}
    else st
  else
    let st1 :=
      if (end_ st =? -1)%Z then
        {| startDot := startDot st; startPart := startPart st; end_ := (i + 1)%Z;
           matchedSlash := false; preDotState := preDotState st;
           stopped := false |}
      else st in
    if code =? DOT then
      if (startDot st1 =? -1)%Z then
        {| startDot := i; startPart := startPart st1; end_ := end_ st1;
           matchedSlash := matchedSlash st1; preDotState := preDotState st1;
           stopped := false |}
      else if negb (preDotState st1 =? 1)%Z then
        {| startDot := startDot st1; startPart := startPart st1; end_ := end_ st1;
           matchedSlash := matchedSlash st1; preDotState := 1;
           stopped := false |}
      else st1
    else if negb (startDot st1 =? -1)%Z then
      {| startDot := startDot st1; startPart := startPart st1; end_ := end_ st1;
         matchedSlash := matchedSlash st1; preDotState := -1;
         stopped := false |}
    else st1.

(** [for (let i = path.length - 1; i >= 0; --i)] over the reversed path. *)
Fixpoint ext_loop (reversed : jsstring) (i : Z) (st : ext_state) : ext_state :=
  match reversed with
  | [] => st
  | code :: r => ext_loop r (i - 1)%Z (ext_step st i code)
  end.

(** path.extname *)
Definition extname (p : jsstring) : jsstring :=
  let st := ext_loop (rev p) (Z.of_nat (length p) - 1)%Z ext_init in
  if (startDot st =? -1)%Z || (end_ st =? -1)%Z || (preDotState st =? 0)%Z
     || ((preDotState st =? 1)%Z && (startDot st =? end_ st - 1)%Z
         && (startDot st =? startPart st + 1)%Z)
  then []
  else firstn (Z.to_nat (end_ st - startDot st)) (skipn (Z.to_nat (startDot st)) p).

(** toLowerCase on the letters A to Z.  Other code units are left as they
    are: no key of the table below holds a code unit that the full Unicode
    mapping produces from a code unit outside A to Z. *)
Definition toLowerCase (s : jsstring) : jsstring :=
  List.map (fun c => if (65 <=? c) && (c <=? 90) then c + 32 else c) s.

Definition mimeTypes : list (jsstring * jsstring) :=
  [ (js ".pdf", js "application/pdf");
    (js ".doc", js "application/msword");
    (js ".docx", js "application/vnd.openxmlformats-officedocument.wordprocessingml.document");
    (js ".xls", js "application/vnd.ms-excel");
    (js ".xlsx", js "application/vnd.openxmlformats-officedocument.spreadsheetml.sheet");
    (js ".png", js "image/png");
    (js ".jpg", js "image/jpeg");
    (js ".jpeg", js "image/jpeg");
    (js ".gif", js "image/gif");
    (js ".txt", js "text/plain");
    (js ".zip", js "application/zip") ].

(** [table[key]] on an object literal with distinct keys. *)
Fixpoint assoc (key : jsstring) (table : list (jsstring * jsstring))
  : option jsstring :=
  match table with
  | [] => None
  | (k, v) :: r => if str_eqb key k then Some v else assoc key r
  end.

Definition getMimeType (name : jsstring) : jsstring :=
  let ext := toLowerCase (extname name) in
  default (js "application/octet-stream") (assoc ext mimeTypes).

(* ================================================================= *)
(** ** Buffers: UTF-8 and base64 *)

(** Buffer.from(string): the UTF-8 bytes of a string of UTF-16 code units; a
    surrogate without its partner becomes U+FFFD. *)
Fixpoint utf8 (s : jsstring) : list N :=
  match s with
  | [] => []
  | c :: r =>
      if c <? 128 then c :: utf8 r
      else if c <? 2048 then (192 + c / 64) :: (128 + c mod 64) :: utf8 r
      else if (55296 <=? c) && (c <=? 56319) then
        match r with
        | d :: r' =>
            if (56320 <=? d) && (d <=? 57343) then
              let cp := 65536 + (c - 55296) * 1024 + (d - 56320) in
              (240 + cp / 262144) :: (128 + (cp / 4096) mod 64)
              :: (128 + (cp / 64) mod 64) :: (128 + cp mod 64) :: utf8 r'
            else 239 :: 191 :: 189 :: utf8 r
        | [] => [239; 191; 189]
        end
      else if (56320 <=? c) && (c <=? 57343) then 239 :: 191 :: 189 :: utf8 r
      else (224 + c / 4096) :: (128 + (c / 64) mod 64) :: (128 + c mod 64) :: utf8 r
  end.

Definition b64_alphabet : jsstring :=
  js "ABCDEFGHIJKLMNOPQRSTUVWXYZabcdefghijklmnopqrstuvwxyz0123456789+/".

Definition PLUS : N := 43.
Definition MINUS : N := 45.
Definition UNDERSCORE : N := 95.
Definition EQUALS : N := 61.

(** The digit of a six-bit group. *)
Definition b64_char (i : N) : N := nth (N.to_nat (i mod 64)) b64_alphabet 65.

(** buffer.toString('base64') *)
Fixpoint base64 (bytes : list N) : jsstring :=
  match bytes with
  | [] => []
  | [a] => [b64_char (a / 4); b64_char ((a mod 4) * 16); EQUALS; EQUALS]
  | [a; b] =>
      [b64_char (a / 4); b64_char ((a mod 4) * 16 + b / 16);
       b64_char ((b mod 16) * 4); EQUALS]
  | a :: b :: c :: r =>
      b64_char (a / 4) :: b64_char ((a mod 4) * 16 + b / 16)
      :: b64_char ((b mod 16) * 4 + c / 64) :: b64_char (c mod 64) :: base64 r
  end.

(** [s.replace(/x/g, y)] for single code units. *)
Definition replace_char (x y : N) (s : jsstring) : jsstring :=
  List.map (fun c => if c =? x then y else c) s.

Fixpoint drop_while_eq (x : N) (s : jsstring) : jsstring :=
  match s with
  | c :: r => if c =? x then drop_while_eq x r else s
  | [] => []
  end.

(** [s.replace(/=+$/, '')] *)
Definition strip_trailing (x : N) (s : jsstring) : jsstring :=
  rev (drop_while_eq x (rev s)).

(** [.toString('base64').replace(/\+/g, '-').replace(/\//g, '_').replace(/=+$/, '')] *)
Definition base64url (bytes : list N) : jsstring :=
  strip_trailing EQUALS
    (replace_char SLASH UNDERSCORE (replace_char PLUS MINUS (base64 bytes))).

(* ================================================================= *)
(** ** POST /send-email *)

(** [req.body] and [req.files] after multer has staged the uploads. *)
Record SendRequest := {
  from : jsval;
  to : jsval;
  subject : jsval;
  message : jsval;
  senderName : jsval;
  selectedFiles : jsval;
  files : list File
}.

(** What a request did: the response, the files afterwards and the messages
    handed to the transport, in order. *)
Record Outcome (M : Type) := {
  response : Response;
  fs_after : FS;
  transport_calls : list M
}.
Arguments response {M} _.
Arguments fs_after {M} _.
Arguments transport_calls {M} _.

(** The catch block of the handler. *)
Definition failed {M : Type} (fs : FS) (calls : list M) (e : exn) : Outcome M :=
  {| response := Json 500 false (js "Failed to send email: " ++ exn_message e);
     fs_after := fs;
     transport_calls := calls |}.

Definition sent_ok {M : Type} (fs : FS) (calls : list M) : Outcome M :=
  {| response := Json 200 true (js "Email sent successfully!");
     fs_after := fs;
     transport_calls := calls |}.

Module Nodemailer.

Record MailOptions := {
  mail_from : jsval;
  mail_to : jsval;
  mail_subject : jsval;
  text : jsval;
  html : jsstring;
  attachments : option (list Attachment)
}.

(** Everything between the validation and [transporter.sendMail]. *)
Definition compose (fs : FS) (req : SendRequest) : result MailOptions :=
  fromAddress <-
    (if truthy (senderName req) then
       n <- to_string (senderName req) ;;
       f <- to_string (from req) ;;
       Ok (JStr (n ++ js " <" ++ f ++ js ">"))
     else Ok (from req)) ;;
  h <- render_html (message req) ;;
  atts <- push_selected Nodemailer fs (push_uploads [] (files req))
            (selectedFiles req) ;;
  Ok {| mail_from := fromAddress;
        mail_to := to req;
        mail_subject := subject req;
        text := message req;
        html := h;
        (* delete mailOptions.attachments when the array is empty *)
        attachments := if (length atts =? 0)%nat then None else Some atts |}.

Section Handler.

(** [transporter.sendMail]: it reads the attached files itself. *)
Variable sendMail : FS -> MailOptions -> result unit.

Definition send_email (fs : FS) (req : SendRequest) : Outcome MailOptions :=
  if negb (truthy (from req)) || negb (truthy (to req))
     || negb (truthy (subject req)) || negb (truthy (message req))
  then
    {| response := Json 400 false (js "All fields are required");
       fs_after := fs;
       transport_calls := [] |}
  else
    match compose fs req with
    | Throw e => failed fs [] e
    | Ok mailOptions =>
        match sendMail fs mailOptions with
        | Throw e => failed fs [mailOptions] e
        | Ok _ =>
            match promote_uploads fs (files req) with
            | (fs', None) => sent_ok fs' [mailOptions]
            | (fs', Some e) => failed fs' [mailOptions] e
            end
        end
    end.
End Handler.

End Nodemailer.

Module Gmail.

Record Tokens := { expiry_date : option N }.
Record User := { name : jsval; email : jsval }.

(** [req.session]; [None] is a property that was never set.  The handler
    stores refreshed tokens in the session; nothing it does afterwards reads
    them back, so the session is an input only. *)
Record Session := { tokens : option Tokens; user : option User }.

Definition CRLF : jsstring := [CR; LF].

(** ['boundary_' + Date.now()] *)
Definition boundary_of (now : N) : jsstring := js "boundary_" ++ js (pretty now).

(** The four pushes under the comment Headers; [user.name] on a session
    without a user is a TypeError. *)
Definition push_headers (emailContent : list jsstring) (session : Session)
  (req : SendRequest) : result (list jsstring) :=
  match user session with
  | None =>
      Throw (Exn TypeError (js "Cannot read properties of undefined (reading 'name')"))
  | Some u =>
      n <- to_string (name u) ;;
      e <- to_string (email u) ;;
      t <- to_string (to req) ;;
      s <- to_string (subject req) ;;
      Ok (emailContent
            ++ [js "From: " ++ n ++ js " <" ++ e ++ js ">"]
            ++ [js "To: " ++ t]
            ++ [js "Subject: " ++ s]
            ++ [js "MIME-Version: 1.0"])
  end.

(** One round of [for (const attachment of attachments)]. *)
Definition push_attachment (fs : FS) (boundary : jsstring)
  (emailContent : list jsstring) (attachment : Attachment)
  : result (list jsstring) :=
  fileContent <- readFileSync fs (filepath attachment) ;;
  let base64File := base64 fileContent in
  let mimeType := getMimeType (filename attachment) in
  Ok (emailContent
        ++ [js "--" ++ boundary]
        ++ [js "Content-Type: " ++ mimeType ++ js "; name=" ++ [DQUOTE]
              ++ filename attachment ++ [DQUOTE]]
        ++ [js "Content-Transfer-Encoding: base64"]
        ++ [js "Content-Disposition: attachment; filename=" ++ [DQUOTE]
              ++ filename attachment ++ [DQUOTE]]
        ++ [[]]
        ++ [base64File]).

(** The body of the message, with or without attachments. *)
Definition push_body (fs : FS) (boundary : jsstring)
  (emailContent : list jsstring) (attachments : list Attachment)
  (req : SendRequest) : result (list jsstring) :=
  if (0 <? length attachments)%nat then
    let ec :=
      emailContent
        ++ [js "Content-Type: multipart/mixed; boundary=" ++ [DQUOTE]
              ++ boundary ++ [DQUOTE]]
        ++ [[]]
        ++ [js "--" ++ boundary]
        ++ [js "Content-Type: text/html; charset=UTF-8"]
        ++ [[]] in
    h <- render_html (message req) ;;
    ec' <- forEach_r (push_attachment fs boundary) attachments (ec ++ [h]) ;;
    Ok (ec' ++ [js "--" ++ boundary ++ js "--"])
  else
    let ec :=
      emailContent ++ [js "Content-Type: text/html; charset=UTF-8"] ++ [[]] in
    h <- render_html (message req) ;;
    Ok (ec ++ [h]).

(** The lines of the message, in the order the handler pushes them. *)
Definition email_lines (now : N) (session : Session) (fs : FS)
  (req : SendRequest) : result (list jsstring) :=
  let boundary := boundary_of now in
  ec <- push_headers [] session req ;;
  attachments <- push_selected GmailApi fs (push_uploads [] (files req))
                   (selectedFiles req) ;;
  push_body fs boundary ec attachments req.

(** [Buffer.from(emailContent.join('\r\n')).toString('base64')] and the
    three replacements. *)
Definition raw_email (emailContent : list jsstring) : jsstring :=
  base64url (utf8 (join CRLF emailContent)).

Section Handler.

(** [oauth2Client.refreshAccessToken] and [gmail.users.messages.send] with
    the credentials in force. *)
Variable refreshAccessToken : Tokens -> result Tokens.
Variable messages_send : Tokens -> jsstring -> result unit.

(** [expiry_date && expiry_date < Date.now()] *)
Definition expired (t : Tokens) (now : N) : bool :=
  match expiry_date t with
  | Some d => negb (d =? 0) && (d <? now)
  | None => false
  end.

(** The handler proper, entered with the tokens of the session;
    [now0] and [now] are the two readings of the clock. *)
Definition handler (now0 now : N) (session : Session) (t : Tokens)
  (fs : FS) (req : SendRequest) : Outcome jsstring :=
  if negb (truthy (to req)) || negb (truthy (subject req))
     || negb (truthy (message req))
  then
    {| response := Json 400 false (js "To, Subject and Message are required");
       fs_after := fs;
       transport_calls := [] |}
  else
    match (if expired t now0 then refreshAccessToken t else Ok t) with
    | Throw e => failed fs [] e
    | Ok credentials =>
        match email_lines now session fs req with
        | Throw e => failed fs [] e
        | Ok emailContent =>
            let rawEmail := raw_email emailContent in
            match messages_send credentials rawEmail with
            | Throw e => failed fs [rawEmail] e
            | Ok _ =>
                match promote_uploads fs (files req) with
                | (fs', None) => sent_ok fs' [rawEmail]
                | (fs', Some e) => failed fs' [rawEmail] e
                end
            end
        end
    end.

(** The route: [requireAuth], then the handler. *)
Definition send_email (now0 now : N) (session : Session) (fs : FS)
  (req : SendRequest) : Outcome jsstring :=
  match tokens session with
  | None =>
      {| response := Json 401 false (js "Please login with Google first");
         fs_after := fs;
         transport_calls := [] |}
  | Some t => handler now0 now session t fs req
  end.
End Handler.

End Gmail.

(* ================================================================= *)
(** ** POST /files/delete *)

(** [path.join(filesFolder, fileName)] stands before the [try]: what it
    throws leaves the handler. *)
Definition files_delete (fs : FS) (fileName : jsval) : FS * Response :=
  match path_join_val filesFolder fileName with
  | Throw e => (fs, Uncaught e)
  | Ok filePath =>
      if existsSync fs filePath then
        match unlinkSync fs filePath with
        | Ok fs' => (fs', Json 200 true (js "File deleted successfully"))
        | Throw e => (fs, Json 500 false (exn_message e))
        end
      else (fs, Json 404 false (js "File not found"))
  end.

(** A response of the form [{success, message}]. *)
Definition structured (r : Response) : Prop :=
  match r with
  | Json _ _ _ => True
  | Uncaught _ => False
  end.

(* ================================================================= *)
(** ** GET /files *)

(** The name of [p] inside the directory [dir], when [p] lies directly in
    it. *)
Definition entry_name (dir p : jsstring) : option jsstring :=
  if starts_with (dir ++ [SLASH]) p then
    let name := skipn (length dir + 1) p in
    if is_empty name || contains [SLASH] name then None else Some name
  else None.

(** fs.readdirSync(dir): the names of the files that lie directly in [dir],
    here in the order of the map (the order of the system is not fixed). *)
Definition readdirSync (fs : FS) (dir : jsstring) : list jsstring :=
  omap (entry_name dir) (List.map fst (map_to_list fs)).

(** GET /files: [readdirSync(filesFolder).filter(file => !file.startsWith('.'))].
    A folder that is missing is created and answered with the empty list,
    which is also what the listing of the files gives then. *)
Definition files_list (fs : FS) : list jsstring :=
  List.filter (fun file => negb (starts_with [DOT] file))
    (readdirSync fs filesFolder).

(* ================================================================= *)
(** ** Statements about the other routes *)


(** No occurrence starts inside [x] when [x] is followed by [s]. *)
Definition no_match_inside (sep x s : jsstring) : Prop :=
  forall a b, x = a ++ b -> b <> [] -> starts_with sep (b ++ s) = false.

(** A value that is not a string. *)
Definition non_string (v : jsval) : Prop := forall s, v <> JStr s.

(** The directory of the templates is there when the handler appends: the
    Gmail build creates it, or it exists, or the file itself exists. *)
Definition can_append (v : variant) (dir : bool) (file : option jsstring) : Prop :=
  v = GmailApi \/ dir = true \/ file <> None.

(** The lines of a subject that are listed once it is stored. *)
Definition listed_lines (t : jsstring) : list jsstring :=
  List.filter nonblank (split [LF] t).

(** The state of the loop of path.extname after a component without a
    slash was met: a dot at [dot] (or -1), the component ending before [e]. *)
Definition ext_found (dot e pd : Z) : ext_state :=
  {| startDot := dot; startPart := 0; end_ := e; matchedSlash := false;
     preDotState := pd; stopped := false |}.

(** The default of getMimeType. *)
Definition octet_stream : jsstring := js "application/octet-stream".

(** A decimal digit, as a character of a stdpp string. *)
Definition digit (a : ascii) : Prop := 48 <= N_of_ascii a <= 57.

(** The lines of a message without attachments: the four headers and one
    HTML part. *)
Definition plain_lines (from_ to_ subject_ html : jsstring) : list jsstring :=
  [ js "From: " ++ from_;
    js "To: " ++ to_;
    js "Subject: " ++ subject_;
    js "MIME-Version: 1.0";
    js "Content-Type: text/html; charset=UTF-8";
    [];
    html ].

(* ================================================================= *)
(** ** The statements of the specification *)

(** *** Templates *)

(** A string without white space at either end. *)
Definition trimmed (t : jsstring) : Prop := trimStart t = t /\ trimEnd t = t.

(** The test an entry has to pass to stay when [s] is deleted. *)
Definition kept_after_delete (s line : jsstring) : bool :=
  negb (str_eqb (trim line) (trim s)).

(** A store without stored messages: no messages.txt, or an empty one. *)
Definition no_messages (st : TStore) : Prop :=
  messages_txt st = None \/ messages_txt st = Some [].

(** The text of messages.txt after the messages [ms] were added to a store
    without stored messages: each entry after the delimiter and a line feed,
    entries a line feed apart. *)
Definition encoded (ms : list jsstring) : jsstring :=
  DELIM ++ join (LF :: DELIM) (List.map (fun m => LF :: trim m) ms).

(** The pieces between the delimiters of [encoded]. *)
Fixpoint pieces (ts : list jsstring) : list jsstring :=
  match ts with
  | [] => []
  | [t] => [LF :: t]
  | t :: r => (LF :: t ++ [LF]) :: pieces r
  end.

(** Two lists with the same entries, as sets. *)
Definition same_entries (l1 l2 : list jsstring) : Prop :=
  forall e, In e l1 <-> In e l2.

(** *** Attachments *)

(** The attachment of an uploaded file. *)
Definition upload_attachment (file : File) : Attachment :=
  {| filename := originalname file; filepath := path file |}.

(** The attachment of a saved file of the store. *)
Definition saved_attachment (name : jsstring) : Attachment :=
  {| filename := name; filepath := path_join filesFolder name |}.

(** The names a well-formed [selectedFiles] field stands for: one name, a
    list of names, or none when the field is absent (or another falsy
    value). *)
Definition selected_names (selectedFiles : jsval) : option (list jsstring) :=
  match selectedFiles with
  | JUndefined | JNull | JBool false | JNum Z0 => Some []
  | JStr name => Some [name]
  | JArr names => Some names
  | _ => None
  end.


(** The list the specification describes: the uploads, then the selected
    names that resolve. *)
Definition composed_list (fs : FS) (uploads : list File) (names : list jsstring)
  : list Attachment :=
  List.map upload_attachment uploads
  ++ List.map saved_attachment (List.filter (resolves fs) names).

(** A staged upload: its copy lies where multer put it and is there. *)
Definition staged_in (fs : FS) (f : File) : Prop :=
  (exists t, path f = multer_path t (originalname f)) /\ is_Some (fs !! path f).

(** The sender line of the nodemailer build can be written: with a sender
    name, the name and the address convert to strings. *)
Definition sender_convertible (req : SendRequest) : Prop :=
  truthy (senderName req) = true ->
  convertible (senderName req) /\ convertible (from req).

(** The header lines of the Gmail build can be written: the name and the
    address of the user, the recipient and the subject convert to strings. *)
Definition headers_convertible (u : Gmail.User) (req : SendRequest) : Prop :=
  convertible (Gmail.name u) /\ convertible (Gmail.email u)
  /\ convertible (to req) /\ convertible (subject req).

(** *** Validation *)

(** A field that is missing or empty. *)
Definition missing_or_empty (v : jsval) : Prop := v = JUndefined \/ v = JStr [].

(** A field that holds a non-empty string. *)
Definition present (v : jsval) : Prop := exists s, v = JStr s /\ s <> [].

(** A request turned down: the files as they were, nothing sent. *)
Definition rejected {M : Type} (r : Response) (fs : FS) : Outcome M :=
  {| response := r; fs_after := fs; transport_calls := [] |}.

(** *** The multipart envelope *)

(** One attachment part: media type, file name, base64 text. *)
Record Part := { part_type : jsstring; part_name : jsstring; part_data : jsstring }.

(** A value between double quotes. *)
Definition quoted (s : jsstring) : jsstring := [DQUOTE] ++ s ++ [DQUOTE].

(** The six lines of an attachment part. *)
Definition part_lines (boundary : jsstring) (p : Part) : list jsstring :=
  [ js "--" ++ boundary;
    js "Content-Type: " ++ part_type p ++ js "; name=" ++ quoted (part_name p);
    js "Content-Transfer-Encoding: base64";
    js "Content-Disposition: attachment; filename=" ++ quoted (part_name p);
    [];
    part_data p ].

(** The multipart envelope as the specification describes it: the four
    headers, the multipart header, one HTML part, one part per attachment,
    the closing marker. *)
Definition envelope (boundary from_ to_ subject_ html : jsstring)
  (parts : list Part) : list jsstring :=
  [ js "From: " ++ from_;
    js "To: " ++ to_;
    js "Subject: " ++ subject_;
    js "MIME-Version: 1.0";
    js "Content-Type: multipart/mixed; boundary=" ++ quoted boundary;
    [];
    js "--" ++ boundary;
    js "Content-Type: text/html; charset=UTF-8";
    [];
    html ]
  ++ concat (List.map (part_lines boundary) parts)
  ++ [ js "--" ++ boundary ++ js "--" ].

(** What follows the headers: one HTML part alone when there is no
    attachment, else the multipart header, the HTML part, one part per
    attachment and the closing marker. *)
Definition body_lines (boundary html : jsstring) (parts : list Part)
  : list jsstring :=
  match parts with
  | [] => [ js "Content-Type: text/html; charset=UTF-8"; []; html ]
  | _ :: _ =>
      [ js "Content-Type: multipart/mixed; boundary=" ++ quoted boundary;
        [];
        js "--" ++ boundary;
        js "Content-Type: text/html; charset=UTF-8";
        [];
        html ]
      ++ concat (List.map (part_lines boundary) parts)
      ++ [ js "--" ++ boundary ++ js "--" ]
  end.

(** The part of an attachment: the media type of its name, its bytes in
    base64. *)
Definition part_of (fs : FS) (a : Attachment) : Part :=
  {| part_type := getMimeType (filename a);
     part_name := filename a;
     part_data := base64 (default [] (fs !! filepath a)) |}.

(** The digits of base64url. *)
Definition url_safe (c : N) : bool :=
  existsb (N.eqb c)
    (js "ABCDEFGHIJKLMNOPQRSTUVWXYZabcdefghijklmnopqrstuvwxyz0123456789-_").

(** The digits of base64 without the padding. *)
Fixpoint base64_digits (bytes : list N) : jsstring :=
  match bytes with
  | [] => []
  | [a] => [b64_char (a / 4); b64_char ((a mod 4) * 16)]
  | [a; b] =>
      [b64_char (a / 4); b64_char ((a mod 4) * 16 + b / 16);
       b64_char ((b mod 16) * 4)]
  | a :: b :: c :: r =>
      b64_char (a / 4) :: b64_char ((a mod 4) * 16 + b / 16)
      :: b64_char ((b mod 16) * 4 + c / 64) :: b64_char (c mod 64)
      :: base64_digits r
  end.

(** The padding of base64: as many [=] as bytes are missing to a group of
    three. *)
Fixpoint base64_padding (bytes : list N) : jsstring :=
  match bytes with
  | [] => []
  | [_] => [EQUALS; EQUALS]
  | [_; _] => [EQUALS]
  | _ :: _ :: _ :: r => base64_padding r
  end.

(** [+] to [-] and [/] to [_]. *)
Definition url_digit (c : N) : N :=
  if c =? PLUS then MINUS else if c =? SLASH then UNDERSCORE else c.

(* ================================================================= *)
(** ** Checks of the embedding on small inputs *)

Example split_example :
  split (js ",") (js "a,b,,c,") = [js "a"; js "b"; []; js "c"; []].
Proof. reflexivity. Qed.

Example extname_examples :
  extname (js "report.pdf") = js ".pdf" /\ extname (js ".bashrc") = []
  /\ extname (js "a.tar.GZ") = js ".GZ" /\ extname (js "noext") = []
  /\ extname (js "x.") = js "." /\ extname (js "..") = []
  /\ extname (js "a.b/c") = [].
Proof. vm_compute. repeat split. Qed.

Example base64_examples :
  base64 (utf8 (js "Man")) = js "TWFu" /\ base64 (utf8 (js "Ma")) = js "TWE="
  /\ base64 (utf8 (js "M")) = js "TQ==" /\ base64url [251; 255] = js "-_8".
Proof. vm_compute. repeat split. Qed.

Example mime_examples :
  getMimeType (js "a.PDF") = js "application/pdf"
  /\ getMimeType (js "a.bin") = js "application/octet-stream".
Proof. vm_compute. repeat split. Qed.

(** The end-to-end scenario of the specification, on the nodemailer build
    with a transport that accepts the message: success, the upload is in the
    store afterwards, the staged copy is gone, and the HTML body is the
    paragraph with the break. *)
Example end_to_end_nodemailer :
  let req :=
    {| from := JStr (js "me@b.com"); to := JStr (js "a@b.com");
       subject := JStr (js "Hi");
       message := JStr (js "line1" ++ [LF] ++ js "line2");
       senderName := JUndefined; selectedFiles := JArr [];
       files := [staged_file 1700000000000 (js "report.pdf")] |} in
  let fs : FS := {[ multer_path 1700000000000 (js "report.pdf") := [37; 80; 68; 70] ]} in
  let out := Nodemailer.send_email (fun _ _ => Ok tt) fs req in
  response out = Json 200 true (js "Email sent successfully!")
  /\ fs_after out !! path_join filesFolder (js "report.pdf") = Some [37; 80; 68; 70]
  /\ fs_after out !! multer_path 1700000000000 (js "report.pdf") = None
  /\ List.map Nodemailer.html (transport_calls out) = [js "<p>line1<br>line2</p>"]
  /\ List.map Nodemailer.attachments (transport_calls out)
     = [Some [upload_attachment (staged_file 1700000000000 (js "report.pdf"))]].
Proof. vm_compute. repeat split. Qed.

(** The same request on the Gmail build, logged in. *)
Example end_to_end_gmail :
  let req :=
    {| from := JUndefined; to := JStr (js "a@b.com");
       subject := JStr (js "Hi");
       message := JStr (js "line1" ++ [LF] ++ js "line2");
       senderName := JUndefined; selectedFiles := JArr [];
       files := [staged_file 1700000000000 (js "report.pdf")] |} in
  let fs : FS := {[ multer_path 1700000000000 (js "report.pdf") := [37; 80; 68; 70] ]} in
  let session :=
    {| Gmail.tokens := Some {| Gmail.expiry_date := None |};
       Gmail.user := Some {| Gmail.name := JStr (js "Ada");
                             Gmail.email := JStr (js "ada@gmail.com") |} |} in
  let out :=
    Gmail.send_email (fun t => Ok t) (fun _ _ => Ok tt)
      1700000000005 1700000000007 session fs req in
  response out = Json 200 true (js "Email sent successfully!")
  /\ fs_after out !! path_join filesFolder (js "report.pdf") = Some [37; 80; 68; 70]
  /\ fs_after out !! multer_path 1700000000000 (js "report.pdf") = None
  /\ length (transport_calls out) = 1%nat.
Proof. vm_compute. repeat split. Qed.

(* ================================================================= *)
(** ** Lemmas on strings *)

Section Trim.

Lemma trimStart_length s : (length (trimStart s) <= length s)%nat.
Proof.
  induction s as [|c s IH]; simpl; [lia|].
  destruct (is_ws c); simpl; lia.
Qed.

Lemma trimStart_idem s : trimStart (trimStart s) = trimStart s.
Proof.
  induction s as [|c s IH]; simpl; [reflexivity|].
  destruct (is_ws c) eqn:E; [exact IH|].
  simpl. now rewrite E.
Qed.

Lemma trimStart_snoc l c :
  is_ws c = false -> trimStart (l ++ [c]) = trimStart l ++ [c].
Proof.
  intros Hc. induction l as [|a l IH]; simpl.
  - now rewrite Hc.
  - destruct (is_ws a); [exact IH|reflexivity].
Qed.

Lemma trimEnd_cons c s :
  is_ws c = false -> trimEnd (c :: s) = c :: trimEnd s.
Proof.
  intros Hc. unfold trimEnd. simpl.
  rewrite trimStart_snoc by exact Hc.
  rewrite rev_app_distr. reflexivity.
Qed.

Lemma trimEnd_snoc_ws s c : is_ws c = true -> trimEnd (s ++ [c]) = trimEnd s.
Proof.
  intros Hc. unfold trimEnd. rewrite rev_app_distr. simpl. now rewrite Hc.
Qed.

Lemma trimEnd_idem s : trimEnd (trimEnd s) = trimEnd s.
Proof.
  unfold trimEnd. rewrite rev_involutive, trimStart_idem. reflexivity.
Qed.

Lemma trimStart_head s :
  trimStart s = [] \/ exists c r, trimStart s = c :: r /\ is_ws c = false.
Proof.
  induction s as [|c s IH]; simpl; [now left|].
  destruct (is_ws c) eqn:E; [exact IH|].
  right. now exists c, s.
Qed.

Lemma trim_trimmed s : trimmed (trim s).
Proof.
  unfold trimmed, trim. split; [|apply trimEnd_idem].
  destruct (trimStart_head s) as [-> | (c & r & -> & Hc)]; [reflexivity|].
  rewrite trimEnd_cons by exact Hc. simpl. now rewrite Hc.
Qed.

Lemma trimmed_head c t : trimmed (c :: t) -> is_ws c = false.
Proof.
  intros [H _]. simpl in H. destruct (is_ws c); [|reflexivity].
  pose proof (trimStart_length t) as L. rewrite H in L. simpl in L. lia.
Qed.

Lemma trim_of_trimmed t : trimmed t -> trim t = t.
Proof. intros [H1 H2]. unfold trim. now rewrite H1. Qed.

Lemma trim_idem s : trim (trim s) = trim s.
Proof. apply trim_of_trimmed, trim_trimmed. Qed.

(** A trimmed text between two line feeds trims back to itself. *)
Lemma trim_between_newlines t :
  trimmed t -> trim (LF :: t ++ [LF]) = t /\ trim (LF :: t) = t.
Proof.
  intros Ht. unfold trim.
  change (trimStart (LF :: t ++ [LF])) with (trimStart (t ++ [LF])).
  change (trimStart (LF :: t)) with (trimStart t).
  destruct t as [|c t]; [split; reflexivity|].
  pose proof (trimmed_head _ _ Ht) as Hc. destruct Ht as [H1 H2].
  split; [|now rewrite H1].
  simpl. rewrite Hc.
  change (c :: t ++ [LF]) with ((c :: t) ++ [LF]).
  rewrite trimEnd_snoc_ws by reflexivity. exact H2.
Qed.

End Trim.

Section Split.

Lemma starts_with_app p r : starts_with p (p ++ r) = true.
Proof.
  induction p as [|a p IH]; simpl; [reflexivity|].
  now rewrite N.eqb_refl, IH.
Qed.

(** Whether [p] starts a string depends on the first [length p] code units. *)
Lemma starts_with_firstn p x y k :
  (length p <= length x + k)%nat ->
  starts_with p (x ++ firstn k y) = starts_with p (x ++ y).
Proof.
  revert x y k. induction p as [|a p IH]; intros x y k Hk; [reflexivity|].
  destruct x as [|b x]; simpl in *.
  - destruct k as [|k]; [lia|].
    destruct y as [|c y]; simpl; [reflexivity|].
    f_equal. apply (IH [] y k). simpl. lia.
  - f_equal. apply IH. lia.
Qed.

Lemma split_go_skip sep x r cur :
  split_go sep (x ++ r) (length x) cur = split_go sep r 0 cur.
Proof.
  induction x as [|c x IH]; simpl; [|exact IH].
  destruct r; reflexivity.
Qed.

(** At an occurrence of the separator the current piece ends. *)
Lemma split_go_match sep r cur :
  sep <> [] ->
  split_go sep (sep ++ r) 0 cur = rev cur :: split_go sep r 0 [].
Proof.
  intros Hsep. destruct sep as [|c sep]; [congruence|].
  change (split_go (c :: sep) ((c :: sep) ++ r) 0 cur)
    with (if starts_with (c :: sep) ((c :: sep) ++ r)
          then rev cur :: split_go (c :: sep) (sep ++ r) (length sep) []
          else split_go (c :: sep) (sep ++ r) 0 (c :: cur)).
  rewrite starts_with_app, split_go_skip. reflexivity.
Qed.

(** A stretch in which no occurrence of the separator begins goes to the
    current piece whole. *)
Lemma split_go_nomatch sep a rest cur :
  sep <> [] ->
  contains sep (a ++ firstn (Nat.pred (length sep)) rest) = false ->
  split_go sep (a ++ rest) 0 cur = split_go sep rest 0 (rev a ++ cur).
Proof.
  intros Hsep. revert cur.
  induction a as [|c a IH]; intros cur H; [reflexivity|].
  simpl in H. apply orb_false_iff in H as [H1 H2].
  change (split_go sep ((c :: a) ++ rest) 0 cur)
    with (if starts_with sep ((c :: a) ++ rest)
          then rev cur :: split_go sep (a ++ rest) (Nat.pred (length sep)) []
          else split_go sep (a ++ rest) 0 (c :: cur)).
  replace (starts_with sep ((c :: a) ++ rest)) with false.
  - rewrite IH by exact H2. simpl. now rewrite <- app_assoc.
  - rewrite <- H1.
    apply (starts_with_firstn sep (c :: a) rest). simpl.
    destruct sep; [congruence|simpl; lia].
Qed.

Lemma split_go_last sep a cur :
  sep <> [] -> contains sep a = false ->
  split_go sep a 0 cur = [rev cur ++ a].
Proof.
  intros Hsep Ha.
  pose proof (split_go_nomatch sep a [] cur Hsep) as H.
  rewrite firstn_nil, !app_nil_r in H. rewrite H by exact Ha.
  simpl. now rewrite rev_app_distr, rev_involutive.
Qed.

Lemma contains_single c s : contains [c] s = true <-> In c s.
Proof.
  induction s as [|b s IH]; simpl; [intuition discriminate|].
  rewrite orb_true_iff, andb_true_r, N.eqb_eq, IH. intuition.
Qed.

Lemma contains_single_false c s : ~ In c s -> contains [c] s = false.
Proof.
  intros H. destruct (contains [c] s) eqn:E; [|reflexivity].
  now apply contains_single in E.
Qed.

(** The pieces of a split on one code unit do not hold it. *)
Lemma split_go_single_free c s cur :
  ~ In c cur -> Forall (fun p => ~ In c p) (split_go [c] s 0 cur).
Proof.
  revert cur. induction s as [|b s IH]; intros cur Hcur; simpl.
  - constructor; [|constructor]. now rewrite <- in_rev.
  - rewrite andb_true_r. destruct (c =? b) eqn:E.
    + constructor; [now rewrite <- in_rev|]. apply IH. intros [].
    + apply IH. intros [->|H]; [now rewrite N.eqb_refl in E|tauto].
Qed.

Lemma split_single_free c s : Forall (fun p => ~ In c p) (split [c] s).
Proof. apply split_go_single_free. intros []. Qed.

(** Joining lines and splitting again gives the lines back. *)
Lemma split_join_single c ls :
  ls <> [] -> Forall (fun p => ~ In c p) ls -> split [c] (join [c] ls) = ls.
Proof.
  intros Hne Hfree. unfold split.
  induction ls as [|x ls IH]; [congruence|].
  inversion Hfree as [|? ? Hx Hls]; subst.
  destruct ls as [|y ls].
  - simpl. rewrite <- (app_nil_r x) at 1.
    rewrite split_go_nomatch; [|congruence|].
    + simpl. now rewrite app_nil_r, rev_involutive.
    + simpl. rewrite app_nil_r. now apply contains_single_false.
  - change (join [c] (x :: y :: ls)) with (x ++ [c] ++ join [c] (y :: ls)).
    rewrite split_go_nomatch; [|congruence|].
    + rewrite split_go_match by congruence.
      rewrite app_nil_r, rev_involutive. f_equal.
      apply IH; [congruence|exact Hls].
    + simpl. rewrite app_nil_r. now apply contains_single_false.
Qed.

(** A pattern without line feed does not reach across one. *)
Lemma starts_with_across_newline p x y :
  ~ In LF p -> p <> [] -> starts_with p (x ++ LF :: y) = starts_with p x.
Proof.
  revert x. induction p as [|a p IH]; intros x Hp Hne; [congruence|].
  destruct x as [|b x]; simpl.
  - destruct (a =? LF) eqn:E; [|reflexivity].
    apply N.eqb_eq in E. subst. exfalso. apply Hp. now left.
  - destruct (a =? b); [|reflexivity]. simpl.
    destruct p as [|a' p]; [reflexivity|].
    apply IH; [|congruence]. intros H. apply Hp. now right.
Qed.

Lemma contains_across_newline p x y :
  ~ In LF p -> p <> [] ->
  contains p (x ++ LF :: y) = contains p x || contains p y.
Proof.
  intros Hp Hne. induction x as [|b x IH].
  - pose proof (starts_with_across_newline p [] y Hp Hne) as E.
    simpl in *. rewrite E.
    destruct p; [congruence|]. reflexivity.
  - change (contains p ((b :: x) ++ LF :: y))
      with (starts_with p ((b :: x) ++ LF :: y) || contains p (x ++ LF :: y)).
    rewrite starts_with_across_newline by assumption.
    rewrite IH. simpl. now rewrite orb_assoc.
Qed.

Lemma contains_newline_cons p y :
  ~ In LF p -> p <> [] -> contains p (LF :: y) = contains p y.
Proof.
  intros Hp Hne. change (LF :: y) with ([] ++ LF :: y).
  rewrite contains_across_newline by assumption.
  destruct p; [congruence|reflexivity].
Qed.

End Split.

Lemma split_go_nonempty sep s k cur : split_go sep s k cur <> [].
Proof.
  revert k cur. induction s as [|c s IH]; intros k cur; simpl; [discriminate|].
  destruct k; [|apply IH].
  destruct (starts_with sep (c :: s)); [discriminate|apply IH].
Qed.

Lemma join_cons sep x l : l <> [] -> join sep (x :: l) = x ++ sep ++ join sep l.
Proof. destruct l; [congruence|reflexivity]. Qed.

Lemma starts_with_inv p s :
  starts_with p s = true -> s = p ++ skipn (length p) s.
Proof.
  revert s. induction p as [|a p IH]; intros s H; [reflexivity|].
  destruct s as [|b s]; [discriminate|]. simpl in H.
  apply andb_true_iff in H as [Hab H]. apply N.eqb_eq in Hab. subst.
  simpl. f_equal. now apply IH.
Qed.

(* ================================================================= *)
(** ** Texts read back from a file *)

Section WellFormed.

Ltac bools :=
  repeat match goal with
    | H : (_ || _) = true |- _ => apply orb_true_iff in H as [H|H]
    | H : (_ || _) = false |- _ => apply orb_false_iff in H as [? H]
    | H : (_ && _) = true |- _ => apply andb_true_iff in H as [? H]
    | H : (_ && _) = false |- _ => apply andb_false_iff in H as [H|H]
    | H : (_ <=? _) = true |- _ => apply N.leb_le in H
    | H : (_ <=? _) = false |- _ => apply N.leb_gt in H
    | H : (_ =? _) = true |- _ => apply N.eqb_eq in H
    | H : (_ =? _) = false |- _ => apply N.eqb_neq in H
    end.

Lemma ws_not_surrogate c : is_ws c = true -> surrogate c = false.
Proof.
  intros H. destruct (surrogate c) eqn:E; [|reflexivity]. exfalso.
  unfold is_ws in H. unfold surrogate, high_surrogate, low_surrogate in E.
  bools; lia.
Qed.

Lemma plain_not_high c : surrogate c = false -> high_surrogate c = false.
Proof. unfold surrogate. intros H. now apply orb_false_iff in H as [H _]. Qed.

Lemma plain_not_low c : surrogate c = false -> low_surrogate c = false.
Proof. unfold surrogate. intros H. now apply orb_false_iff in H as [_ H]. Qed.

Lemma high_not_low c : high_surrogate c = true -> low_surrogate c = false.
Proof.
  intros H. destruct (low_surrogate c) eqn:E; [|reflexivity]. exfalso.
  unfold high_surrogate in H. unfold low_surrogate in E. bools; lia.
Qed.

Lemma replacement_plain : surrogate 65533 = false.
Proof. reflexivity. Qed.

Lemma list_ind_pair {A} (P : list A -> Prop) :
  P [] -> (forall c, P [c]) ->
  (forall c d r, P r -> P (d :: r) -> P (c :: d :: r)) ->
  forall l, P l.
Proof.
  intros H0 H1 H2.
  assert (H : forall l, P l /\ forall c, P (c :: l)).
  { induction l as [|d r [IHr IHcr]]; [split; auto|].
    split; [apply IHcr|]. intros c. apply H2; [exact IHr|apply IHcr]. }
  intros l. apply H.
Qed.

Lemma toWellFormed_single c : toWellFormed [c] = [read_back c].
Proof.
  unfold read_back, surrogate. cbn [toWellFormed].
  destruct (high_surrogate c); [reflexivity|].
  destruct (low_surrogate c); reflexivity.
Qed.

Lemma toWellFormed_cons2 c d r :
  toWellFormed (c :: d :: r)
  = if high_surrogate c && low_surrogate d then c :: d :: toWellFormed r
    else read_back c :: toWellFormed (d :: r).
Proof.
  unfold read_back, surrogate.
  change (toWellFormed (c :: d :: r))
    with (if high_surrogate c then
            if low_surrogate d then c :: d :: toWellFormed r
            else 65533 :: toWellFormed (d :: r)
          else if low_surrogate c then 65533 :: toWellFormed (d :: r)
               else c :: toWellFormed (d :: r)).
  destruct (high_surrogate c); cbn [andb orb]; [reflexivity|].
  destruct (low_surrogate c); reflexivity.
Qed.

Lemma toWellFormed_plain c s :
  surrogate c = false -> toWellFormed (c :: s) = c :: toWellFormed s.
Proof.
  intros H. cbn [toWellFormed].
  now rewrite (plain_not_high c H), (plain_not_low c H).
Qed.

Lemma read_back_plain c : surrogate (read_back c) = false.
Proof. unfold read_back. destruct (surrogate c) eqn:E; [reflexivity|exact E]. Qed.

Lemma toWellFormed_length s : length (toWellFormed s) = length s.
Proof.
  induction s as [|c|c d r IH1 IH2] using list_ind_pair; [reflexivity| |].
  - now rewrite toWellFormed_single.
  - rewrite toWellFormed_cons2.
    destruct (high_surrogate c && low_surrogate d); cbn [length];
      [now rewrite IH1|now rewrite IH2].
Qed.

Lemma toWellFormed_nil_inv s : toWellFormed s = [] -> s = [].
Proof.
  intros H. apply (f_equal (@length N)) in H.
  rewrite toWellFormed_length in H. now destruct s.
Qed.

Lemma toWellFormed_idem s : well_formed (toWellFormed s).
Proof.
  unfold well_formed.
  induction s as [|c|c d r IH1 IH2] using list_ind_pair; [reflexivity| |].
  - rewrite toWellFormed_single, toWellFormed_plain by apply read_back_plain.
    reflexivity.
  - rewrite toWellFormed_cons2.
    destruct (high_surrogate c && low_surrogate d) eqn:E.
    + rewrite toWellFormed_cons2, E. now rewrite IH1.
    + rewrite toWellFormed_plain by apply read_back_plain. now rewrite IH2.
Qed.

Lemma toWellFormed_app_plain a c b :
  surrogate c = false ->
  toWellFormed (a ++ c :: b) = toWellFormed a ++ c :: toWellFormed b.
Proof.
  intros Hc.
  induction a as [|x|x d r IH1 IH2] using list_ind_pair.
  - now apply toWellFormed_plain.
  - change ([x] ++ c :: b) with (x :: c :: b).
    rewrite toWellFormed_cons2, (plain_not_low c Hc), andb_false_r.
    rewrite toWellFormed_single, toWellFormed_plain by exact Hc. reflexivity.
  - change ((x :: d :: r) ++ c :: b) with (x :: d :: (r ++ c :: b)).
    rewrite !toWellFormed_cons2.
    destruct (high_surrogate x && low_surrogate d).
    + now rewrite IH1.
    + change (d :: r ++ c :: b) with ((d :: r) ++ c :: b). now rewrite IH2.
Qed.

Lemma toWellFormed_plain_prefix p b :
  Forall (fun c => surrogate c = false) p ->
  toWellFormed (p ++ b) = p ++ toWellFormed b.
Proof.
  induction 1 as [|c p Hc _ IH]; [reflexivity|].
  cbn [app]. rewrite toWellFormed_plain by exact Hc. now rewrite IH.
Qed.

Lemma toWellFormed_app_sep a sep b :
  sep <> [] -> Forall (fun c => surrogate c = false) sep ->
  toWellFormed (a ++ sep ++ b) = toWellFormed a ++ sep ++ toWellFormed b.
Proof.
  intros Hne Hsep. destruct sep as [|c sep]; [congruence|].
  inversion Hsep as [|? ? Hc Hsep']; subst.
  cbn [app]. rewrite toWellFormed_app_plain by exact Hc.
  now rewrite toWellFormed_plain_prefix.
Qed.

Lemma well_formed_app_sep a sep b :
  sep <> [] -> Forall (fun c => surrogate c = false) sep ->
  well_formed (a ++ sep ++ b) <-> well_formed a /\ well_formed b.
Proof.
  intros Hne Hsep. unfold well_formed.
  rewrite toWellFormed_app_sep by assumption. split.
  - intros H. apply app_inj_1 in H as [Ha H]; [|apply toWellFormed_length].
    apply app_inv_head in H. now split.
  - intros [-> ->]. reflexivity.
Qed.

Lemma well_formed_nil : well_formed [].
Proof. reflexivity. Qed.

Lemma well_formed_plain p :
  Forall (fun c => surrogate c = false) p -> well_formed p.
Proof.
  intros H. unfold well_formed.
  rewrite <- (app_nil_r p) at 1. rewrite toWellFormed_plain_prefix by exact H.
  now rewrite app_nil_r.
Qed.

Lemma well_formed_after_plain p b :
  Forall (fun c => surrogate c = false) p ->
  well_formed (p ++ b) <-> well_formed b.
Proof.
  intros H. unfold well_formed. rewrite toWellFormed_plain_prefix by exact H.
  split; [apply app_inv_head|now intros ->].
Qed.

Lemma well_formed_before_plain a p :
  Forall (fun c => surrogate c = false) p ->
  well_formed (a ++ p) -> well_formed a.
Proof.
  intros Hp H. destruct p as [|c p]; [now rewrite app_nil_r in H|].
  rewrite <- (app_nil_r (c :: p)) in H.
  apply well_formed_app_sep in H as [H _]; [exact H|discriminate|exact Hp].
Qed.

(** Joining the pieces of a split gives the text back. *)
Lemma join_split_go sep :
  sep <> [] ->
  forall n s, (length s <= n)%nat ->
    forall cur, join sep (split_go sep s 0 cur) = rev cur ++ s.
Proof.
  intros Hsep. induction n as [|n IH]; intros s Hn cur.
  - destruct s; [|simpl in Hn; lia]. simpl. now rewrite app_nil_r.
  - destruct s as [|c r]; [simpl; now rewrite app_nil_r|].
    destruct (starts_with sep (c :: r)) eqn:E.
    + pose proof (starts_with_inv _ _ E) as Hs.
      assert (Hlen : (length (skipn (length sep) (c :: r)) <= n)%nat).
      { apply (f_equal (@length N)) in Hs. rewrite length_app in Hs.
        destruct sep; [congruence|]. simpl in Hs, Hn. simpl. lia. }
      rewrite Hs at 1. rewrite split_go_match by exact Hsep.
      rewrite join_cons by apply split_go_nonempty.
      rewrite (IH _ Hlen []). cbn [rev app]. now rewrite <- Hs.
    + cbn [split_go]. rewrite E. rewrite IH by (simpl in Hn; lia).
      cbn [rev]. now rewrite <- app_assoc.
Qed.

Lemma join_split sep s : sep <> [] -> join sep (split sep s) = s.
Proof.
  intros Hsep. unfold split.
  now rewrite (join_split_go sep Hsep (length s) s (Nat.le_refl _) []).
Qed.

Section Separator.

Variable sep : jsstring.
Hypothesis sep_nonempty : sep <> [].
Hypothesis sep_plain : Forall (fun c => surrogate c = false) sep.

Lemma well_formed_join l : Forall well_formed l -> well_formed (join sep l).
Proof.
  induction 1 as [|x l Hx Hl IH]; [reflexivity|].
  destruct l as [|y l]; [exact Hx|].
  rewrite join_cons by discriminate.
  apply well_formed_app_sep; [assumption..|]. now split.
Qed.

Lemma well_formed_join_inv l :
  l <> [] -> well_formed (join sep l) -> Forall well_formed l.
Proof.
  induction l as [|x l IH]; [congruence|]. intros _ H.
  destruct l as [|y l]; [now constructor|].
  rewrite join_cons in H by discriminate.
  apply well_formed_app_sep in H as [Hx H]; [|assumption..].
  constructor; [exact Hx|]. now apply IH.
Qed.

(** The pieces of a well-formed text are well formed. *)
Lemma well_formed_split s : well_formed s -> Forall well_formed (split sep s).
Proof.
  intros H. apply well_formed_join_inv; [apply split_go_nonempty|].
  now rewrite join_split.
Qed.

End Separator.

Lemma trimStart_split s :
  exists a, s = a ++ trimStart s /\ Forall (fun c => surrogate c = false) a.
Proof.
  induction s as [|c s (a & IH & Ha)]; [now exists []|]. simpl.
  destruct (is_ws c) eqn:E; [|now exists []].
  exists (c :: a). split; [simpl; now rewrite <- IH|].
  constructor; [now apply ws_not_surrogate|exact Ha].
Qed.

Lemma well_formed_trimStart s : well_formed s -> well_formed (trimStart s).
Proof.
  intros H. destruct (trimStart_split s) as (a & Hs & Ha).
  rewrite Hs in H. now apply well_formed_after_plain in H.
Qed.

Lemma well_formed_trimEnd s : well_formed s -> well_formed (trimEnd s).
Proof.
  intros H. unfold trimEnd.
  destruct (trimStart_split (rev s)) as (a & Hs & Ha).
  apply (f_equal (@rev N)) in Hs. rewrite rev_involutive, rev_app_distr in Hs.
  rewrite Hs in H. apply well_formed_before_plain in H; [exact H|].
  apply Forall_rev. exact Ha.
Qed.

Lemma well_formed_trim s : well_formed s -> well_formed (trim s).
Proof. intros H. now apply well_formed_trimEnd, well_formed_trimStart. Qed.

Lemma sep_before_read c : sep_before (toWellFormed c) = sep_before c.
Proof.
  unfold sep_before. destruct c as [|x c]; [reflexivity|].
  destruct (toWellFormed (x :: c)) eqn:E; [|reflexivity].
  now apply toWellFormed_nil_inv in E.
Qed.

Lemma LF_plain : Forall (fun c => surrogate c = false) [LF].
Proof. repeat constructor. Qed.

Lemma DELIM_plain : Forall (fun c => surrogate c = false) DELIM.
Proof. repeat constructor. Qed.

End WellFormed.

Section Filters.
  Context {A : Type}.

Lemma filter_r_total (p : A -> result bool) (q : A -> bool) l :
  (forall x, p x = Ok (q x)) -> filter_r p l = Ok (List.filter q l).
Proof.
  intros H. induction l as [|x l IH]; simpl; [reflexivity|].
  rewrite H, IH. simpl. reflexivity.
Qed.

Lemma filter_conj (f g : A -> bool) l :
  List.filter (fun x => f x && g x) l = List.filter g (List.filter f l).
Proof.
  induction l as [|x l IH]; simpl; [reflexivity|].
  destruct (f x); simpl; [|exact IH].
  destruct (g x); now rewrite IH.
Qed.

Lemma filter_all (f : A -> bool) l :
  Forall (fun x => f x = true) l -> List.filter f l = l.
Proof.
  induction 1 as [|x l Hx _ IH]; simpl; [reflexivity|].
  now rewrite Hx, IH.
Qed.

Lemma Forall_filter_keep (P : A -> Prop) (f : A -> bool) l :
  Forall P l -> Forall P (List.filter f l).
Proof.
  induction 1 as [|x l Hx _ IH]; simpl; [constructor|].
  destruct (f x); [constructor|]; assumption.
Qed.

Lemma Forall_filter_true (f : A -> bool) l :
  Forall (fun x => f x = true) (List.filter f l).
Proof.
  induction l as [|x l IH]; simpl; [constructor|].
  destruct (f x) eqn:E; [constructor|]; assumption.
Qed.

End Filters.

(* ================================================================= *)
(** ** The template store *)

(** Splitting the rewritten file gives the kept lines back. *)
Lemma list_of_rewritten_lines (kept : list jsstring) :
  Forall (fun p => ~ In LF p) kept ->
  Forall (fun p => nonblank p = true) kept ->
  List.filter nonblank (split [LF] (join [LF] kept)) = kept.
Proof.
  intros Hfree Hnb. destruct kept as [|x kept]; [reflexivity|].
  rewrite split_join_single by (congruence || assumption).
  now apply filter_all.
Qed.

(** C8 (as stated) fails for an entry that differs from the input by white
    space: after adding the two lines [a ] and [b] in one request, deleting
    [a], which was never added and is no entry, removes the entry [a ]. *)
Lemma subjects_delete_matches_after_trim :
  let st := fst (subjects_add GmailApi empty_store
                   (JStr (js "a " ++ [LF] ++ js "b"))) in
  subjects_list st = [js "a "; js "b"]
  /\ snd (subjects_delete st (JStr (js "a")))
     = Json 200 true (js "Subject deleted successfully")
  /\ subjects_list (fst (subjects_delete st (JStr (js "a")))) = [js "b"].
Proof. vm_compute. repeat split. Qed.

(** C8 (as amended). POST /templates/subjects/delete with a string always
    answers 200 with success; the list afterwards is the list before without
    the entries whose trimmed text is the trimmed input, the others in their
    order; the file holds just these, one per line; the trimmed input is no
    longer listed; and when no entry matches after trimming, the list is
    what it was. *)
Theorem subjects_delete_removes_matching (st : TStore) (s : jsstring) :
  let out := subjects_delete st (JStr s) in
  snd out = Json 200 true (js "Subject deleted successfully")
  /\ subjects_list (fst out)
     = List.filter (kept_after_delete s) (subjects_list st)
  /\ (forall content, subjects_txt st = Some content ->
      subjects_txt (fst out)
      = Some (join [LF] (List.filter (kept_after_delete s) (subjects_list st))))
  /\ ~ In (trim s) (subjects_list (fst out))
  /\ (Forall (fun e => trim e <> trim s) (subjects_list st) ->
      subjects_list (fst out) = subjects_list st).
Proof.
  set (keep := kept_after_delete s).
  assert (Hout :
    snd (subjects_delete st (JStr s)) = Json 200 true (js "Subject deleted successfully")
    /\ subjects_list (fst (subjects_delete st (JStr s)))
       = List.filter keep (subjects_list st)
    /\ (forall content, subjects_txt st = Some content ->
        subjects_txt (fst (subjects_delete st (JStr s)))
        = Some (join [LF] (List.filter keep (subjects_list st))))).
  { unfold subjects_delete, subjects_list.
    destruct (subjects_txt st) as [content|] eqn:Hfile.
    - rewrite (filter_r_total _ (fun l => nonblank l && keep l)).
      + rewrite filter_conj. simpl.
        split; [reflexivity|]. split; [|intros c _; reflexivity].
        assert (Hwf : well_formed
                        (join [LF]
                           (List.filter keep
                              (List.filter nonblank
                                 (split [LF] (toWellFormed content)))))).
        { apply well_formed_join; [discriminate|apply LF_plain|].
          do 2 apply Forall_filter_keep.
          apply well_formed_split;
            [discriminate|apply LF_plain|apply toWellFormed_idem]. }
        unfold well_formed in Hwf. rewrite Hwf.
        apply list_of_rewritten_lines.
        * do 2 apply Forall_filter_keep. apply split_single_free.
        * apply Forall_filter_keep, Forall_filter_true.
      + intros l. destruct (nonblank l); reflexivity.
    - simpl. rewrite Hfile.
      split; [reflexivity|]. split; [reflexivity|]. intros c Hc. discriminate. }
  destruct Hout as (H1 & H2 & H3). cbv zeta.
  repeat split; try assumption.
  - rewrite H2. intros Hin. apply filter_In in Hin as [_ Hk].
    unfold keep, kept_after_delete, str_eqb in Hk. rewrite trim_idem in Hk.
    rewrite bool_decide_eq_true_2 in Hk by reflexivity. discriminate.
  - intros Hnone. rewrite H2. apply filter_all.
    eapply List.Forall_impl; [|exact Hnone]. intros e He.
    unfold keep, kept_after_delete, str_eqb.
    now rewrite bool_decide_eq_false_2.
Qed.

Section MessageEncoding.

Lemma DELIM_nonempty : DELIM <> [].
Proof. discriminate. Qed.

Lemma DELIM_no_newline : ~ In LF DELIM.
Proof.
  intros H. apply contains_single in H. vm_compute in H. discriminate.
Qed.

Lemma join_snoc sep l x :
  l <> [] -> join sep (l ++ [x]) = join sep l ++ sep ++ x.
Proof.
  induction l as [|a l IH]; [congruence|]. intros _.
  destruct l as [|b l]; [reflexivity|].
  change (join sep ((a :: b :: l) ++ [x]))
    with (a ++ sep ++ join sep ((b :: l) ++ [x])).
  rewrite IH by congruence.
  change (join sep (a :: b :: l)) with (a ++ sep ++ join sep (b :: l)).
  now rewrite <- !app_assoc.
Qed.

Lemma messages_add_string v st m :
  v = GmailApi \/ templates_dir st = true ->
  fst (messages_add v st (JStr m))
  = {| templates_dir := true;
       subjects_txt := subjects_txt st;
       messages_txt :=
         Some (match messages_txt st with
               | Some content => content ++ sep_before content ++ DELIM ++ [LF] ++ trim m
               | None => DELIM ++ [LF] ++ trim m
               end) |}.
Proof.
  intros Hcan. unfold messages_add.
  assert (E : templates_dir (ensure_templates_dir v st) = true
              /\ messages_txt (ensure_templates_dir v st) = messages_txt st
              /\ subjects_txt (ensure_templates_dir v st) = subjects_txt st).
  { destruct v; [|repeat split]. destruct Hcan as [Hv|Hd]; [discriminate|].
    repeat split. exact Hd. }
  destruct E as (E1 & E2 & E3).
  cbn [call_trim bind]. unfold appendFileSync. rewrite E1, E2, E3.
  destruct (messages_txt st) as [content|]; cbn [default bind caught fst];
    [rewrite sep_before_read|]; reflexivity.
Qed.

Lemma sep_before_encoded ms : sep_before (encoded ms) = [LF].
Proof. reflexivity. Qed.

(** What the file holds after a sequence of adds. *)
Lemma add_messages_file v st ms :
  v = GmailApi \/ templates_dir st = true -> no_messages st ->
  (v = GmailApi \/ templates_dir (add_messages v st ms) = true)
  /\ messages_txt (add_messages v st ms)
     = match ms with [] => messages_txt st | _ :: _ => Some (encoded ms) end.
Proof.
  intros Hdir0 Hfresh.
  induction ms as [|m ms IH] using rev_ind; [split; [exact Hdir0|reflexivity]|].
  destruct IH as [Hdir Hfile]. unfold add_messages in *.
  rewrite fold_left_app.
  change (fold_left ?f [m] ?s) with (f s m). cbv beta.
  rewrite messages_add_string by exact Hdir.
  cbn [templates_dir messages_txt]. split; [now right|].
  rewrite Hfile. destruct ms as [|m0 ms];
    [destruct Hfresh as [-> | ->]; reflexivity|].
  change ((m0 :: ms) ++ [m]) with (m0 :: (ms ++ [m])).
  cbv iota. f_equal. rewrite sep_before_encoded. unfold encoded.
  change (m0 :: (ms ++ [m])) with ((m0 :: ms) ++ [m]).
  rewrite map_app.
  change (List.map (fun m1 => LF :: trim m1) [m]) with [LF :: trim m].
  rewrite join_snoc by discriminate.
  rewrite <- !app_assoc. reflexivity.
Qed.

(** Between two delimiters lies one entry, between line feeds. *)
Lemma split_encoded_tail ts :
  ts <> [] ->
  Forall (fun t => contains DELIM t = false) ts ->
  split_go DELIM (join (LF :: DELIM) (List.map (cons LF) ts)) 0 [] = pieces ts.
Proof.
  intros Hne Hts. induction ts as [|t ts IH]; [congruence|].
  inversion Hts as [|? ? Ht Hts']; subst.
  destruct ts as [|t' ts].
  - change (join (LF :: DELIM) (List.map (cons LF) [t])) with (LF :: t).
    rewrite split_go_last; [reflexivity|exact DELIM_nonempty|].
    rewrite (contains_newline_cons DELIM t DELIM_no_newline DELIM_nonempty).
    exact Ht.
  - change (join (LF :: DELIM) (List.map (cons LF) (t :: t' :: ts)))
      with ((LF :: t) ++ (LF :: DELIM)
            ++ join (LF :: DELIM) (List.map (cons LF) (t' :: ts))).
    change ((LF :: t) ++ (LF :: DELIM)
            ++ join (LF :: DELIM) (List.map (cons LF) (t' :: ts)))
      with ((LF :: t) ++ [LF]
            ++ DELIM ++ join (LF :: DELIM) (List.map (cons LF) (t' :: ts))).
    rewrite app_assoc.
    rewrite split_go_nomatch; [|exact DELIM_nonempty|].
    + rewrite split_go_match by exact DELIM_nonempty.
      rewrite app_nil_r, rev_involutive. rewrite IH by (congruence || assumption).
      reflexivity.
    + rewrite <- app_assoc.
      change ((LF :: t) ++ [LF] ++ ?x) with (LF :: (t ++ LF :: x)).
      rewrite (contains_newline_cons DELIM _ DELIM_no_newline DELIM_nonempty).
      rewrite (contains_across_newline DELIM t _ DELIM_no_newline DELIM_nonempty).
      rewrite Ht, firstn_app.
      change (Nat.pred (length DELIM) - length DELIM)%nat with 0%nat.
      rewrite firstn_O, app_nil_r. reflexivity.
Qed.

(** Trimming the non-blank pieces gives the non-empty entries back. *)
Lemma trim_pieces ts :
  Forall trimmed ts ->
  List.map trim (List.filter nonblank (pieces ts))
  = List.filter (fun t => negb (is_empty t)) ts.
Proof.
  induction 1 as [|t ts Ht _ IH]; [reflexivity|].
  destruct (trim_between_newlines t Ht) as [E1 E2].
  set (f := fun t0 : jsstring => negb (is_empty t0)) in *.
  change (List.filter f (t :: ts))
    with (if f t then t :: List.filter f ts else List.filter f ts).
  destruct ts as [|t' ts].
  - change (pieces [t]) with [LF :: t].
    change (List.filter nonblank [LF :: t])
      with (if nonblank (LF :: t) then [LF :: t] else []).
    replace (nonblank (LF :: t)) with (f t) by (unfold nonblank; now rewrite E2).
    destruct (f t); [|reflexivity].
    change (List.map trim [LF :: t]) with [trim (LF :: t)]. now rewrite E2.
  - set (rest := t' :: ts) in *.
    change (pieces (t :: rest)) with ((LF :: t ++ [LF]) :: pieces rest).
    change (List.filter nonblank ((LF :: t ++ [LF]) :: pieces rest))
      with (if nonblank (LF :: t ++ [LF])
            then (LF :: t ++ [LF]) :: List.filter nonblank (pieces rest)
            else List.filter nonblank (pieces rest)).
    replace (nonblank (LF :: t ++ [LF])) with (f t)
      by (unfold nonblank; now rewrite E1).
    destruct (f t); [|exact IH].
    change (List.map trim ((LF :: t ++ [LF]) :: ?x))
      with (trim (LF :: t ++ [LF]) :: List.map trim x).
    now rewrite E1, IH.
Qed.

End MessageEncoding.

Lemma encoded_well_formed ms : Forall well_formed ms -> well_formed (encoded ms).
Proof.
  intros H. unfold encoded. apply (well_formed_after_plain DELIM _ DELIM_plain).
  apply (well_formed_join (LF :: DELIM)); [discriminate| |].
  - constructor; [reflexivity|exact DELIM_plain].
  - apply Forall_map. eapply List.Forall_impl; [|exact H]. intros m Hm.
    apply (well_formed_after_plain [LF] _ LF_plain). now apply well_formed_trim.
Qed.

(** C4 (as amended). The added messages are well-formed text, none holds the
    delimiter token, and no two of them are the same after trimming; the
    store has no stored messages (messages.txt missing or empty) and the
    directory public/templates is in place, or the build is the Gmail one,
    which creates it.  Then listing after the adds gives exactly the
    trimmed, non-empty entries that were added, in the order of the adds. *)
Theorem messages_roundtrip (v : variant) (st : TStore) (ms : list jsstring) :
  v = GmailApi \/ templates_dir st = true -> no_messages st ->
  Forall well_formed ms ->
  Forall (fun m => contains DELIM (trim m) = false) ms ->
  List.NoDup (List.filter (fun t => negb (is_empty t)) (List.map trim ms)) ->
  messages_list (add_messages v st ms)
  = List.filter (fun t => negb (is_empty t)) (List.map trim ms).
Proof.
  intros Hdir Hfresh Hwf Hms _. unfold messages_list.
  destruct (add_messages_file v st ms Hdir Hfresh) as [_ ->].
  destruct ms as [|m ms]; [destruct Hfresh as [-> | ->]; reflexivity|].
  rewrite (encoded_well_formed _ Hwf).
  unfold encoded, split.
  rewrite split_go_match by exact DELIM_nonempty.
  assert (E : List.map (fun m0 => LF :: trim m0) (m :: ms)
              = List.map (cons LF) (List.map trim (m :: ms))).
  { now rewrite map_map. }
  rewrite E, split_encoded_tail.
  - change (List.filter nonblank (rev [] :: ?l)) with (List.filter nonblank l).
    apply trim_pieces. apply Forall_map.
    apply Forall_forall. intros x _. apply trim_trimmed.
  - discriminate.
  - apply Forall_map. exact Hms.
Qed.

Lemma messages_roundtrip_witness :
  messages_list
    (add_messages Nodemailer empty_store
       [js "Hello" ++ [LF] ++ js "World"; js "   "; js " second "])
  = [js "Hello" ++ [LF] ++ js "World"; js "second"].
Proof.
  apply (messages_roundtrip Nodemailer empty_store
           [js "Hello" ++ [LF] ++ js "World"; js "   "; js " second "]).
  - right. reflexivity.
  - left. reflexivity.
  - repeat constructor.
  - repeat constructor.
  - repeat constructor; vm_compute; intuition discriminate.
Defined.

(** C4 (as stated) fails for a message that holds the delimiter token. *)
Lemma delimiter_inside_message_breaks_roundtrip :
  let ms := [js "a---MESSAGE---b"] in
  messages_list (add_messages GmailApi empty_store ms) = [js "a"; js "b"]
  /\ ~ same_entries (messages_list (add_messages GmailApi empty_store ms))
         (List.filter (fun t => negb (is_empty t)) (List.map trim ms)).
Proof.
  cbv zeta. split; [vm_compute; reflexivity|].
  intros H. destruct (H (js "a")) as [H1 _].
  assert (Hin : In (js "a") (messages_list (add_messages GmailApi empty_store
                                              [js "a---MESSAGE---b"]))).
  { vm_compute. now left. }
  apply H1 in Hin. vm_compute in Hin.
  destruct Hin as [Hin|[]]. discriminate.
Qed.

(** The sibling handler: adding a subject that is already listed changes
    nothing in subjects.txt. *)
Lemma subjects_add_existing (v : variant) (st : TStore) (s : jsstring) :
  In (trim s) (subjects_list st) ->
  subjects_add v st (JStr s)
  = (ensure_templates_dir v st, Json 200 true (js "Subject added successfully")).
Proof.
  intros Hin. unfold subjects_add.
  assert (E : subjects_txt (ensure_templates_dir v st) = subjects_txt st)
    by (destruct v; reflexivity).
  rewrite E. unfold subjects_list in Hin.
  destruct (subjects_txt st) as [content|] eqn:Hfile; [|destruct Hin].
  change (default [] (Some content)) with content.
  cbn [call_trim bind].
  assert (Hinc : includes (List.filter nonblank (split [LF] (toWellFormed content)))
                   (trim s) = true).
  { unfold includes. apply existsb_exists. exists (trim s). split; [exact Hin|].
    unfold str_eqb. now apply bool_decide_eq_true_2. }
  rewrite Hinc. reflexivity.
Qed.

(** C3. POST /templates/messages/add has no test for an entry that is
    already stored: the same message added twice is listed twice, and both
    requests are answered with success. *)
Theorem messages_add_twice_lists_twice (v : variant) :
  let hello := js "Hello" ++ [LF] ++ js "World" in
  let st1 := fst (messages_add v empty_store (JStr hello)) in
  let st2 := fst (messages_add v st1 (JStr hello)) in
  messages_list st1 = [hello]
  /\ messages_list st2 = [hello; hello]
  /\ snd (messages_add v st1 (JStr hello))
     = Json 200 true (js "Message added successfully").
Proof. destruct v; vm_compute; repeat split. Qed.

(* ================================================================= *)
(** ** The attachment list *)

Lemma fold_left_push {A B} (f : A -> B) (l : list A) (acc : list B) :
  fold_left (fun acc x => acc ++ [f x]) l acc = acc ++ List.map f l.
Proof.
  revert acc. induction l as [|x l IH]; intros acc; simpl.
  - now rewrite app_nil_r.
  - rewrite IH, <- app_assoc. reflexivity.
Qed.

Lemma push_uploads_map (acc : list Attachment) (uploads : list File) :
  push_uploads acc uploads = acc ++ List.map upload_attachment uploads.
Proof.
  unfold push_uploads. destruct (0 <? length uploads)%nat eqn:E.
  - apply (fold_left_push upload_attachment).
  - destruct uploads; [now rewrite app_nil_r|discriminate].
Qed.

(** *** path.join on a plain name *)

Lemma count_dots_lost n : count_dots (-1) n = (-1)%Z.
Proof.
  unfold count_dots. induction n as [|c n IH]; [reflexivity|].
  cbn [fold_left]. rewrite andb_false_r. exact IH.
Qed.

Lemma count_dots_spec n : forall d,
  (0 <= d)%Z ->
  count_dots d n = (-1)%Z
  \/ (count_dots d n = (d + Z.of_nat (length n))%Z /\ n = repeat DOT (length n)).
Proof.
  induction n as [|c n IH]; intros d Hd.
  - right. split; [unfold count_dots; simpl; lia|reflexivity].
  - unfold count_dots. cbn [fold_left]. fold (count_dots).
    destruct (c =? DOT) eqn:Ec; cbn [andb].
    + apply N.eqb_eq in Ec. subst c.
      replace (d =? -1)%Z with false by (symmetry; apply Z.eqb_neq; lia).
      cbn [negb].
      destruct (IH (d + 1)%Z ltac:(lia)) as [H|[H1 H2]]; [now left|].
      right. unfold count_dots in *. split; [rewrite H1; cbn [length]; lia|].
      cbn [length repeat]. now rewrite <- H2.
    + left. apply count_dots_lost.
Qed.

Lemma count_dots_plain n :
  n <> [DOT] -> n <> [DOT; DOT] ->
  (count_dots 0 n =? 1)%Z = false /\ (count_dots 0 n =? 2)%Z = false.
Proof.
  intros H1 H2.
  destruct (count_dots_spec n 0%Z ltac:(lia)) as [-> | [E Hn]];
    [split; reflexivity|].
  rewrite E. split; apply Z.eqb_neq; intros Hl.
  - apply H1. rewrite Hn. replace (length n) with 1%nat by lia. reflexivity.
  - apply H2. rewrite Hn. replace (length n) with 2%nat by lia. reflexivity.
Qed.

(** Inside a segment the loop only gathers code units and counts dots. *)
Lemma fold_norm_segment n :
  ~ In SLASH n ->
  forall st,
    fold_left norm_step n st
    = {| res := res st;
         lastSegmentLength := lastSegmentLength st;
         segment := segment st ++ n;
         dots := count_dots (dots st) n |}.
Proof.
  induction n as [|c n IH]; intros Hn st.
  - cbn [fold_left]. unfold count_dots. cbn [fold_left].
    rewrite app_nil_r. now destruct st.
  - cbn [fold_left]. rewrite IH by (intros H; apply Hn; now right).
    assert (Ec : (c =? SLASH) = false)
      by (apply N.eqb_neq; intros ->; apply Hn; now left).
    unfold norm_step. rewrite Ec. cbn [res lastSegmentLength segment dots].
    rewrite <- app_assoc. reflexivity.
Qed.

Lemma fold_norm_filesFolder :
  fold_left norm_step (filesFolder ++ [SLASH]) norm_init
  = {| res := filesFolder; lastSegmentLength := 5%nat; segment := []; dots := 0 |}.
Proof. vm_compute. reflexivity. Qed.

Lemma last_of_plain n d : n <> [] -> ~ In SLASH n -> List.last n d <> SLASH.
Proof.
  intros Hne Hn E. apply Hn. rewrite <- E.
  destruct (exists_last Hne) as (l & x & ->). rewrite last_last.
  apply in_or_app. right. now left.
Qed.

Lemma normalizeString_plain (n : jsstring) :
  plain_name n ->
  normalizeString (filesFolder ++ [SLASH] ++ n) = path_join filesFolder n.
Proof.
  intros (Hne & Hslash & H1 & H2). unfold normalizeString.
  rewrite app_assoc, fold_left_app, fold_norm_filesFolder.
  rewrite fold_norm_segment by exact Hslash.
  cbn [res lastSegmentLength segment dots app].
  destruct (count_dots_plain n H1 H2) as [E1 E2].
  unfold norm_separator. cbn [res lastSegmentLength segment dots].
  rewrite E1, E2. destruct n as [|c n]; [congruence|].
  cbn [is_empty orb]. reflexivity.
Qed.

(** For a plain name path.join gives the name after the folder and a
    slash. *)
Lemma posix_join_plain (n : jsstring) :
  plain_name n -> posix_join filesFolder n = path_join filesFolder n.
Proof.
  intros Hn. pose proof Hn as (Hne & Hslash & _).
  unfold posix_join.
  change (is_empty filesFolder) with false. cbv iota.
  replace (is_empty n) with false by (now destruct n).
  unfold normalize.
  replace (is_empty (filesFolder ++ [SLASH] ++ n)) with false by reflexivity.
  rewrite normalizeString_plain by exact Hn.
  assert (Hlast : (List.last (filesFolder ++ [SLASH] ++ n) 0 =? SLASH) = false).
  { apply N.eqb_neq. rewrite app_assoc.
    destruct (exists_last Hne) as (l & x & Hl).
    rewrite Hl at 1. rewrite app_assoc, last_last.
    pose proof (last_of_plain n 0 Hne Hslash) as H.
    rewrite Hl, last_last in H. exact H. }
  cbv zeta. rewrite Hlast. reflexivity.
Qed.

(** *** The list of both builds *)

Lemma push_selected_names (v : variant) (fs : FS) (names : list jsstring)
  (acc : list Attachment) :
  Forall plain_or_empty names ->
  forEach_r
    (match v with
     | Nodemailer => push_selected_one fs
     | GmailApi => push_selected_one_gmail fs
     end)
    (List.map JStr names) acc
  = Ok (acc ++ List.map saved_attachment (List.filter (resolves fs) names)).
Proof.
  intros Hnames. revert acc.
  induction Hnames as [|n names Hn _ IH]; intros acc.
  - simpl. now rewrite app_nil_r.
  - cbn [List.map forEach_r List.filter].
    assert (E : (match v with
                 | Nodemailer => push_selected_one fs
                 | GmailApi => push_selected_one_gmail fs
                 end) acc (JStr n)
                = Ok (if resolves fs n then acc ++ [saved_attachment n] else acc)).
    { unfold resolves, saved_attachment. destruct Hn as [-> | Hn].
      - destruct v; reflexivity.
      - pose proof Hn as (Hne & _).
        destruct v; unfold push_selected_one, push_selected_one_gmail;
          cbn [truthy validateString bind]; cbv zeta;
          rewrite !(posix_join_plain n Hn);
          destruct n; [congruence| |congruence|]; cbn [is_empty negb andb];
          destruct (existsSync fs _); reflexivity. }
    rewrite E. cbn [bind]. rewrite IH.
    destruct (resolves fs n); [|reflexivity].
    cbn [List.map]. now rewrite <- app_assoc.
Qed.

Lemma push_selected_composed (v : variant) (fs : FS) (uploads : list File)
  (sel : jsval) (names : list jsstring) :
  selected_names sel = Some names ->
  Forall plain_or_empty names ->
  push_selected v fs (push_uploads [] uploads) sel
  = Ok (composed_list fs uploads names).
Proof.
  intros Hsel Hnames. unfold push_selected, composed_list.
  rewrite push_uploads_map. simpl app.
  destruct sel as [| |[|]|[|z|z]|s|items|b]; try discriminate;
    injection Hsel as <-; try (simpl; now rewrite app_nil_r).
  - cbn [truthy filesArray]. destruct (is_empty s) eqn:Es; cbn [negb].
    + destruct s; [|discriminate]. unfold resolves. simpl. now rewrite app_nil_r.
    + now apply (push_selected_names v fs [s]).
  - cbn [truthy filesArray]. now apply push_selected_names.
Qed.



Lemma to_string_convertible (v : jsval) :
  convertible v -> exists s, to_string v = Ok s.
Proof.
  unfold convertible. destruct v as [| |[|]|z|s|items|[|]]; intros H;
    try (eexists; reflexivity). congruence.
Qed.

(** Number::toString on a clock value, at the first exponent form, and on
    integers that are not safe. *)
Example number_text_samples :
  number_text 1700000000000 = js "1700000000000"
  /\ number_text (10 ^ 21 - 1) = js "1e+21"
  /\ number_text (2 ^ 53 + 1) = js "9007199254740992"
  /\ number_text (2 ^ 64) = js "18446744073709552000"
  /\ number_text (- 2 ^ 70) = js "-1.1805916207174113e+21".
Proof. vm_compute. repeat split. Qed.

(** The sender line of the nodemailer build. *)
Lemma sender_line (req : SendRequest) :
  sender_convertible req ->
  exists a,
    (if truthy (senderName req) then
       n <- to_string (senderName req) ;;
       f <- to_string (from req) ;;
       Ok (JStr (n ++ js " <" ++ f ++ js ">"))
     else Ok (from req)) = Ok a.
Proof.
  intros H. unfold sender_convertible in H.
  destruct (truthy (senderName req)); [|eauto].
  destruct (H eq_refl) as [Hn Hf].
  destruct (to_string_convertible _ Hn) as [n ->].
  destruct (to_string_convertible _ Hf) as [f ->].
  cbn [bind]. eauto.
Qed.




(* ================================================================= *)
(** ** Promotion *)

(** A staged copy never lies in the store: the two directories differ. *)
Lemma staged_path_not_in_store (t : N) (name name' : jsstring) :
  multer_path t name <> path_join filesFolder name'.
Proof.
  unfold multer_path.
  change (path_join uploadDir ?x)
    with (112 :: 117 :: 98 :: 108 :: 105 :: 99 :: 47 :: 117
          :: (js "ploads" ++ [SLASH] ++ x)).
  change (path_join filesFolder name')
    with (112 :: 117 :: 98 :: 108 :: 105 :: 99 :: 47 :: 102
          :: (js "iles" ++ [SLASH] ++ name')).
  discriminate.
Qed.



(** Across the whole loop no file of the store is ever overwritten or
    removed, whether or not the loop runs to its end. *)
Lemma promote_all_keeps_store (files : list File) :
  Forall (fun f => exists t, path f = multer_path t (originalname f)) files ->
  forall (fs : FS) (name : jsstring) (stored : list N),
    fs !! path_join filesFolder name = Some stored ->
    fst (promote_all fs files) !! path_join filesFolder name = Some stored.
Proof.
  induction 1 as [|f files [t Hf] _ IH]; intros fs name stored Hst; [exact Hst|].
  cbn [promote_all]. unfold promote, existsSync, renameSync, unlinkSync.
  rewrite Hf.
  assert (Hne : multer_path t (originalname f) <> path_join filesFolder name)
    by apply staged_path_not_in_store.
  destruct (fs !! path_join filesFolder (originalname f)) eqn:Hdst; cbn [negb];
    destruct (fs !! multer_path t (originalname f)) eqn:Hsrc; try exact Hst;
    apply IH.
  - rewrite lookup_delete_ne by exact Hne. exact Hst.
  - rewrite lookup_insert_ne by congruence.
    rewrite lookup_delete_ne by exact Hne. exact Hst.
Qed.

(** With every copy staged and no two uploads sharing a copy, the loop runs
    to its end without an exception. *)
Lemma promote_all_succeeds (files : list File) :
  List.NoDup (List.map path files) ->
  forall fs : FS, Forall (staged_in fs) files -> snd (promote_all fs files) = None.
Proof.
  induction files as [|f files IH]; intros Hnd fs Hst; [reflexivity|].
  inversion Hnd as [|? ? Hnotin Hnd']; subst.
  inversion Hst as [|? ? [[t Hf] [bytes Hsrc]] Hrest]; subst.
  cbn [promote_all].
  assert (Hother : forall fs' : FS,
             (forall p, p <> path f ->
                        (forall n, p <> path_join filesFolder n) ->
                        fs' !! p = fs !! p) ->
             Forall (staged_in fs') files).
  { intros fs' Hframe. rewrite List.Forall_forall in *. intros g Hg.
    destruct (Hrest g Hg) as [[tg Hpg] Hsome]. split; [eauto|].
    rewrite Hframe; [exact Hsome| |].
    - intros E. apply Hnotin. rewrite <- E. now apply in_map.
    - intros n. rewrite Hpg. apply staged_path_not_in_store. }
  unfold promote, existsSync, renameSync, unlinkSync. rewrite Hsrc.
  destruct (fs !! path_join filesFolder (originalname f)) eqn:Hdst; cbn [negb].
  - apply IH; [exact Hnd'|]. apply Hother. intros p Hp _.
    now apply lookup_delete_ne.
  - apply IH; [exact Hnd'|]. apply Hother. intros p Hp Hstore.
    rewrite lookup_insert_ne by (intros E; exact (Hstore _ (eq_sym E))).
    now apply lookup_delete_ne.
Qed.

(** Two uploads that share one staged copy (the same name within the same
    millisecond): the first round moves the copy, the second finds nothing
    to unlink. *)
Example promote_same_copy_twice :
  snd (promote_all {[ multer_path 1700000000000 (js "x.txt") := [120] ]}
         [staged_file 1700000000000 (js "x.txt");
          staged_file 1700000000000 (js "x.txt")])
  = Some enoent.
Proof. vm_compute. reflexivity. Qed.

(* ================================================================= *)
(** ** Validation *)

Lemma missing_falsy v : missing_or_empty v -> truthy v = false.
Proof. intros [-> | ->]; reflexivity. Qed.

(** C5 (as stated) fails in the Gmail build: without a login the request is
    answered 401 before its fields are looked at. *)
Lemma unauthenticated_request_gets_401 :
  missing_or_empty (subject {| from := JUndefined; to := JStr (js "a@b.com");
                               subject := JUndefined; message := JStr (js "x");
                               senderName := JUndefined;
                               selectedFiles := JUndefined; files := [] |})
  /\ response
       (Gmail.send_email (fun t => Ok t) (fun _ _ => Ok tt) 0 0
          {| Gmail.tokens := None; Gmail.user := None |} ∅
          {| from := JUndefined; to := JStr (js "a@b.com");
             subject := JUndefined; message := JStr (js "x");
             senderName := JUndefined;
             selectedFiles := JUndefined; files := [] |})
     = Json 401 false (js "Please login with Google first").
Proof. split; [now left|reflexivity]. Qed.

(** C5 (as amended). A request whose recipient, subject or body is missing
    or empty is answered 400 by the nodemailer build, and by the Gmail build
    when the session is logged in (401 when it is not); in every case nothing
    is handed to the transport and no file changes. *)
Theorem missing_field_rejected (req : SendRequest) :
  missing_or_empty (to req) \/ missing_or_empty (subject req)
  \/ missing_or_empty (message req) ->
  (forall sendMail fs,
     Nodemailer.send_email sendMail fs req
     = rejected (Json 400 false (js "All fields are required")) fs)
  /\ (forall refresh send now0 now session fs,
        Gmail.send_email refresh send now0 now session fs req
        = rejected
            (match Gmail.tokens session with
             | Some _ => Json 400 false (js "To, Subject and Message are required")
             | None => Json 401 false (js "Please login with Google first")
             end) fs).
Proof.
  intros H. split.
  - intros sendMail fs. unfold Nodemailer.send_email.
    destruct H as [H|[H|H]]; apply missing_falsy in H; rewrite H;
      cbn [negb]; rewrite ?orb_true_r; cbn [orb]; reflexivity.
  - intros refresh send now0 now session fs.
    unfold Gmail.send_email, Gmail.handler.
    destruct (Gmail.tokens session); [|reflexivity].
    destruct H as [H|[H|H]]; apply missing_falsy in H; rewrite H;
      cbn [negb]; rewrite ?orb_true_r; cbn [orb]; reflexivity.
Qed.

Lemma missing_field_rejected_witness :
  (forall sendMail fs,
     Nodemailer.send_email sendMail fs
       {| from := JStr (js "me@b.com"); to := JStr (js "a@b.com");
          subject := JStr []; message := JStr (js "x");
          senderName := JUndefined; selectedFiles := JUndefined;
          files := [staged_file 1 (js "r.pdf")] |}
     = rejected (Json 400 false (js "All fields are required")) fs)
  /\ (forall refresh send now0 now session fs,
        Gmail.send_email refresh send now0 now session fs
          {| from := JStr (js "me@b.com"); to := JStr (js "a@b.com");
             subject := JStr []; message := JStr (js "x");
             senderName := JUndefined; selectedFiles := JUndefined;
             files := [staged_file 1 (js "r.pdf")] |}
        = rejected
            (match Gmail.tokens session with
             | Some _ => Json 400 false (js "To, Subject and Message are required")
             | None => Json 401 false (js "Please login with Google first")
             end) fs).
Proof.
  apply (missing_field_rejected
           {| from := JStr (js "me@b.com"); to := JStr (js "a@b.com");
              subject := JStr []; message := JStr (js "x");
              senderName := JUndefined; selectedFiles := JUndefined;
              files := [staged_file 1 (js "r.pdf")] |}).
  right. left. right. reflexivity.
Defined.

(** C10. The nodemailer build also asks for [from]: with recipient, subject
    and body in place and [from] missing or empty, the answer is 400 with
    the message of the validation, nothing is handed to the transport and no
    file changes. *)
Theorem from_is_required (req : SendRequest) :
  present (to req) -> present (subject req) -> present (message req) ->
  missing_or_empty (from req) ->
  forall sendMail fs,
    Nodemailer.send_email sendMail fs req
    = rejected (Json 400 false (js "All fields are required")) fs.
Proof.
  intros _ _ _ Hfrom sendMail fs. unfold Nodemailer.send_email.
  rewrite (missing_falsy _ Hfrom). reflexivity.
Qed.

Lemma from_is_required_witness :
  Nodemailer.send_email (fun _ _ => Ok tt) ∅
    {| from := JUndefined; to := JStr (js "a@b.com");
       subject := JStr (js "Hi"); message := JStr (js "x");
       senderName := JUndefined; selectedFiles := JUndefined; files := [] |}
  = rejected (Json 400 false (js "All fields are required")) ∅.
Proof.
  apply (from_is_required
           {| from := JUndefined; to := JStr (js "a@b.com");
              subject := JStr (js "Hi"); message := JStr (js "x");
              senderName := JUndefined; selectedFiles := JUndefined; files := [] |}).
  - exists (js "a@b.com"). split; [reflexivity|discriminate].
  - exists (js "Hi"). split; [reflexivity|discriminate].
  - exists (js "x"). split; [reflexivity|discriminate].
  - left. reflexivity.
Defined.

(** With [from] in place the same request passes the validation: the
    transport is called. *)
Lemma from_present_passes :
  transport_calls
    (Nodemailer.send_email (fun _ _ => Ok tt) ∅
       {| from := JStr (js "me@b.com"); to := JStr (js "a@b.com");
          subject := JStr (js "Hi"); message := JStr (js "x");
          senderName := JUndefined; selectedFiles := JUndefined; files := [] |})
  <> [].
Proof. vm_compute. discriminate. Qed.

(* ================================================================= *)
(** ** POST /files/delete *)

(** C9. A request to /files/delete without [fileName] throws in
    [path.join], before the [try]: the exception leaves the handler and the
    answer is not of the form [{success, message}]. *)
Theorem files_delete_without_name_is_uncaught (fs : FS) :
  files_delete fs JUndefined
  = (fs, Uncaught
           (Exn TypeError
              (js "The " ++ quoted (js "path")
               ++ js " argument must be of type string. Received undefined")))
  /\ ~ structured (snd (files_delete fs JUndefined)).
Proof. split; [reflexivity|]. simpl. tauto. Qed.

(** With a string for [fileName] the answer is structured. *)
Lemma files_delete_string_structured (fs : FS) (name : jsstring) :
  structured (snd (files_delete fs (JStr name))).
Proof.
  unfold files_delete, existsSync, unlinkSync, path_join_val.
  cbn [validateString bind].
  destruct (fs !! posix_join filesFolder name); exact I.
Qed.

(* ================================================================= *)
(** ** Rendering the body *)

Lemma join_split_go_newlines by_ s cur :
  join by_ (split_go [LF] s 0 cur) = rev cur ++ replace_newlines by_ s.
Proof.
  revert cur. induction s as [|c s IH]; intros cur.
  - simpl. now rewrite app_nil_r.
  - cbn [split_go starts_with length Nat.pred].
    unfold replace_newlines. cbn [flat_map]. fold (replace_newlines by_ s).
    rewrite andb_true_r, (N.eqb_sym LF c).
    destruct (c =? LF).
    + rewrite join_cons by apply split_go_nonempty.
      rewrite IH. reflexivity.
    + rewrite IH. simpl. now rewrite <- app_assoc.
Qed.

(** Replacing every line feed is splitting at the line feeds and joining the
    lines with the replacement: no other code unit changes. *)
Lemma replace_newlines_join_split by_ s :
  replace_newlines by_ s = join by_ (split [LF] s).
Proof. unfold split. now rewrite join_split_go_newlines. Qed.

(** C7 (as stated) fails: the HTML body is not the body with its line feeds
    replaced, it is that text inside a paragraph element. *)
Lemma html_body_is_wrapped :
  render_html (JStr (js "line1" ++ [LF] ++ js "line2"))
  = Ok (js "<p>line1<br>line2</p>")
  /\ js "<p>line1<br>line2</p>"
     <> replace_newlines (js "<br>") (js "line1" ++ [LF] ++ js "line2").
Proof. split; [reflexivity|]. vm_compute. discriminate. Qed.

Lemma forEach_push_attachments (fs : FS) (boundary : jsstring)
  (atts : list Attachment) (emailContent : list jsstring) :
  Forall (fun a => is_Some (fs !! filepath a)) atts ->
  forEach_r (Gmail.push_attachment fs boundary) atts emailContent
  = Ok (emailContent
          ++ concat (List.map (part_lines boundary) (List.map (part_of fs) atts))).
Proof.
  intros H. revert emailContent.
  induction H as [|a atts [bytes Ha] _ IH]; intros emailContent.
  - simpl. now rewrite app_nil_r.
  - cbn [forEach_r List.map concat].
    unfold Gmail.push_attachment at 1. unfold readFileSync. rewrite Ha.
    cbn [bind]. rewrite IH.
    assert (Hp : part_data (part_of fs a) = base64 bytes).
    { unfold part_of. cbn [part_data]. now rewrite Ha. }
    unfold part_lines at 2, quoted. rewrite Hp.
    cbn [part_of part_type part_name].
    rewrite <- !app_assoc. reflexivity.
Qed.

Lemma forEach_names_ok (v : variant) (fs : FS) (names : list jsstring) :
  forall acc,
    exists atts,
      forEach_r
        (match v with
         | Nodemailer => push_selected_one fs
         | GmailApi => push_selected_one_gmail fs
         end)
        (List.map JStr names) acc
      = Ok atts.
Proof.
  induction names as [|n names IH]; intros acc; [simpl; eauto|].
  cbn [List.map forEach_r].
  assert (E : exists acc',
             (match v with
              | Nodemailer => push_selected_one fs
              | GmailApi => push_selected_one_gmail fs
              end) acc (JStr n) = Ok acc').
  { destruct v; unfold push_selected_one, push_selected_one_gmail;
      cbn [truthy validateString bind]; cbv zeta;
      destruct (is_empty n); cbn [negb andb]; eauto;
      destruct (existsSync fs _); eauto. }
  destruct E as [acc' ->]. cbn [bind]. apply IH.
Qed.

(** A well-formed selection never makes the composition of the list throw. *)
Lemma push_selected_ok (v : variant) (fs : FS) (acc : list Attachment)
  (sel : jsval) (names : list jsstring) :
  selected_names sel = Some names ->
  exists atts, push_selected v fs acc sel = Ok atts.
Proof.
  intros Hsel. unfold push_selected.
  destruct sel as [| |[|]|[|z|z]|s|items|b]; try discriminate;
    cbn [truthy Z.eqb negb]; eauto.
  - destruct (is_empty s); cbn [negb]; [eauto|].
    apply (forEach_names_ok v fs [s]).
  - apply forEach_names_ok.
Qed.

(** C7 (as amended). For a body that is a string and a well-formed
    selection: the nodemailer build, when the sender line can be written,
    composes a message whose [text] is the body as it came and whose [html]
    is the body with every line feed replaced by the break element, inside
    one paragraph element; the Gmail build pushes the same HTML line, alone
    or as the first part of the multipart message, and no plain-text part.
    The replacement changes nothing but the line feeds. *)
Theorem rendered_bodies (fs : FS) (req : SendRequest) (body : jsstring)
  (names : list jsstring) :
  message req = JStr body ->
  selected_names (selectedFiles req) = Some names ->
  (sender_convertible req ->
   exists mailOptions,
     Nodemailer.compose fs req = Ok mailOptions
     /\ Nodemailer.text mailOptions = JStr body
     /\ Nodemailer.html mailOptions
        = js "<p>" ++ replace_newlines (js "<br>") body ++ js "</p>")
  /\ (forall boundary emailContent atts,
        Forall (fun a => is_Some (fs !! filepath a)) atts ->
        Gmail.push_body fs boundary emailContent atts req
        = Ok (emailContent
                ++ body_lines boundary
                     (js "<p>" ++ replace_newlines (js "<br>") body ++ js "</p>")
                     (List.map (part_of fs) atts)))
  /\ replace_newlines (js "<br>") body = join (js "<br>") (split [LF] body).
Proof.
  intros Hbody Hsel. split; [|split].
  - intros Hsender. destruct (sender_line req Hsender) as [a Ha].
    unfold Nodemailer.compose. rewrite Ha, Hbody.
    cbn [render_html call_replace bind].
    destruct (push_selected_ok Nodemailer fs (push_uploads [] (files req)) _ names Hsel)
      as [atts ->].
    cbn [bind]. eexists. split; [reflexivity|]. split; reflexivity.
  - intros boundary emailContent atts Hatts. unfold Gmail.push_body.
    rewrite Hbody. cbn [render_html call_replace bind].
    destruct atts as [|a atts].
    + cbn [length Nat.ltb Nat.leb List.map body_lines].
      now rewrite <- !app_assoc.
    + cbn [length Nat.ltb Nat.leb].
      rewrite forEach_push_attachments by exact Hatts.
      cbn [bind]. unfold body_lines, quoted.
      cbn [List.map]. rewrite <- !app_assoc. reflexivity.
  - apply replace_newlines_join_split.
Qed.

Lemma rendered_bodies_witness :
  exists mailOptions,
    Nodemailer.compose ∅
      {| from := JStr (js "me@b.com"); to := JStr (js "a@b.com");
         subject := JStr (js "Hi");
         message := JStr (js "line1" ++ [LF] ++ js "line2");
         senderName := JUndefined; selectedFiles := JUndefined; files := [] |}
    = Ok mailOptions
    /\ Nodemailer.text mailOptions = JStr (js "line1" ++ [LF] ++ js "line2")
    /\ Nodemailer.html mailOptions
       = js "<p>" ++ replace_newlines (js "<br>") (js "line1" ++ [LF] ++ js "line2")
         ++ js "</p>".
Proof.
  refine (proj1 (rendered_bodies ∅
                   {| from := JStr (js "me@b.com"); to := JStr (js "a@b.com");
                      subject := JStr (js "Hi");
                      message := JStr (js "line1" ++ [LF] ++ js "line2");
                      senderName := JUndefined; selectedFiles := JUndefined;
                      files := [] |}
                   (js "line1" ++ [LF] ++ js "line2") [] eq_refl eq_refl) _).
  intros H. discriminate H.
Defined.

(* ================================================================= *)
(** ** The raw message of the Gmail build *)

Section Base64.

Lemma list_ind3 {A} (P : list A -> Prop) :
  P [] -> (forall a, P [a]) -> (forall a b, P [a; b]) ->
  (forall a b c r, P r -> P (a :: b :: c :: r)) ->
  forall l, P l.
Proof.
  intros H0 H1 H2 H3 l.
  assert (H : P l /\ (forall a, P (a :: l)) /\ (forall a b, P (a :: b :: l))).
  { induction l as [|x l (IH0 & IH1 & IH2)]; [now repeat split|].
    repeat split; auto. }
  apply H.
Qed.

Lemma base64_split bytes :
  base64 bytes = base64_digits bytes ++ base64_padding bytes.
Proof.
  induction bytes as [|a|a b|a b c r IH] using list_ind3; try reflexivity.
  cbn [base64 base64_digits base64_padding]. now rewrite IH.
Qed.

Lemma base64_padding_all_equals bytes :
  exists k, (k <= 2)%nat /\ base64_padding bytes = repeat EQUALS k.
Proof.
  induction bytes as [|a|a b|a b c r IH] using list_ind3.
  - exists 0%nat. split; [lia|reflexivity].
  - exists 2%nat. split; [lia|reflexivity].
  - exists 1%nat. split; [lia|reflexivity].
  - exact IH.
Qed.

Lemma b64_char_url_safe i :
  url_safe (url_digit (b64_char i)) = true /\ url_digit (b64_char i) <> EQUALS.
Proof.
  unfold b64_char.
  assert (Hlt : (N.to_nat (i mod 64) < 64)%nat).
  { pose proof (N.mod_upper_bound i 64). lia. }
  revert Hlt. generalize (N.to_nat (i mod 64)). intros k Hk.
  assert (Hall : forallb
                   (fun k => url_safe (url_digit (nth k b64_alphabet 65))
                             && negb (url_digit (nth k b64_alphabet 65) =? EQUALS))
                   (seq 0 64) = true) by (vm_compute; reflexivity).
  rewrite forallb_forall in Hall.
  specialize (Hall k). rewrite in_seq in Hall.
  apply andb_true_iff in Hall as [H1 H2]; [|lia].
  split; [exact H1|]. apply negb_true_iff, N.eqb_neq in H2. exact H2.
Qed.

Lemma base64_digits_url_safe bytes :
  Forall (fun c => url_safe c = true /\ c <> EQUALS)
    (List.map url_digit (base64_digits bytes)).
Proof.
  induction bytes as [|a|a b|a b c r IH] using list_ind3;
    cbn [base64_digits List.map];
    repeat (constructor; [apply b64_char_url_safe|]); try constructor.
  exact IH.
Qed.

Lemma replace_twice_is_url_digit s :
  replace_char SLASH UNDERSCORE (replace_char PLUS MINUS s) = List.map url_digit s.
Proof.
  unfold replace_char. rewrite map_map. apply map_ext. intros c.
  unfold url_digit. destruct (c =? PLUS) eqn:E; [|reflexivity].
  apply N.eqb_eq in E. subst. reflexivity.
Qed.

Lemma drop_while_eq_repeat x k l :
  drop_while_eq x (repeat x k ++ l) = drop_while_eq x l.
Proof. induction k as [|k IH]; simpl; [reflexivity|]. now rewrite N.eqb_refl. Qed.

Lemma strip_trailing_padding x k core :
  Forall (fun c => c <> x) core -> strip_trailing x (core ++ repeat x k) = core.
Proof.
  intros Hcore. unfold strip_trailing.
  rewrite rev_app_distr, rev_repeat, drop_while_eq_repeat.
  assert (E : drop_while_eq x (rev core) = rev core).
  { destruct (rev core) as [|c r] eqn:Hr; [reflexivity|]. simpl.
    assert (Hc : c <> x).
    { rewrite List.Forall_forall in Hcore. apply Hcore.
      apply in_rev. rewrite Hr. now left. }
    apply N.eqb_neq in Hc. now rewrite Hc. }
  rewrite E. apply rev_involutive.
Qed.

(** base64url is the base64 digits with [+] and [/] replaced and the padding
    gone; it holds digits of the URL alphabet only. *)
Lemma base64url_digits bytes :
  base64url bytes = List.map url_digit (base64_digits bytes)
  /\ Forall (fun c => url_safe c = true) (base64url bytes).
Proof.
  assert (E : base64url bytes = List.map url_digit (base64_digits bytes)).
  { unfold base64url. rewrite replace_twice_is_url_digit, base64_split, map_app.
    destruct (base64_padding_all_equals bytes) as (k & _ & ->).
    assert (Hpad : List.map url_digit (repeat EQUALS k) = repeat EQUALS k).
    { induction k as [|k IH]; [reflexivity|]. simpl. now rewrite IH. }
    rewrite Hpad. apply strip_trailing_padding.
    eapply List.Forall_impl; [|apply base64_digits_url_safe]. now intros c [_ Hc]. }
  split; [exact E|]. rewrite E.
  eapply List.Forall_impl; [|apply base64_digits_url_safe]. now intros c [Hc _].
Qed.

End Base64.

Section Boundary.

Lemma js_inj s1 s2 : js s1 = js s2 -> s1 = s2.
Proof.
  unfold js. intros H.
  assert (E : list_ascii_of_string s1 = list_ascii_of_string s2).
  { revert H. generalize (list_ascii_of_string s1) (list_ascii_of_string s2).
    induction l as [|a l IH]; intros [|b l'] H; simpl in H; try discriminate;
      [reflexivity|].
    injection H as Hab Hl. f_equal; [|now apply IH].
    rewrite <- (ascii_N_embedding a), <- (ascii_N_embedding b). now rewrite Hab. }
  rewrite <- (string_of_list_ascii_of_string s1),
    <- (string_of_list_ascii_of_string s2). now rewrite E.
Qed.

(** The boundary is a function of the clock: two readings give the same
    token only when they are equal. *)
Lemma boundary_of_clock t1 t2 :
  Gmail.boundary_of t1 = Gmail.boundary_of t2 -> t1 = t2.
Proof.
  unfold Gmail.boundary_of. intros H. apply app_inv_head in H.
  apply js_inj in H. exact (pretty_N_inj _ _ H).
Qed.

End Boundary.

Lemma assoc_In key table v :
  assoc key table = Some v -> In (key, v) table.
Proof.
  induction table as [|[k w] table IH]; simpl; [discriminate|].
  unfold str_eqb. case_bool_decide as E.
  - intros [= ->]. left. now rewrite E.
  - intros H. right. now apply IH.
Qed.

(** The media type comes from the table, under the lower-cased extension of
    the name, or is the default. *)
Lemma getMimeType_cases (name : jsstring) :
  In (toLowerCase (extname name), getMimeType name) mimeTypes
  \/ getMimeType name = js "application/octet-stream".
Proof.
  unfold getMimeType.
  destruct (assoc (toLowerCase (extname name)) mimeTypes) as [v|] eqn:E.
  - left. now apply assoc_In.
  - right. reflexivity.
Qed.

Lemma assoc_listed (k v : jsstring) :
  In (k, v) mimeTypes -> assoc k mimeTypes = Some v.
Proof.
  intros H. unfold mimeTypes in H.
  repeat (destruct H as [H|H]; [injection H as <- <-; vm_compute; reflexivity|]).
  destruct H.
Qed.

Lemma assoc_unlisted (key : jsstring) (table : list (jsstring * jsstring)) :
  (forall k v, In (k, v) table -> key <> k) -> assoc key table = None.
Proof.
  induction table as [|[k v] table IH]; intros H; [reflexivity|].
  cbn [assoc]. unfold str_eqb. rewrite bool_decide_eq_false_2.
  - apply IH. intros k' v' Hin. apply (H k' v'). now right.
  - apply (H k v). now left.
Qed.

(** The media type of a name is the entry of the table for its extension
    in lower case, and the default when the table has none. *)
Lemma getMimeType_table (name : jsstring) :
  (forall k v, In (k, v) mimeTypes -> toLowerCase (extname name) = k ->
     getMimeType name = v)
  /\ ((forall k v, In (k, v) mimeTypes -> toLowerCase (extname name) <> k) ->
      getMimeType name = octet_stream).
Proof.
  unfold getMimeType. cbv zeta. split.
  - intros k v Hin <-. now rewrite (assoc_listed _ v Hin).
  - intros Hno. now rewrite (assoc_unlisted _ _ Hno).
Qed.

Lemma composed_list_readable (fs : FS) (uploads : list File)
  (names : list jsstring) :
  Forall (fun f => is_Some (fs !! path f)) uploads ->
  Forall (fun a => is_Some (fs !! filepath a)) (composed_list fs uploads names).
Proof.
  intros Hup. unfold composed_list. apply Forall_app. split.
  - induction Hup as [|f l Hf _ IH]; simpl; constructor; assumption.
  - induction names as [|n names IH]; simpl; [constructor|].
    destruct (resolves fs n) eqn:E; [|exact IH].
    simpl. constructor; [|exact IH].
    unfold resolves, existsSync in E. apply andb_true_iff in E as [_ E].
    cbn [filepath saved_attachment].
    destruct (fs !! path_join filesFolder n); [eauto|discriminate].
Qed.

(** C6 (as stated) fails on one point: the boundary is not unique to the
    request.  Two requests that read the same millisecond of the clock are
    sent with the same token. *)
Lemma boundary_shared_in_one_millisecond :
  let session :=
    {| Gmail.tokens := Some {| Gmail.expiry_date := None |};
       Gmail.user := Some {| Gmail.name := JStr (js "Ada");
                             Gmail.email := JStr (js "ada@gmail.com") |} |} in
  let fs : FS := {[ path_join filesFolder (js "a.txt") := [97] ]} in
  let req1 :=
    {| from := JUndefined; to := JStr (js "a@b.com"); subject := JStr (js "Hi");
       message := JStr (js "x"); senderName := JUndefined;
       selectedFiles := JStr (js "a.txt"); files := [] |} in
  let req2 :=
    {| from := JUndefined; to := JStr (js "c@d.com"); subject := JStr (js "Ho");
       message := JStr (js "y"); senderName := JUndefined;
       selectedFiles := JStr (js "a.txt"); files := [] |} in
  let parts := [part_of fs (saved_attachment (js "a.txt"))] in
  Gmail.email_lines 1700000000000 session fs req1
  = Ok (envelope (js "boundary_1700000000000") (js "Ada <ada@gmail.com>")
          (js "a@b.com") (js "Hi") (js "<p>x</p>") parts)
  /\ Gmail.email_lines 1700000000000 session fs req2
     = Ok (envelope (js "boundary_1700000000000") (js "Ada <ada@gmail.com>")
             (js "c@d.com") (js "Ho") (js "<p>y</p>") parts)
  /\ req1 <> req2.
Proof.
  cbv zeta. split; [vm_compute; reflexivity|].
  split; [vm_compute; reflexivity|]. discriminate.
Qed.

(** C6 (as amended). The Gmail build, for a logged-in user whose name and
    address convert to strings, a recipient and a subject that convert to
    strings, a body that is a string, a selection of plain file names,
    uploads that are there and at least one attachment: the lines of the message are the envelope of the
    specification (From, To, Subject and MIME-Version, the multipart header,
    one HTML part, one base64 part per attachment with the media type of
    its name, every part after the boundary, the closing marker last); what
    goes to the transport is the URL-safe base64 of these lines joined by
    CRLF, that is the base64 digits with [+] and [/] replaced and no
    padding; the boundary is a function of the clock reading, the same for
    the same reading and another for another reading; and the media type of
    a name is the entry of the extension table for its extension in lower
    case, or the default when the table has none. *)
Theorem raw_message_envelope (now : N) (session : Gmail.Session)
  (u : Gmail.User) (fs : FS) (req : SendRequest)
  (sender address to_ subject_ body : jsstring) (names : list jsstring) :
  Gmail.user session = Some u ->
  to_string (Gmail.name u) = Ok sender ->
  to_string (Gmail.email u) = Ok address ->
  to_string (to req) = Ok to_ -> to_string (subject req) = Ok subject_ ->
  message req = JStr body ->
  selected_names (selectedFiles req) = Some names ->
  Forall plain_or_empty names ->
  Forall (fun f => is_Some (fs !! path f)) (files req) ->
  composed_list fs (files req) names <> [] ->
  let lines :=
    envelope (Gmail.boundary_of now)
      (sender ++ js " <" ++ address ++ js ">") to_ subject_
      (js "<p>" ++ replace_newlines (js "<br>") body ++ js "</p>")
      (List.map (part_of fs) (composed_list fs (files req) names)) in
  Gmail.email_lines now session fs req = Ok lines
  /\ (forall refresh send now0 t,
        Gmail.tokens session = Some t -> Gmail.expired t now0 = false ->
        truthy (to req) = true -> truthy (subject req) = true -> body <> [] ->
        transport_calls (Gmail.send_email refresh send now0 now session fs req)
        = [Gmail.raw_email lines])
  /\ Gmail.raw_email lines
     = List.map url_digit (base64_digits (utf8 (join Gmail.CRLF lines)))
  /\ Forall (fun c => url_safe c = true) (Gmail.raw_email lines)
  /\ (forall now', Gmail.boundary_of now' = Gmail.boundary_of now <-> now' = now)
  /\ (forall name,
        (forall k v, In (k, v) mimeTypes -> toLowerCase (extname name) = k ->
           getMimeType name = v)
        /\ ((forall k v, In (k, v) mimeTypes -> toLowerCase (extname name) <> k) ->
            getMimeType name = octet_stream)).
Proof.
  intros Huser Hname Hemail Hto Hsub Hbody Hsel Hnames Hstaged Hne lines.
  assert (Hlines : Gmail.email_lines now session fs req = Ok lines).
  { unfold Gmail.email_lines, Gmail.push_headers.
    rewrite Huser, Hname, Hemail, Hto, Hsub.
    cbn [bind app].
    rewrite (push_selected_composed GmailApi fs (files req) _ names Hsel Hnames).
    cbn [bind]. unfold Gmail.push_body.
    destruct (composed_list fs (files req) names) as [|a atts] eqn:Hatts;
      [congruence|].
    cbn [length Nat.ltb Nat.leb]. rewrite Hbody.
    cbn [render_html call_replace bind].
    rewrite forEach_push_attachments
      by (rewrite <- Hatts; now apply composed_list_readable).
    cbn [bind]. unfold lines, envelope, quoted.
    rewrite <- !app_assoc. reflexivity. }
  split; [exact Hlines|]. split; [|split; [|split; [|split]]].
  - intros refresh send now0 t Htok Hexp Hto' Hsub' Hmsg'.
    unfold Gmail.send_email, Gmail.handler.
    rewrite Htok, Hexp, Hlines, Hto', Hsub', Hbody. cbn [truthy].
    destruct body; try congruence. cbn [is_empty negb orb].
    destruct (send t (Gmail.raw_email lines)); [|reflexivity].
    destruct (promote_uploads fs (files req)) as [fs' [e|]]; reflexivity.
  - apply base64url_digits.
  - apply base64url_digits.
  - intros now'. split; [apply boundary_of_clock|now intros ->].
  - apply getMimeType_table.
Qed.

Lemma raw_message_envelope_witness :
  Gmail.email_lines 1700000000000
    {| Gmail.tokens := Some {| Gmail.expiry_date := None |};
       Gmail.user := Some {| Gmail.name := JStr (js "Ada");
                             Gmail.email := JStr (js "ada@gmail.com") |} |}
    {[ multer_path 1700000000000 (js "report.pdf") := [37; 80; 68; 70] ]}
    {| from := JUndefined; to := JStr (js "a@b.com");
       subject := JStr (js "Hi");
       message := JStr (js "line1" ++ [LF] ++ js "line2");
       senderName := JUndefined; selectedFiles := JUndefined;
       files := [staged_file 1700000000000 (js "report.pdf")] |}
  = Ok [ js "From: Ada <ada@gmail.com>";
         js "To: a@b.com";
         js "Subject: Hi";
         js "MIME-Version: 1.0";
         js "Content-Type: multipart/mixed; boundary=" ++ quoted (js "boundary_1700000000000");
         [];
         js "--boundary_1700000000000";
         js "Content-Type: text/html; charset=UTF-8";
         [];
         js "<p>line1<br>line2</p>";
         js "--boundary_1700000000000";
         js "Content-Type: application/pdf; name=" ++ quoted (js "report.pdf");
         js "Content-Transfer-Encoding: base64";
         js "Content-Disposition: attachment; filename=" ++ quoted (js "report.pdf");
         [];
         js "JVBERg==";
         js "--boundary_1700000000000--" ].
Proof.
  refine (proj1 (raw_message_envelope 1700000000000
                   {| Gmail.tokens := Some {| Gmail.expiry_date := None |};
                      Gmail.user := Some {| Gmail.name := JStr (js "Ada");
                                            Gmail.email := JStr (js "ada@gmail.com") |} |}
                   {| Gmail.name := JStr (js "Ada");
                      Gmail.email := JStr (js "ada@gmail.com") |}
                   {[ multer_path 1700000000000 (js "report.pdf") := [37; 80; 68; 70] ]}
                   {| from := JUndefined; to := JStr (js "a@b.com");
                      subject := JStr (js "Hi");
                      message := JStr (js "line1" ++ [LF] ++ js "line2");
                      senderName := JUndefined; selectedFiles := JUndefined;
                      files := [staged_file 1700000000000 (js "report.pdf")] |}
                   (js "Ada") (js "ada@gmail.com") (js "a@b.com") (js "Hi")
                   (js "line1" ++ [LF] ++ js "line2") []
                   eq_refl eq_refl eq_refl eq_refl eq_refl eq_refl eq_refl
                   (List.Forall_nil _) _ _)).
  - repeat constructor. vm_compute. eauto.
  - vm_compute. discriminate.
Defined.

(* ================================================================= *)
(** ** The attachment store: listing and deleting *)

Lemma entry_name_Some dir p name :
  entry_name dir p = Some name
  <-> p = path_join dir name /\ name <> [] /\ ~ In SLASH name.
Proof.
  unfold entry_name, path_join. split.
  - destruct (starts_with (dir ++ [SLASH]) p) eqn:E; [|discriminate].
    apply starts_with_inv in E. rewrite length_app in E. simpl in E.
    destruct (skipn (length dir + 1) p) as [|c r] eqn:Hs; [discriminate|].
    cbn [is_empty orb].
    destruct (contains [SLASH] (c :: r)) eqn:Hc; [discriminate|].
    intros [= <-]. split; [|split; [discriminate|]].
    + rewrite E at 1. now rewrite <- app_assoc.
    + intros Hin. apply contains_single in Hin. congruence.
  - intros (-> & Hne & Hfree).
    rewrite app_assoc, starts_with_app.
    assert (E : skipn (length dir + 1) ((dir ++ [SLASH]) ++ name) = name).
    { replace (length dir + 1)%nat with (length (dir ++ [SLASH]))
        by (rewrite length_app; reflexivity).
      now rewrite skipn_app, skipn_all, Nat.sub_diag. }
    rewrite E. destruct name as [|c r]; [congruence|]. cbn [is_empty orb].
    now rewrite (contains_single_false SLASH (c :: r) Hfree).
Qed.

Lemma readdirSync_In (fs : FS) dir name :
  In name (readdirSync fs dir)
  <-> is_Some (fs !! path_join dir name) /\ name <> [] /\ ~ In SLASH name.
Proof.
  unfold readdirSync. rewrite <- list_elem_of_In, list_elem_of_omap. split.
  - intros (p & Hp & Hname). apply entry_name_Some in Hname as (-> & H1 & H2).
    split; [|now split].
    apply list_elem_of_fmap in Hp as ([q bytes] & Hq & Hin). simpl in Hq. subst q.
    apply elem_of_map_to_list in Hin. eauto.
  - intros ([bytes Hb] & H1 & H2). exists (path_join dir name). split.
    + apply list_elem_of_fmap. exists (path_join dir name, bytes). split; [reflexivity|].
      now apply elem_of_map_to_list.
    + now apply entry_name_Some.
Qed.

Lemma files_list_In (fs : FS) (name : jsstring) :
  In name (files_list fs)
  <-> is_Some (fs !! path_join filesFolder name)
      /\ name <> [] /\ ~ In SLASH name /\ starts_with [DOT] name = false.
Proof.
  unfold files_list. rewrite filter_In, readdirSync_In, negb_true_iff. tauto.
Qed.

Lemma NoDup_omap_inj {A B} (f : A -> option B) (l : list A) :
  (forall x y z, f x = Some z -> f y = Some z -> x = y) ->
  base.NoDup l -> base.NoDup (omap f l).
Proof.
  intros Hinj. induction 1 as [|x l Hx Hl IH]; simpl; [constructor|].
  destruct (f x) as [z|] eqn:E; [|exact IH].
  constructor; [|exact IH].
  intros Hin. apply list_elem_of_omap in Hin as (y & Hy & Hfy).
  rewrite (Hinj x y z E Hfy) in Hx. contradiction.
Qed.

Lemma readdirSync_NoDup (fs : FS) dir : List.NoDup (readdirSync fs dir).
Proof.
  apply NoDup_ListNoDup. unfold readdirSync. apply NoDup_omap_inj.
  - intros x y z Hx Hy.
    apply entry_name_Some in Hx as [-> _]. now apply entry_name_Some in Hy as [-> _].
  - apply NoDup_fst_map_to_list.
Qed.

(** X1. GET /files lists each file of public/files whose name does not
    start with a dot, once, and nothing else: a hidden file is never
    listed. *)
Theorem files_list_visible_once (fs : FS) :
  List.NoDup (files_list fs)
  /\ (forall name,
        In name (files_list fs)
        <-> is_Some (fs !! path_join filesFolder name)
            /\ name <> [] /\ ~ In SLASH name /\ starts_with [DOT] name = false)
  /\ (forall name, ~ In (DOT :: name) (files_list fs)).
Proof.
  split; [|split].
  - unfold files_list. apply List.NoDup_filter, readdirSync_NoDup.
  - apply files_list_In.
  - intros name Hin. apply files_list_In in Hin as (_ & _ & _ & H).
    simpl in H. discriminate.
Qed.

Lemma path_join_inj dir n1 n2 : path_join dir n1 = path_join dir n2 -> n1 = n2.
Proof. unfold path_join. intros H. now apply app_inv_head in H as [= ->]. Qed.

(** X2. POST /files/delete with a plain file name: a file that is there is
    removed, it alone, with answer 200, the listing loses this name and no
    other, and the same request again is answered 404; a file that is not
    there gives 404 and no change. *)
Theorem files_delete_removes_one (fs : FS) (name : jsstring) :
  plain_name name ->
  (is_Some (fs !! path_join filesFolder name) ->
     files_delete fs (JStr name)
     = (delete (path_join filesFolder name) fs,
        Json 200 true (js "File deleted successfully"))
     /\ files_delete (delete (path_join filesFolder name) fs) (JStr name)
        = (delete (path_join filesFolder name) fs,
           Json 404 false (js "File not found"))
     /\ (forall p, p <> path_join filesFolder name ->
           delete (path_join filesFolder name) fs !! p = fs !! p)
     /\ (forall n, In n (files_list (delete (path_join filesFolder name) fs))
                   <-> In n (files_list fs) /\ n <> name))
  /\ (fs !! path_join filesFolder name = None ->
      files_delete fs (JStr name) = (fs, Json 404 false (js "File not found"))).
Proof.
  intros Hplain.
  unfold files_delete, path_join_val, existsSync, unlinkSync.
  cbn [validateString bind]. rewrite (posix_join_plain name Hplain). split.
  - intros [bytes Hb]. rewrite Hb, lookup_delete_eq.
    split; [reflexivity|]. split; [reflexivity|]. split.
    + intros p Hp. now apply lookup_delete_ne.
    + intros n. rewrite !files_list_In. split.
      * intros (Hs & H1 & H2 & H3).
        assert (Hn : n <> name).
        { intros ->. rewrite lookup_delete_eq in Hs. now destruct Hs. }
        rewrite lookup_delete_ne in Hs
          by (intros E; apply Hn; symmetry; now apply path_join_inj in E).
        tauto.
      * intros ((Hs & H1 & H2 & H3) & Hn).
        rewrite lookup_delete_ne
          by (intros E; apply Hn; symmetry; now apply path_join_inj in E).
        tauto.
  - intros ->. reflexivity.
Qed.

Lemma files_delete_removes_one_witness :
  files_delete {[ path_join filesFolder (js "a.txt") := [97];
                  path_join filesFolder (js "b.txt") := [98] ]}
    (JStr (js "a.txt"))
  = (delete (path_join filesFolder (js "a.txt"))
       ({[ path_join filesFolder (js "a.txt") := [97];
           path_join filesFolder (js "b.txt") := [98] ]} : FS),
     Json 200 true (js "File deleted successfully")).
Proof.
  refine (proj1 (proj1 (files_delete_removes_one
                          {[ path_join filesFolder (js "a.txt") := [97];
                             path_join filesFolder (js "b.txt") := [98] ]}
                          (js "a.txt") _) _)).
  - vm_compute. intuition discriminate.
  - vm_compute. eauto.
Defined.

(* ================================================================= *)
(** ** Promotion as a whole *)

(** The loop creates no file outside the store. *)
Lemma promote_all_no_new_staged (files : list File) :
  forall (fs : FS) (p : jsstring),
    (forall n, p <> path_join filesFolder n) ->
    fs !! p = None -> fst (promote_all fs files) !! p = None.
Proof.
  induction files as [|f files IH]; intros fs p Hp Hnone; [exact Hnone|].
  cbn [promote_all]. unfold promote, existsSync, renameSync, unlinkSync.
  destruct (fs !! path_join filesFolder (originalname f)) eqn:Hdst; cbn [negb];
    destruct (fs !! path f) eqn:Hsrc; try exact Hnone; apply IH; try exact Hp.
  - destruct (decide (path f = p)) as [->|Hne];
      [apply lookup_delete_eq|now rewrite lookup_delete_ne].
  - rewrite lookup_insert_ne by (intros E; exact (Hp _ (eq_sym E))).
    destruct (decide (path f = p)) as [->|Hne];
      [apply lookup_delete_eq|now rewrite lookup_delete_ne].
Qed.

(** What the loop leaves behind when every copy is staged and no two uploads
    share a copy. *)
Lemma promote_all_post (files : list File) :
  List.NoDup (List.map path files) ->
  forall fs : FS, Forall (staged_in fs) files ->
    snd (promote_all fs files) = None
    /\ (forall f, In f files ->
          fst (promote_all fs files) !! path f = None
          /\ is_Some (fst (promote_all fs files)
                        !! path_join filesFolder (originalname f))).
Proof.
  induction files as [|f files IH]; intros Hnd fs Hst;
    [split; [reflexivity|intros f []]|].
  inversion Hnd as [|? ? Hnotin Hnd']; subst.
  inversion Hst as [|? ? [[t Hf] [bytes Hsrc]] Hrest]; subst.
  assert (Hforms : Forall (fun g => exists t, path g = multer_path t (originalname g))
                     files).
  { eapply List.Forall_impl; [|exact Hrest]. now intros g [Hg _]. }
  assert (Hstep : exists fs1 : FS,
             promote fs f = Ok fs1
             /\ fs1 !! path f = None
             /\ is_Some (fs1 !! path_join filesFolder (originalname f))
             /\ Forall (staged_in fs1) files).
  { assert (Hne : path f <> path_join filesFolder (originalname f))
      by (rewrite Hf; apply staged_path_not_in_store).
    assert (Hother : forall fs' : FS,
               (forall p, p <> path f ->
                          (forall n, p <> path_join filesFolder n) ->
                          fs' !! p = fs !! p) ->
               Forall (staged_in fs') files).
    { intros fs' Hframe. rewrite List.Forall_forall in *. intros g Hg.
      destruct (Hrest g Hg) as [[tg Hpg] Hsome]. split; [eauto|].
      rewrite Hframe; [exact Hsome| |].
      - intros E. apply Hnotin. rewrite <- E. now apply in_map.
      - intros n. rewrite Hpg. apply staged_path_not_in_store. }
    unfold promote, existsSync, renameSync, unlinkSync. rewrite Hsrc.
    destruct (fs !! path_join filesFolder (originalname f)) eqn:Hdst; cbn [negb].
    - eexists. split; [reflexivity|]. split; [apply lookup_delete_eq|]. split.
      + rewrite lookup_delete_ne by exact Hne. eauto.
      + apply Hother. intros p Hp _. now apply lookup_delete_ne.
    - eexists. split; [reflexivity|]. split; [|split].
      + rewrite lookup_insert_ne by congruence. apply lookup_delete_eq.
      + rewrite lookup_insert_eq. eauto.
      + apply Hother. intros p Hp Hstore.
        rewrite lookup_insert_ne by (intros E; exact (Hstore _ (eq_sym E))).
        now apply lookup_delete_ne. }
  destruct Hstep as (fs1 & Hpro & Hgone & Hthere & Hst1).
  cbn [promote_all]. rewrite Hpro.
  destruct (IH Hnd' fs1 Hst1) as [Hok Hpost]. split; [exact Hok|].
  intros g [<-|Hg]; [|now apply Hpost]. split.
  - apply promote_all_no_new_staged; [|exact Hgone].
    intros n. rewrite Hf. apply staged_path_not_in_store.
  - destruct Hthere as [stored Hstored]. exists stored.
    now apply promote_all_keeps_store.
Qed.

(** X3. Promotion of the uploads of a request, every copy staged and no two
    uploads sharing a copy: the loop ends without an exception, no staged
    copy is left, every original name is a file of the store, the files the
    store had keep their bytes, and GET /files then lists every original
    name that is a plain name not starting with a dot. *)
Theorem promotion_completes (fs : FS) (files : list File) :
  List.NoDup (List.map path files) -> Forall (staged_in fs) files ->
  snd (promote_uploads fs files) = None
  /\ (forall f, In f files ->
        fst (promote_uploads fs files) !! path f = None
        /\ is_Some (fst (promote_uploads fs files)
                      !! path_join filesFolder (originalname f)))
  /\ (forall name stored,
        fs !! path_join filesFolder name = Some stored ->
        fst (promote_uploads fs files) !! path_join filesFolder name = Some stored)
  /\ (forall f, In f files ->
        originalname f <> [] -> ~ In SLASH (originalname f) ->
        starts_with [DOT] (originalname f) = false ->
        In (originalname f) (files_list (fst (promote_uploads fs files)))).
Proof.
  intros Hnd Hst.
  assert (E : promote_uploads fs files = promote_all fs files).
  { unfold promote_uploads. destruct files; reflexivity. }
  rewrite E. destruct (promote_all_post files Hnd fs Hst) as [Hok Hpost].
  split; [exact Hok|]. split; [exact Hpost|]. split.
  - intros name stored. apply promote_all_keeps_store.
    eapply List.Forall_impl; [|exact Hst]. now intros g [Hg _].
  - intros f Hf H1 H2 H3. apply files_list_In.
    destruct (Hpost f Hf) as [_ Hthere]. tauto.
Qed.

Lemma promotion_completes_witness :
  snd (promote_uploads {[ multer_path 1700000000000 (js "a.txt") := [97];
                          multer_path 1700000000001 (js "b.txt") := [98];
                          path_join filesFolder (js "a.txt") := [111] ]}
         [staged_file 1700000000000 (js "a.txt");
          staged_file 1700000000001 (js "b.txt")])
  = None.
Proof.
  refine (proj1 (promotion_completes
                   {[ multer_path 1700000000000 (js "a.txt") := [97];
                      multer_path 1700000000001 (js "b.txt") := [98];
                      path_join filesFolder (js "a.txt") := [111] ]}
                   [staged_file 1700000000000 (js "a.txt");
                    staged_file 1700000000001 (js "b.txt")] _ _)).
  - repeat constructor; simpl; intros H; vm_compute in H; intuition discriminate.
  - repeat constructor; try (eexists; reflexivity); vm_compute; eauto.
Defined.

(* ================================================================= *)
(** ** What a send request does to the files *)

(** The cases of the nodemailer handler, by what reached the transport. *)
Lemma nodemailer_outcome_cases
  (sendMail : FS -> Nodemailer.MailOptions -> result unit)
  (fs : FS) (req : SendRequest) :
  (transport_calls (Nodemailer.send_email sendMail fs req) = []
   /\ fs_after (Nodemailer.send_email sendMail fs req) = fs)
  \/ (exists m e,
        transport_calls (Nodemailer.send_email sendMail fs req) = [m]
        /\ sendMail fs m = Throw e
        /\ fs_after (Nodemailer.send_email sendMail fs req) = fs)
  \/ (exists m,
        transport_calls (Nodemailer.send_email sendMail fs req) = [m]
        /\ sendMail fs m = Ok tt
        /\ fs_after (Nodemailer.send_email sendMail fs req)
           = fst (promote_uploads fs (files req))).
Proof.
  unfold Nodemailer.send_email.
  destruct (negb (truthy (from req)) || negb (truthy (to req))
            || negb (truthy (subject req)) || negb (truthy (message req)));
    [left; split; reflexivity|].
  destruct (Nodemailer.compose fs req) as [m|e]; [|left; split; reflexivity].
  destruct (sendMail fs m) as [[]|e] eqn:Hsend.
  - right. right. exists m.
    destruct (promote_uploads fs (files req)) as [fs' [e|]]; repeat split;
      assumption || reflexivity.
  - right. left. exists m, e. repeat split; assumption || reflexivity.
Qed.

(** The same for the Gmail route. *)
Lemma gmail_outcome_cases (refresh : Gmail.Tokens -> result Gmail.Tokens)
  (send : Gmail.Tokens -> jsstring -> result unit) (now0 now : N)
  (session : Gmail.Session) (fs : FS) (req : SendRequest) :
  (transport_calls (Gmail.send_email refresh send now0 now session fs req) = []
   /\ fs_after (Gmail.send_email refresh send now0 now session fs req) = fs)
  \/ (exists t raw e,
        transport_calls (Gmail.send_email refresh send now0 now session fs req)
        = [raw]
        /\ send t raw = Throw e
        /\ fs_after (Gmail.send_email refresh send now0 now session fs req) = fs)
  \/ (exists t raw,
        transport_calls (Gmail.send_email refresh send now0 now session fs req)
        = [raw]
        /\ send t raw = Ok tt
        /\ fs_after (Gmail.send_email refresh send now0 now session fs req)
           = fst (promote_uploads fs (files req))).
Proof.
  unfold Gmail.send_email, Gmail.handler.
  destruct (Gmail.tokens session) as [t|]; [|left; split; reflexivity].
  destruct (negb (truthy (to req)) || negb (truthy (subject req))
            || negb (truthy (message req)));
    [left; split; reflexivity|].
  destruct (if Gmail.expired t now0 then refresh t else Ok t) as [cred|e];
    [|left; split; reflexivity].
  destruct (Gmail.email_lines now session fs req) as [lines|e];
    [|left; split; reflexivity].
  destruct (send cred (Gmail.raw_email lines)) as [[]|e] eqn:Hsend.
  - right. right. exists cred, (Gmail.raw_email lines).
    destruct (promote_uploads fs (files req)) as [fs' [e|]]; repeat split;
      assumption || reflexivity.
  - right. left. exists cred, (Gmail.raw_email lines), e.
    repeat split; assumption || reflexivity.
Qed.

(** X4. A send request hands at most one message to the transport, and the
    files change only when the transport accepted it: a request that is
    turned down, fails before the transport or is refused by the transport
    leaves every file as it was, the staged uploads included. *)
Theorem files_change_only_after_accepted_send (fs : FS) (req : SendRequest) :
  (forall sendMail,
     (length (transport_calls (Nodemailer.send_email sendMail fs req)) <= 1)%nat
     /\ ((forall m, In m (transport_calls (Nodemailer.send_email sendMail fs req)) ->
                    sendMail fs m <> Ok tt) ->
         fs_after (Nodemailer.send_email sendMail fs req) = fs))
  /\ (forall refresh send now0 now session,
        (length (transport_calls
                   (Gmail.send_email refresh send now0 now session fs req)) <= 1)%nat
        /\ ((forall t raw,
               In raw (transport_calls
                         (Gmail.send_email refresh send now0 now session fs req)) ->
               send t raw <> Ok tt) ->
            fs_after (Gmail.send_email refresh send now0 now session fs req) = fs)).
Proof.
  split.
  - intros sendMail.
    destruct (nodemailer_outcome_cases sendMail fs req)
      as [[Hc Hfs]|[(m & e & Hc & Hs & Hfs)|(m & Hc & Hs & Hfs)]];
      rewrite Hc; (split; [simpl; lia|]); intros Hno; try exact Hfs.
    exfalso. apply (Hno m); [now left|exact Hs].
  - intros refresh send now0 now session.
    destruct (gmail_outcome_cases refresh send now0 now session fs req)
      as [[Hc Hfs]|[(t & raw & e & Hc & Hs & Hfs)|(t & raw & Hc & Hs & Hfs)]];
      rewrite Hc; (split; [simpl; lia|]); intros Hno; try exact Hfs.
    exfalso. apply (Hno t raw); [now left|exact Hs].
Qed.

(** X5. No send request, whatever its outcome, changes or removes a file
    that the store holds: with the uploads staged where multer puts them,
    every stored file has the same bytes afterwards. *)
Theorem stored_files_survive_send (fs : FS) (req : SendRequest)
  (name : jsstring) (stored : list N) :
  Forall (fun f => exists t, path f = multer_path t (originalname f)) (files req) ->
  fs !! path_join filesFolder name = Some stored ->
  (forall sendMail,
     fs_after (Nodemailer.send_email sendMail fs req)
       !! path_join filesFolder name = Some stored)
  /\ (forall refresh send now0 now session,
        fs_after (Gmail.send_email refresh send now0 now session fs req)
          !! path_join filesFolder name = Some stored).
Proof.
  intros Hforms Hst.
  assert (Hpro : fst (promote_uploads fs (files req))
                   !! path_join filesFolder name = Some stored).
  { unfold promote_uploads. destruct (0 <? length (files req))%nat; [|exact Hst].
    now apply promote_all_keeps_store. }
  split.
  - intros sendMail.
    destruct (nodemailer_outcome_cases sendMail fs req)
      as [[_ ->]|[(m & e & _ & _ & ->)|(m & _ & _ & ->)]]; assumption.
  - intros refresh send now0 now session.
    destruct (gmail_outcome_cases refresh send now0 now session fs req)
      as [[_ ->]|[(t & raw & e & _ & _ & ->)|(t & raw & _ & _ & ->)]]; assumption.
Qed.

Lemma stored_files_survive_send_witness :
  (forall sendMail,
     fs_after
       (Nodemailer.send_email sendMail
          {[ multer_path 1700000000000 (js "x.txt") := [110; 101; 119];
             path_join filesFolder (js "x.txt") := [111; 108; 100] ]}
          {| from := JStr (js "me@b.com"); to := JStr (js "a@b.com");
             subject := JStr (js "Hi"); message := JStr (js "x");
             senderName := JUndefined; selectedFiles := JUndefined;
             files := [staged_file 1700000000000 (js "x.txt")] |})
       !! path_join filesFolder (js "x.txt") = Some [111; 108; 100])
  /\ (forall refresh send now0 now session,
        fs_after
          (Gmail.send_email refresh send now0 now session
             {[ multer_path 1700000000000 (js "x.txt") := [110; 101; 119];
                path_join filesFolder (js "x.txt") := [111; 108; 100] ]}
             {| from := JStr (js "me@b.com"); to := JStr (js "a@b.com");
                subject := JStr (js "Hi"); message := JStr (js "x");
                senderName := JUndefined; selectedFiles := JUndefined;
                files := [staged_file 1700000000000 (js "x.txt")] |})
          !! path_join filesFolder (js "x.txt") = Some [111; 108; 100]).
Proof.
  apply (stored_files_survive_send
           {[ multer_path 1700000000000 (js "x.txt") := [110; 101; 119];
              path_join filesFolder (js "x.txt") := [111; 108; 100] ]}
           {| from := JStr (js "me@b.com"); to := JStr (js "a@b.com");
              subject := JStr (js "Hi"); message := JStr (js "x");
              senderName := JUndefined; selectedFiles := JUndefined;
              files := [staged_file 1700000000000 (js "x.txt")] |}
           (js "x.txt") [111; 108; 100]).
  - repeat constructor. exists 1700000000000. reflexivity.
  - vm_compute. reflexivity.
Defined.

(* ================================================================= *)
(** ** The accepted send *)

(** With a user in the session, a string body, a well-formed selection and
    the uploads staged, the Gmail build composes its lines. *)
Lemma push_headers_ok (session : Gmail.Session) (u : Gmail.User)
  (req : SendRequest) (ec : list jsstring) :
  Gmail.user session = Some u -> headers_convertible u req ->
  exists lines, Gmail.push_headers ec session req = Ok lines.
Proof.
  intros Hu (Hn & He & Ht & Hs). unfold Gmail.push_headers. rewrite Hu.
  destruct (to_string_convertible _ Hn) as [n ->].
  destruct (to_string_convertible _ He) as [e ->].
  destruct (to_string_convertible _ Ht) as [t ->].
  destruct (to_string_convertible _ Hs) as [su ->].
  cbn [bind]. eauto.
Qed.

Lemma email_lines_ok (now : N) (session : Gmail.Session) (u : Gmail.User)
  (fs : FS) (req : SendRequest) (body : jsstring) (names : list jsstring) :
  Gmail.user session = Some u -> headers_convertible u req ->
  message req = JStr body ->
  selected_names (selectedFiles req) = Some names ->
  Forall plain_or_empty names ->
  Forall (staged_in fs) (files req) ->
  exists lines, Gmail.email_lines now session fs req = Ok lines.
Proof.
  intros Hu Hconv Hbody Hsel Hnames Hst.
  unfold Gmail.email_lines.
  destruct (push_headers_ok session u req [] Hu Hconv) as [ec ->]. cbn [bind].
  rewrite (push_selected_composed GmailApi fs (files req) _ names Hsel Hnames).
  cbn [bind]. unfold Gmail.push_body. rewrite Hbody.
  cbn [render_html call_replace bind].
  destruct (0 <? length (composed_list fs (files req) names))%nat; [|eauto].
  rewrite forEach_push_attachments; [cbn [bind]; eauto|].
  apply composed_list_readable.
  eapply List.Forall_impl; [|exact Hst]. now intros f [_ Hf].
Qed.

(** X6. The nodemailer build answers 200 when the four fields hold
    non-empty strings, the sender name converts to a string, the selection
    holds plain file names, the transport accepts the message and the
    uploads are staged, no two sharing a copy; the files afterwards are the
    files after the promotion of the uploads. *)
Theorem nodemailer_send_succeeds
  (sendMail : FS -> Nodemailer.MailOptions -> result unit)
  (fs : FS) (req : SendRequest) (names : list jsstring) :
  present (from req) -> present (to req) -> present (subject req) ->
  present (message req) -> convertible (senderName req) ->
  selected_names (selectedFiles req) = Some names ->
  Forall plain_or_empty names ->
  (forall m, sendMail fs m = Ok tt) ->
  List.NoDup (List.map path (files req)) -> Forall (staged_in fs) (files req) ->
  response (Nodemailer.send_email sendMail fs req)
  = Json 200 true (js "Email sent successfully!")
  /\ fs_after (Nodemailer.send_email sendMail fs req)
     = fst (promote_all fs (files req))
  /\ length (transport_calls (Nodemailer.send_email sendMail fs req)) = 1%nat.
Proof.
  intros (f & Hf & Hf') (t & Ht & Ht') (su & Hs & Hs') (body & Hm & Hm')
    Hname Hsel Hnames Hsend Hnd Hst.
  assert (Hsender : sender_convertible req).
  { intros _. split; [exact Hname|]. rewrite Hf. discriminate. }
  destruct (sender_line req Hsender) as [a Ha].
  unfold Nodemailer.send_email, Nodemailer.compose.
  rewrite Ha, Hf, Ht, Hs, Hm. cbn [truthy].
  destruct f, t, su, body; try congruence. cbn [is_empty negb orb].
  cbn [render_html call_replace bind].
  rewrite (push_selected_composed Nodemailer fs (files req) _ names Hsel Hnames).
  cbn [bind]. rewrite Hsend. unfold promote_uploads.
  pose proof (promote_all_succeeds (files req) Hnd fs Hst) as Hok.
  destruct (files req) as [|f0 fl] eqn:Hfiles; [repeat split|].
  cbn [length Nat.ltb Nat.leb].
  destruct (promote_all fs (f0 :: fl)) as [fs' [e|]]; [discriminate|].
  repeat split.
Qed.

Lemma nodemailer_send_succeeds_witness :
  response
    (Nodemailer.send_email (fun _ _ => Ok tt)
       {[ multer_path 1700000000000 (js "report.pdf") := [37; 80; 68; 70] ]}
       {| from := JStr (js "me@b.com"); to := JStr (js "a@b.com");
          subject := JStr (js "Hi"); message := JStr (js "x");
          senderName := JUndefined; selectedFiles := JArr [js "gone.txt"];
          files := [staged_file 1700000000000 (js "report.pdf")] |})
  = Json 200 true (js "Email sent successfully!").
Proof.
  refine (proj1 (nodemailer_send_succeeds (fun _ _ => Ok tt)
                   {[ multer_path 1700000000000 (js "report.pdf") := [37; 80; 68; 70] ]}
                   {| from := JStr (js "me@b.com"); to := JStr (js "a@b.com");
                      subject := JStr (js "Hi"); message := JStr (js "x");
                      senderName := JUndefined;
                      selectedFiles := JArr [js "gone.txt"];
                      files := [staged_file 1700000000000 (js "report.pdf")] |}
                   [js "gone.txt"] _ _ _ _ _ eq_refl _ _ _ _)).
  - exists (js "me@b.com"). split; [reflexivity|discriminate].
  - exists (js "a@b.com"). split; [reflexivity|discriminate].
  - exists (js "Hi"). split; [reflexivity|discriminate].
  - exists (js "x"). split; [reflexivity|discriminate].
  - discriminate.
  - apply List.Forall_cons; [right; vm_compute; intuition discriminate|].
    apply List.Forall_nil.
  - reflexivity.
  - repeat constructor. simpl. tauto.
  - repeat constructor; [eexists; reflexivity|vm_compute; eauto].
Defined.

(** A sender name that cannot be converted to a string (a JSON object whose
    [toString] is not a function): the template literal of the sender line
    throws, and the request is answered 500 with nothing sent. *)
Example sender_name_without_toString :
  Nodemailer.send_email (fun _ _ => Ok tt) ∅
    {| from := JStr (js "me@b.com"); to := JStr (js "a@b.com");
       subject := JStr (js "Hi"); message := JStr (js "x");
       senderName := JObj false; selectedFiles := JUndefined; files := [] |}
  = rejected
      (Json 500 false
         (js "Failed to send email: Cannot convert object to primitive value"))
      ∅.
Proof. vm_compute. reflexivity. Qed.

(** X7. The Gmail build answers 200 when the session holds tokens that have
    not expired and a user whose name and address convert to strings,
    recipient, subject and body hold non-empty strings, the selection holds
    plain file names, the transport accepts the message and the uploads are
    staged, no two sharing a copy; the files afterwards are the files after
    the promotion of the uploads. *)
Theorem gmail_send_succeeds (refresh : Gmail.Tokens -> result Gmail.Tokens)
  (send : Gmail.Tokens -> jsstring -> result unit) (now0 now : N)
  (session : Gmail.Session) (t : Gmail.Tokens) (u : Gmail.User)
  (fs : FS) (req : SendRequest) (names : list jsstring) :
  Gmail.tokens session = Some t -> Gmail.expired t now0 = false ->
  Gmail.user session = Some u ->
  convertible (Gmail.name u) -> convertible (Gmail.email u) ->
  present (to req) -> present (subject req) -> present (message req) ->
  selected_names (selectedFiles req) = Some names ->
  Forall plain_or_empty names ->
  (forall raw, send t raw = Ok tt) ->
  List.NoDup (List.map path (files req)) -> Forall (staged_in fs) (files req) ->
  response (Gmail.send_email refresh send now0 now session fs req)
  = Json 200 true (js "Email sent successfully!")
  /\ fs_after (Gmail.send_email refresh send now0 now session fs req)
     = fst (promote_all fs (files req))
  /\ length (transport_calls
               (Gmail.send_email refresh send now0 now session fs req)) = 1%nat.
Proof.
  intros Htok Hexp Hu Hname Hemail (to_ & Ht & Ht') (su & Hs & Hs')
    (body & Hm & Hm') Hsel Hnames Hsend Hnd Hst.
  assert (Hconv : headers_convertible u req).
  { repeat split; try assumption; [rewrite Ht|rewrite Hs]; discriminate. }
  destruct (email_lines_ok now session u fs req body names Hu Hconv Hm Hsel
              Hnames Hst) as [lines Hlines].
  unfold Gmail.send_email, Gmail.handler.
  rewrite Htok, Ht, Hs, Hm, Hexp, Hlines. cbn [truthy].
  destruct to_, su, body; try congruence. cbn [is_empty negb orb].
  rewrite Hsend. unfold promote_uploads.
  pose proof (promote_all_succeeds (files req) Hnd fs Hst) as Hok.
  destruct (files req) as [|f0 fl] eqn:Hfiles; [repeat split|].
  cbn [length Nat.ltb Nat.leb].
  destruct (promote_all fs (f0 :: fl)) as [fs' [e|]]; [discriminate|].
  repeat split.
Qed.

Lemma gmail_send_succeeds_witness :
  response
    (Gmail.send_email (fun t => Ok t) (fun _ _ => Ok tt) 1700000000005 1700000000007
       {| Gmail.tokens := Some {| Gmail.expiry_date := Some 1800000000000 |};
          Gmail.user := Some {| Gmail.name := JStr (js "Ada");
                                Gmail.email := JStr (js "ada@gmail.com") |} |}
       {[ multer_path 1700000000000 (js "report.pdf") := [37; 80; 68; 70] ]}
       {| from := JUndefined; to := JStr (js "a@b.com");
          subject := JStr (js "Hi"); message := JStr (js "x");
          senderName := JUndefined; selectedFiles := JUndefined;
          files := [staged_file 1700000000000 (js "report.pdf")] |})
  = Json 200 true (js "Email sent successfully!").
Proof.
  refine (proj1 (gmail_send_succeeds (fun t => Ok t) (fun _ _ => Ok tt)
                   1700000000005 1700000000007
                   {| Gmail.tokens := Some {| Gmail.expiry_date := Some 1800000000000 |};
                      Gmail.user := Some {| Gmail.name := JStr (js "Ada");
                                            Gmail.email := JStr (js "ada@gmail.com") |} |}
                   {| Gmail.expiry_date := Some 1800000000000 |}
                   {| Gmail.name := JStr (js "Ada");
                      Gmail.email := JStr (js "ada@gmail.com") |}
                   {[ multer_path 1700000000000 (js "report.pdf") := [37; 80; 68; 70] ]}
                   {| from := JUndefined; to := JStr (js "a@b.com");
                      subject := JStr (js "Hi"); message := JStr (js "x");
                      senderName := JUndefined; selectedFiles := JUndefined;
                      files := [staged_file 1700000000000 (js "report.pdf")] |}
                   [] eq_refl eq_refl eq_refl _ _ _ _ _ eq_refl
                   (List.Forall_nil _) _ _ _)).
  - discriminate.
  - discriminate.
  - exists (js "a@b.com"). split; [reflexivity|discriminate].
  - exists (js "Hi"). split; [reflexivity|discriminate].
  - exists (js "x"). split; [reflexivity|discriminate].
  - reflexivity.
  - repeat constructor. simpl. tauto.
  - repeat constructor; [eexists; reflexivity|vm_compute; eauto].
Defined.

(* ================================================================= *)
(** ** Fields that are not strings *)




Lemma call_trim_non_string (obj : jsstring) (v : jsval) :
  non_string v -> call_trim obj v = Throw (no_method obj (js "trim") v).
Proof.
  intros Hns. destruct v as [| |b|z|s|items|b]; try reflexivity.
  now destruct (Hns s).
Qed.

Lemma ensure_templates_dir_files (v : variant) (st : TStore) :
  subjects_txt (ensure_templates_dir v st) = subjects_txt st
  /\ messages_txt (ensure_templates_dir v st) = messages_txt st.
Proof. destruct v; split; reflexivity. Qed.

(** X9. Adding a template with a field that is missing or not a string is
    answered 500 with the message of the TypeError of the call of [trim]
    (no properties to read on [undefined] and [null], no such method on any
    other value), and neither template file changes. *)
Theorem templates_add_non_string (v : variant) (st : TStore) (val : jsval) :
  non_string val ->
  (snd (subjects_add v st val)
   = Json 500 false
       (match val with
        | JUndefined => js "Cannot read properties of undefined (reading 'trim')"
        | JNull => js "Cannot read properties of null (reading 'trim')"
        | _ => js "subject.trim is not a function"
        end)
   /\ subjects_txt (fst (subjects_add v st val)) = subjects_txt st
   /\ messages_txt (fst (subjects_add v st val)) = messages_txt st)
  /\ (snd (messages_add v st val)
      = Json 500 false
          (match val with
           | JUndefined => js "Cannot read properties of undefined (reading 'trim')"
           | JNull => js "Cannot read properties of null (reading 'trim')"
           | _ => js "message.trim is not a function"
           end)
      /\ subjects_txt (fst (messages_add v st val)) = subjects_txt st
      /\ messages_txt (fst (messages_add v st val)) = messages_txt st).
Proof.
  intros Hns. destruct (ensure_templates_dir_files v st) as [E1 E2]. split.
  - unfold subjects_add. rewrite (call_trim_non_string _ val Hns).
    cbn [bind caught fst snd]. rewrite E1, E2.
    split; [|split; reflexivity]. destruct val; reflexivity.
  - unfold messages_add. rewrite (call_trim_non_string _ val Hns).
    cbn [bind caught fst snd]. rewrite E1, E2.
    split; [|split; reflexivity]. destruct val; reflexivity.
Qed.

Lemma templates_add_non_string_witness :
  snd (subjects_add Nodemailer empty_store (JNum 5))
  = Json 500 false (js "subject.trim is not a function")
  /\ subjects_txt (fst (subjects_add Nodemailer empty_store (JNum 5)))
     = subjects_txt empty_store
  /\ messages_txt (fst (subjects_add Nodemailer empty_store (JNum 5)))
     = messages_txt empty_store.
Proof.
  refine (proj1 (templates_add_non_string Nodemailer empty_store (JNum 5) _)).
  intros s. discriminate.
Defined.

Lemma filter_r_throwing {A} (test : A -> bool) (e : exn) (l : list A) :
  filter_r (fun x => if test x then Throw e else Ok false) l
  = if existsb test l then Throw e else Ok [].
Proof.
  induction l as [|x l IH]; [reflexivity|]. cbn [filter_r existsb].
  destruct (test x); [reflexivity|]. cbn [bind orb]. rewrite IH.
  destruct (existsb test l); reflexivity.
Qed.

Lemma existsb_filter_nil {A} (test : A -> bool) (l : list A) :
  existsb test l = negb (match List.filter test l with [] => true | _ => false end).
Proof.
  induction l as [|x l IH]; [reflexivity|]. simpl.
  destruct (test x); [reflexivity|exact IH].
Qed.

(** X10. Deleting a subject with a field that is missing or not a string:
    when subjects are listed the answer is 500 and nothing changes; when
    none is listed (no file, or blank lines only) the answer is 200 and the
    list stays empty. *)
Theorem subjects_delete_non_string (st : TStore) (val : jsval) :
  non_string val ->
  (subjects_list st <> [] ->
     exists msg, subjects_delete st val = (st, Json 500 false msg))
  /\ (subjects_list st = [] ->
      snd (subjects_delete st val) = Json 200 true (js "Subject deleted successfully")
      /\ subjects_list (fst (subjects_delete st val)) = []).
Proof.
  intros Hns. pose proof (call_trim_non_string (js "subject") val Hns) as Hmsg.
  unfold subjects_delete, subjects_list.
  destruct (subjects_txt st) as [content|] eqn:Hfile.
  - rewrite Hmsg. cbn [bind].
    rewrite (filter_r_throwing nonblank), existsb_filter_nil.
    split.
    + intros Hne. eexists.
      destruct (List.filter nonblank (split [LF] (toWellFormed content)));
        [congruence|reflexivity].
    + intros ->. cbn [negb bind caught fst snd subjects_txt]. split; reflexivity.
  - split; [congruence|]. intros _. cbn [caught fst snd]. now rewrite Hfile.
Qed.

Lemma subjects_delete_non_string_witness :
  exists msg,
    subjects_delete
      {| templates_dir := true; subjects_txt := Some (js "Hello");
         messages_txt := None |} JUndefined
    = ({| templates_dir := true; subjects_txt := Some (js "Hello");
          messages_txt := None |}, Json 500 false msg).
Proof.
  refine (proj1 (subjects_delete_non_string
                   {| templates_dir := true; subjects_txt := Some (js "Hello");
                      messages_txt := None |} JUndefined _) _).
  - intros s. discriminate.
  - vm_compute. discriminate.
Defined.

(** X11. The first template of an installation without public/templates:
    the nodemailer build answers 500 and stores nothing, the Gmail build
    creates the directory and stores the trimmed text. *)
Theorem first_add_without_templates_dir (st : TStore) (s : jsstring) :
  templates_dir st = false -> subjects_txt st = None -> messages_txt st = None ->
  (exists msg, subjects_add Nodemailer st (JStr s) = (st, Json 500 false msg))
  /\ (exists msg, messages_add Nodemailer st (JStr s) = (st, Json 500 false msg))
  /\ subjects_add GmailApi st (JStr s)
     = ({| templates_dir := true; subjects_txt := Some (trim s);
           messages_txt := None |},
        Json 200 true (js "Subject added successfully"))
  /\ messages_add GmailApi st (JStr s)
     = ({| templates_dir := true; subjects_txt := None;
           messages_txt := Some (DELIM ++ [LF] ++ trim s) |},
        Json 200 true (js "Message added successfully")).
Proof.
  intros Hdir Hsub Hmsg.
  unfold subjects_add, messages_add, ensure_templates_dir.
  cbn [templates_dir subjects_txt messages_txt]. rewrite Hdir, Hsub, Hmsg.
  split; [eexists; reflexivity|]. split; [eexists; reflexivity|].
  split; reflexivity.
Qed.

Lemma first_add_without_templates_dir_witness :
  exists msg,
    subjects_add Nodemailer
      {| templates_dir := false; subjects_txt := None; messages_txt := None |}
      (JStr (js "Hi"))
    = ({| templates_dir := false; subjects_txt := None; messages_txt := None |},
       Json 500 false msg).
Proof.
  exact (proj1 (first_add_without_templates_dir
                  {| templates_dir := false; subjects_txt := None;
                     messages_txt := None |} (js "Hi") eq_refl eq_refl eq_refl)).
Defined.

(* ================================================================= *)
(** ** More on splitting *)

Section SplitMore.

Lemma starts_with_app_mono p x y :
  starts_with p x = true -> starts_with p (x ++ y) = true.
Proof.
  revert x. induction p as [|a p IH]; intros x H; [reflexivity|].
  destruct x as [|b x]; [discriminate|]. simpl in *.
  apply andb_true_iff in H as [H1 H2]. now rewrite H1, IH.
Qed.

Lemma starts_with_length p x :
  starts_with p x = true -> (length p <= length x)%nat.
Proof.
  revert x. induction p as [|a p IH]; intros x H; [simpl; lia|].
  destruct x as [|b x]; [discriminate|]. simpl in *.
  apply andb_true_iff in H as [_ H]. apply IH in H. lia.
Qed.

Lemma contains_app_r p a y : contains p y = true -> contains p (a ++ y) = true.
Proof.
  intros H. induction a as [|c a IH]; [exact H|].
  simpl. now rewrite IH, orb_true_r.
Qed.

Lemma contains_app_l p x b : contains p x = true -> contains p (x ++ b) = true.
Proof.
  induction x as [|c x IH]; intros H.
  - simpl in H. rewrite orb_false_r in H. destruct p; [|discriminate].
    destruct b; reflexivity.
  - simpl in H. apply orb_true_iff in H as [H|H].
    + change ((c :: x) ++ b) with (c :: (x ++ b)).
      cbn [contains]. change (c :: (x ++ b)) with ((c :: x) ++ b).
      now rewrite (starts_with_app_mono _ _ b H).
    + simpl. now rewrite (IH H), orb_true_r.
Qed.

Lemma no_match_inside_contains sep x s :
  sep <> [] -> no_match_inside sep x s -> contains sep x = false.
Proof.
  intros Hsep. induction x as [|c x IH]; intros H.
  - destruct sep; [congruence|reflexivity].
  - simpl. apply orb_false_iff. split.
    + destruct (starts_with sep (c :: x)) eqn:E; [|reflexivity].
      rewrite <- (H [] (c :: x) eq_refl ltac:(discriminate)).
      symmetry. now apply starts_with_app_mono.
    + apply IH. intros a b -> Hb. apply (H (c :: a) b); [reflexivity|exact Hb].
Qed.

Lemma no_match_inside_snoc sep x c r :
  no_match_inside sep x (c :: r) -> starts_with sep (c :: r) = false ->
  no_match_inside sep (x ++ [c]) r.
Proof.
  intros H Hc a b Hab Hb.
  destruct (exists_last Hb) as (b' & d & ->).
  rewrite app_assoc in Hab. apply app_inj_tail in Hab as [-> ->].
  rewrite <- app_assoc. simpl.
  destruct b' as [|e b']; [exact Hc|].
  apply (H a (e :: b')); [reflexivity|discriminate].
Qed.

(** The pieces of a split never hold the separator. *)
Lemma split_go_pieces_free sep s :
  sep <> [] ->
  forall skip cur,
    (skip = 0%nat -> no_match_inside sep (rev cur) s) ->
    (skip <> 0%nat -> cur = []) ->
    Forall (fun p => contains sep p = false) (split_go sep s skip cur).
Proof.
  intros Hsep. induction s as [|c r IH]; intros skip cur H0 H1.
  - simpl. constructor; [|constructor].
    destruct skip as [|k].
    + now apply (no_match_inside_contains sep _ []), H0.
    + rewrite H1 by discriminate. destruct sep; [congruence|reflexivity].
  - assert (Hempty : forall u, no_match_inside sep (rev []) u).
    { intros u a b Hab Hb.
      simpl in Hab. destruct a; [simpl in Hab; congruence|discriminate]. }
    cbn [split_go]. destruct skip as [|k].
    + destruct (starts_with sep (c :: r)) eqn:E.
      * constructor.
        -- apply (no_match_inside_contains sep _ (c :: r) Hsep). now apply H0.
        -- apply IH; [intros _; apply Hempty|intros _; reflexivity].
      * apply IH; [|intros H; now destruct H]. intros _. simpl.
        apply no_match_inside_snoc; [now apply H0|exact E].
    + rewrite H1 by discriminate. apply IH; [intros _; apply Hempty|intros _; reflexivity].
Qed.

Lemma split_pieces_free sep s :
  sep <> [] -> Forall (fun p => contains sep p = false) (split sep s).
Proof.
  intros Hsep. apply split_go_pieces_free; [exact Hsep| |congruence].
  intros _ a b Hab Hb. simpl in Hab.
  destruct a; [simpl in Hab; congruence|discriminate].
Qed.

(** Splitting at one code unit distributes over an occurrence of it. *)
Lemma split_go_single_app c x y cur :
  split_go [c] (x ++ c :: y) 0 cur = split_go [c] x 0 cur ++ split_go [c] y 0 [].
Proof.
  revert cur. induction x as [|b x IH]; intros cur.
  - simpl. now rewrite N.eqb_refl.
  - cbn [app split_go starts_with length Nat.pred]. rewrite !andb_true_r.
    destruct (c =? b); [|apply IH]. simpl. now rewrite IH.
Qed.

Lemma split_single_app c x y :
  split [c] (x ++ c :: y) = split [c] x ++ split [c] y.
Proof. apply split_go_single_app. Qed.

Lemma trimStart_suffix s : exists a, s = a ++ trimStart s.
Proof.
  induction s as [|c s [a IH]]; [now exists []|]. simpl.
  destruct (is_ws c); [|now exists []].
  exists (c :: a). simpl. now rewrite <- IH.
Qed.

Lemma trim_substring s : exists a b, s = a ++ trim s ++ b.
Proof.
  unfold trim, trimEnd. destruct (trimStart_suffix s) as [a Ha].
  destruct (trimStart_suffix (rev (trimStart s))) as [b Hb].
  exists a, (rev b). rewrite Ha at 1. f_equal.
  rewrite <- (rev_involutive (trimStart s)) at 1. rewrite Hb at 1.
  now rewrite rev_app_distr.
Qed.

Lemma contains_trim p s : contains p s = false -> contains p (trim s) = false.
Proof.
  intros H. destruct (contains p (trim s)) eqn:E; [|reflexivity].
  destruct (trim_substring s) as (a & b & Hs).
  rewrite Hs in H. rewrite contains_app_r in H; [discriminate|].
  now apply contains_app_l.
Qed.

Lemma trimStart_snoc_ws l c :
  is_ws c = true ->
  trimStart (l ++ [c]) = match trimStart l with [] => [] | t => t ++ [c] end.
Proof.
  intros Hc. induction l as [|a l IH]; simpl; [now rewrite Hc|].
  destruct (is_ws a); [exact IH|reflexivity].
Qed.

Lemma trim_snoc_ws l c : is_ws c = true -> trim (l ++ [c]) = trim l.
Proof.
  intros Hc. unfold trim. rewrite trimStart_snoc_ws by exact Hc.
  destruct (trimStart l) as [|a t]; [reflexivity|].
  now apply trimEnd_snoc_ws.
Qed.

End SplitMore.

(* ================================================================= *)
(** ** Subjects: adding *)

Lemma subjects_of_content (st : TStore) :
  List.filter nonblank (split [LF] (toWellFormed (default [] (subjects_txt st))))
  = subjects_list st.
Proof. unfold subjects_list. destruct (subjects_txt st); reflexivity. Qed.

Lemma includes_In (l : list jsstring) (x : jsstring) :
  includes l x = true <-> In x l.
Proof.
  unfold includes. rewrite existsb_exists. split.
  - intros (y & Hy & E). unfold str_eqb in E.
    apply bool_decide_eq_true_1 in E. now subst.
  - intros H. exists x. split; [exact H|].
    unfold str_eqb. now apply bool_decide_eq_true_2.
Qed.

Lemma subjects_list_entries (st : TStore) :
  Forall (fun e => nonblank e = true /\ ~ In LF e) (subjects_list st).
Proof.
  unfold subjects_list. destruct (subjects_txt st) as [content|]; [|constructor].
  apply List.Forall_forall. intros e He. apply filter_In in He as [He Hnb].
  split; [exact Hnb|].
  pose proof (split_single_free LF (toWellFormed content)) as Hfree.
  rewrite List.Forall_forall in Hfree. now apply Hfree.
Qed.

(** What adding a subject does to the list, whatever the subject. *)
Lemma subjects_add_list (v : variant) (st : TStore) (s : jsstring) :
  can_append v (templates_dir st) (subjects_txt st) ->
  well_formed (trim s) ->
  snd (subjects_add v st (JStr s)) = Json 200 true (js "Subject added successfully")
  /\ subjects_list (fst (subjects_add v st (JStr s)))
     = if includes (subjects_list st) (trim s) then subjects_list st
       else subjects_list st ++ listed_lines (trim s).
Proof.
  intros Hcan Hwf. unfold subjects_add.
  destruct (ensure_templates_dir_files v st) as [E1 _].
  rewrite E1, subjects_of_content. cbn [call_trim bind].
  destruct (includes (subjects_list st) (trim s)) eqn:Hinc; cbn [negb].
  - cbn [caught fst snd]. split; [reflexivity|].
    unfold subjects_list. now rewrite E1.
  - rewrite sep_before_read.
    assert (Happ : appendFileSync (templates_dir (ensure_templates_dir v st))
                     (subjects_txt st)
                     (sep_before (default [] (subjects_txt st)) ++ trim s)
                   = Ok (default [] (subjects_txt st)
                         ++ sep_before (default [] (subjects_txt st)) ++ trim s)).
    { unfold appendFileSync. destruct (subjects_txt st) as [content|] eqn:Hf;
        [reflexivity|].
      assert (Hdir : templates_dir (ensure_templates_dir v st) = true).
      { destruct Hcan as [-> | [Hd | Hd]]; [reflexivity| |congruence].
        destruct v; [exact Hd|reflexivity]. }
      now rewrite Hdir. }
    rewrite Happ. cbn [bind caught fst snd]. split; [reflexivity|].
    unfold subjects_list at 1. cbn [subjects_txt].
    rewrite <- subjects_of_content. unfold well_formed in Hwf.
    destruct (default [] (subjects_txt st)) as [|c content].
    + cbn [sep_before is_empty app]. rewrite Hwf. reflexivity.
    + cbn [sep_before is_empty].
      rewrite (toWellFormed_app_sep (c :: content) [LF] (trim s))
        by (discriminate || apply LF_plain).
      rewrite Hwf. set (w := toWellFormed (c :: content)).
      change (w ++ [LF] ++ trim s) with (w ++ LF :: trim s).
      rewrite split_single_app, List.filter_app. reflexivity.
Qed.

Lemma listed_lines_single (t : jsstring) :
  trimmed t -> ~ In LF t -> listed_lines t = if is_empty t then [] else [t].
Proof.
  intros Ht Hfree. unfold listed_lines, split.
  rewrite split_go_last; [|discriminate|now apply contains_single_false].
  cbn [rev app List.filter]. unfold nonblank.
  rewrite (trim_of_trimmed t Ht). destruct (is_empty t); reflexivity.
Qed.

(** X12. Adding a one-line subject of well-formed text: the answer is 200;
    a subject that is listed already, or is blank, leaves the list as it
    is; any other is listed last, trimmed, after the entries there were;
    and a list without repetitions stays without repetitions. *)
Theorem subjects_add_appends_once (v : variant) (st : TStore) (s : jsstring) :
  can_append v (templates_dir st) (subjects_txt st) ->
  well_formed s -> ~ In LF (trim s) ->
  snd (subjects_add v st (JStr s)) = Json 200 true (js "Subject added successfully")
  /\ subjects_list (fst (subjects_add v st (JStr s)))
     = (if includes (subjects_list st) (trim s) || is_empty (trim s)
        then subjects_list st
        else subjects_list st ++ [trim s])
  /\ (List.NoDup (subjects_list st) ->
      List.NoDup (subjects_list (fst (subjects_add v st (JStr s))))).
Proof.
  intros Hcan Hwf Hfree.
  destruct (subjects_add_list v st s Hcan (well_formed_trim s Hwf)) as [Hr Hl].
  assert (E : subjects_list (fst (subjects_add v st (JStr s)))
              = (if includes (subjects_list st) (trim s) || is_empty (trim s)
                 then subjects_list st
                 else subjects_list st ++ [trim s])).
  { rewrite Hl, (listed_lines_single _ (trim_trimmed s) Hfree).
    destruct (includes (subjects_list st) (trim s)); [reflexivity|].
    destruct (is_empty (trim s)); [now rewrite app_nil_r|reflexivity]. }
  split; [exact Hr|]. split; [exact E|].
  intros Hnd. rewrite E.
  destruct (includes (subjects_list st) (trim s)) eqn:Hinc; [exact Hnd|].
  destruct (is_empty (trim s)); [exact Hnd|]. cbn [orb].
  apply NoDup_ListNoDup, NoDup_app. split; [now apply NoDup_ListNoDup|]. split.
  - intros x Hx Hx'. apply list_elem_of_In in Hx.
    apply list_elem_of_In in Hx' as [<-|[]].
    apply includes_In in Hx. congruence.
  - apply NoDup_ListNoDup. repeat constructor. intros [].
Qed.

Lemma subjects_add_appends_once_witness :
  subjects_list
    (fst (subjects_add Nodemailer
            {| templates_dir := true; subjects_txt := Some (js "Hello");
               messages_txt := None |} (JStr (js "  Offer  "))))
  = [js "Hello"; js "Offer"].
Proof.
  refine (proj1 (proj2 (subjects_add_appends_once Nodemailer
                          {| templates_dir := true; subjects_txt := Some (js "Hello");
                             messages_txt := None |} (js "  Offer  ") _ _ _))).
  - right. left. reflexivity.
  - reflexivity.
  - vm_compute. intuition discriminate.
Defined.



(* ================================================================= *)
(** ** Messages: listing, deleting, adding to any file *)

Lemma messages_list_entries_all (st : TStore) :
  Forall (fun e => trimmed e /\ e <> [] /\ contains DELIM e = false)
    (messages_list st).
Proof.
  unfold messages_list. destruct (messages_txt st) as [content|]; [|constructor].
  apply List.Forall_forall. intros e He.
  apply in_map_iff in He as (m & <- & Hm). apply filter_In in Hm as [Hm Hnb].
  split; [apply trim_trimmed|]. split.
  - unfold nonblank in Hnb. now destruct (trim m).
  - apply contains_trim.
    pose proof (split_pieces_free DELIM (toWellFormed content) DELIM_nonempty)
      as Hfree.
    rewrite List.Forall_forall in Hfree. now apply Hfree.
Qed.

(** X14. Whatever the template files hold, GET /templates/subjects gives
    lines that are not blank and hold no line feed, and GET
    /templates/messages gives entries that are trimmed, not empty and free
    of the delimiter token. *)
Theorem listed_templates_are_well_formed (st : TStore) :
  Forall (fun e => nonblank e = true /\ ~ In LF e) (subjects_list st)
  /\ Forall (fun e => trimmed e /\ e <> [] /\ contains DELIM e = false)
       (messages_list st).
Proof. split; [apply subjects_list_entries|apply messages_list_entries_all]. Qed.

Lemma join_blocks_encoded (kept : list jsstring) :
  kept <> [] ->
  join [LF] (List.map (fun msg => DELIM ++ [LF] ++ trim msg) kept) = encoded kept.
Proof.
  unfold encoded. induction kept as [|m kept IH]; [congruence|]. intros _.
  destruct kept as [|m' kept]; [reflexivity|].
  change (List.map ?f (m :: ?l)) with (f m :: List.map f l).
  rewrite !join_cons by discriminate. rewrite IH by discriminate.
  cbn beta. rewrite <- !app_assoc. reflexivity.
Qed.

(** Reading back a file written from blocks of trimmed, non-empty entries
    without the delimiter. *)
Lemma list_of_encoded (kept : list jsstring) :
  Forall (fun m => trim m <> [] /\ contains DELIM (trim m) = false) kept ->
  List.map trim
    (List.filter nonblank
       (split DELIM (join [LF] (List.map (fun msg => DELIM ++ [LF] ++ trim msg) kept))))
  = List.map trim kept.
Proof.
  intros Hall. destruct kept as [|m kept]; [reflexivity|].
  rewrite join_blocks_encoded by discriminate.
  unfold encoded, split. rewrite split_go_match by exact DELIM_nonempty.
  assert (E : List.map (fun m0 => LF :: trim m0) (m :: kept)
              = List.map (cons LF) (List.map trim (m :: kept)))
    by now rewrite map_map.
  rewrite E, split_encoded_tail.
  - change (List.filter nonblank (rev [] :: ?l)) with (List.filter nonblank l).
    rewrite trim_pieces.
    + apply filter_all. apply Forall_map.
      eapply List.Forall_impl; [|exact Hall].
      intros a [Ha _]. simpl. now destruct (trim a).
    + apply Forall_map. apply Forall_forall. intros x _. apply trim_trimmed.
  - discriminate.
  - apply Forall_map. eapply List.Forall_impl; [|exact Hall]. now intros a [_ Ha].
Qed.

(** The file that the delete handler writes reads back as it was written. *)
Lemma blocks_well_formed (kept : list jsstring) :
  Forall well_formed kept ->
  well_formed (join [LF] (List.map (fun msg => DELIM ++ [LF] ++ trim msg) kept)).
Proof.
  intros H. apply (well_formed_join [LF]); [discriminate|apply LF_plain|].
  apply Forall_map. eapply List.Forall_impl; [|exact H]. intros m Hm.
  apply (well_formed_after_plain DELIM _ DELIM_plain).
  apply (well_formed_after_plain [LF] _ LF_plain). now apply well_formed_trim.
Qed.

Lemma map_filter_trim (test : jsstring -> bool) (l : list jsstring) :
  List.map trim (List.filter (fun m => test (trim m)) l)
  = List.filter test (List.map trim l).
Proof.
  induction l as [|m l IH]; [reflexivity|]. simpl.
  destruct (test (trim m)); simpl; now rewrite IH.
Qed.

(** X15. POST /templates/messages/delete with a string always answers 200;
    the list afterwards is the list before without the entries equal to the
    trimmed input, the others in their order, and the trimmed input is no
    longer listed. *)
Theorem messages_delete_removes_matching (st : TStore) (s : jsstring) :
  snd (messages_delete st (JStr s))
  = Json 200 true (js "Message deleted successfully")
  /\ messages_list (fst (messages_delete st (JStr s)))
     = List.filter (fun e => negb (str_eqb e (trim s))) (messages_list st)
  /\ ~ In (trim s) (messages_list (fst (messages_delete st (JStr s)))).
Proof.
  assert (H : snd (messages_delete st (JStr s))
              = Json 200 true (js "Message deleted successfully")
              /\ messages_list (fst (messages_delete st (JStr s)))
                 = List.filter (fun e => negb (str_eqb e (trim s))) (messages_list st)).
  { unfold messages_delete, messages_list.
    destruct (messages_txt st) as [content|] eqn:Hfile.
    - rewrite (filter_r_total _
                 (fun m => nonblank m && negb (str_eqb (trim m) (trim s)))).
      + rewrite filter_conj. cbn [bind caught fst snd messages_txt].
        split; [reflexivity|].
        rewrite blocks_well_formed
          by (do 2 apply Forall_filter_keep;
              apply (well_formed_split DELIM DELIM_nonempty DELIM_plain);
              apply toWellFormed_idem).
        rewrite list_of_encoded.
        * apply (map_filter_trim (fun e => negb (str_eqb e (trim s)))).
        * apply Forall_filter_keep. apply List.Forall_forall. intros m Hm.
          apply filter_In in Hm as [Hm Hnb]. split.
          -- unfold nonblank in Hnb. now destruct (trim m).
          -- apply contains_trim.
             pose proof (split_pieces_free DELIM (toWellFormed content)
                           DELIM_nonempty) as Hfree.
             rewrite List.Forall_forall in Hfree. now apply Hfree.
      + intros m. destruct (nonblank m); reflexivity.
    - cbn [caught fst snd]. rewrite Hfile. split; reflexivity. }
  destruct H as [H1 H2]. split; [exact H1|]. split; [exact H2|].
  rewrite H2. intros Hin. apply filter_In in Hin as [_ Hk].
  unfold str_eqb in Hk. rewrite bool_decide_eq_true_2 in Hk by reflexivity.
  discriminate.
Qed.

Section AcrossNewline.

Variable sep : jsstring.
Hypothesis sep_no_newline : ~ In LF sep.
Hypothesis sep_nonempty : sep <> [].

Lemma removelast_cons_nonempty {A} (a : A) (l : list A) :
  l <> [] -> removelast (a :: l) = a :: removelast l.
Proof. destruct l; [congruence|reflexivity]. Qed.

Lemma last_cons_nonempty {A} (a d : A) (l : list A) :
  l <> [] -> List.last (a :: l) d = List.last l d.
Proof. destruct l; [congruence|reflexivity]. Qed.

(** A split runs through a line feed as if the text ended there, then goes
    on with the last piece open. *)
Lemma split_go_app_newline x y :
  forall skip cur,
    (skip <= length x)%nat ->
    split_go sep (x ++ LF :: y) skip cur
    = removelast (split_go sep x skip cur)
      ++ split_go sep (LF :: y) 0 (rev (List.last (split_go sep x skip cur) [])).
Proof.
  induction x as [|c x IH]; intros skip cur Hskip.
  - simpl in Hskip. replace skip with 0%nat by lia.
    change (split_go sep [] 0 cur) with [rev cur].
    cbn [app removelast List.last]. now rewrite rev_involutive.
  - change ((c :: x) ++ LF :: y) with (c :: (x ++ LF :: y)).
    destruct skip as [|k].
    + cbn [split_go].
      change (c :: x ++ LF :: y) with ((c :: x) ++ LF :: y).
      rewrite (starts_with_across_newline sep (c :: x) y sep_no_newline sep_nonempty).
      destruct (starts_with sep (c :: x)) eqn:E.
      * apply starts_with_length in E. simpl in E.
        rewrite IH by lia.
        rewrite removelast_cons_nonempty by apply split_go_nonempty.
        rewrite last_cons_nonempty by apply split_go_nonempty.
        reflexivity.
      * apply IH. lia.
    + cbn [split_go]. apply IH. simpl in Hskip. lia.
Qed.

End AcrossNewline.

(** The pieces of a text that goes on with a line feed, the delimiter, a
    line feed and an entry without the delimiter. *)
Lemma split_appended_block (content t : jsstring) :
  contains DELIM t = false ->
  split DELIM (content ++ [LF] ++ DELIM ++ [LF] ++ t)
  = removelast (split DELIM content)
    ++ [List.last (split DELIM content) [] ++ [LF]; LF :: t].
Proof.
  intros Ht. unfold split.
  change (content ++ [LF] ++ DELIM ++ [LF] ++ t)
    with (content ++ LF :: (DELIM ++ LF :: t)).
  rewrite (split_go_app_newline DELIM DELIM_no_newline DELIM_nonempty) by (simpl; lia).
  f_equal.
  change (split_go DELIM (LF :: DELIM ++ LF :: t) 0 ?c)
    with (split_go DELIM (DELIM ++ LF :: t) 0 (LF :: c)).
  rewrite split_go_match by exact DELIM_nonempty.
  rewrite (split_go_last DELIM (LF :: t) []); [|exact DELIM_nonempty|].
  - cbn [rev app]. now rewrite rev_involutive.
  - now rewrite (contains_newline_cons DELIM t DELIM_no_newline DELIM_nonempty).
Qed.

Lemma removelast_last_split sep s :
  split sep s = removelast (split sep s) ++ [List.last (split sep s) []].
Proof. apply app_removelast_last, split_go_nonempty. Qed.

(** X16. Adding a message of well-formed text without the delimiter token to
    any messages.txt: the answer is 200 and the list is the list before
    with the trimmed message after it, or the list before when the message
    is blank. *)
Theorem messages_add_appends (v : variant) (st : TStore) (m : jsstring) :
  can_append v (templates_dir st) (messages_txt st) ->
  well_formed m -> contains DELIM (trim m) = false ->
  snd (messages_add v st (JStr m)) = Json 200 true (js "Message added successfully")
  /\ messages_list (fst (messages_add v st (JStr m)))
     = messages_list st ++ (if is_empty (trim m) then [] else [trim m]).
Proof.
  intros Hcan Hwf Hfree. unfold messages_add.
  destruct (ensure_templates_dir_files v st) as [_ E2]. rewrite E2.
  cbn [call_trim bind]. rewrite sep_before_read.
  assert (Hblock : toWellFormed (DELIM ++ [LF] ++ trim m) = DELIM ++ [LF] ++ trim m).
  { apply (well_formed_after_plain DELIM _ DELIM_plain).
    apply (well_formed_after_plain [LF] _ LF_plain). now apply well_formed_trim. }
  assert (Happ : appendFileSync (templates_dir (ensure_templates_dir v st))
                   (messages_txt st)
                   (sep_before (default [] (messages_txt st))
                    ++ DELIM ++ [LF] ++ trim m)
                 = Ok (default [] (messages_txt st)
                       ++ sep_before (default [] (messages_txt st))
                       ++ DELIM ++ [LF] ++ trim m)).
  { unfold appendFileSync. destruct (messages_txt st) as [content|] eqn:Hf;
      [reflexivity|].
    assert (Hdir : templates_dir (ensure_templates_dir v st) = true).
    { destruct Hcan as [-> | [Hd | Hd]]; [reflexivity| |congruence].
      destruct v; [exact Hd|reflexivity]. }
    now rewrite Hdir. }
  rewrite Happ. cbn [bind caught fst snd]. split; [reflexivity|].
  destruct (trim_between_newlines (trim m) (trim_trimmed m)) as [_ Etrim].
  assert (Hnew : List.map trim (List.filter nonblank [LF :: trim m])
                 = if is_empty (trim m) then [] else [trim m]).
  { cbn [List.filter]. unfold nonblank. rewrite Etrim.
    destruct (is_empty (trim m)); [reflexivity|]. cbn [negb List.map].
    now rewrite Etrim. }
  unfold messages_list at 1. cbn [messages_txt].
  assert (Hold : messages_list st
                 = List.map trim
                     (List.filter nonblank
                        (split DELIM (toWellFormed (default [] (messages_txt st)))))).
  { unfold messages_list. destruct (messages_txt st); reflexivity. }
  rewrite Hold.
  destruct (default [] (messages_txt st)) as [|c content].
  - change ([] ++ sep_before [] ++ DELIM ++ [LF] ++ trim m)
      with (DELIM ++ [LF] ++ trim m).
    rewrite Hblock. unfold split.
    rewrite split_go_match by exact DELIM_nonempty.
    change ([LF] ++ trim m) with (LF :: trim m).
    rewrite (split_go_last DELIM (LF :: trim m) []); [|exact DELIM_nonempty|].
    + exact Hnew.
    + now rewrite (contains_newline_cons DELIM _ DELIM_no_newline DELIM_nonempty).
  - change (sep_before (c :: content)) with [LF].
    rewrite (toWellFormed_app_sep (c :: content) [LF] (DELIM ++ [LF] ++ trim m))
      by (discriminate || apply LF_plain).
    rewrite Hblock. set (w := toWellFormed (c :: content)).
    rewrite split_appended_block by exact Hfree.
    rewrite (removelast_last_split DELIM w) at 3.
    rewrite !List.filter_app, !map_app, <- app_assoc. f_equal.
    change [?a; ?b] with ([a] ++ [b]).
    rewrite List.filter_app, map_app, Hnew. f_equal.
    cbn [List.filter]. unfold nonblank.
    rewrite (trim_snoc_ws _ LF eq_refl).
    destruct (is_empty (trim (List.last (split DELIM w) []))); [reflexivity|].
    cbn [negb List.map]. now rewrite (trim_snoc_ws _ LF eq_refl).
Qed.

Lemma messages_add_appends_witness :
  messages_list
    (fst (messages_add Nodemailer
            {| templates_dir := true; subjects_txt := None;
               messages_txt := Some (js "free text---MESSAGE---first") |}
            (JStr (js " second "))))
  = messages_list
      {| templates_dir := true; subjects_txt := None;
         messages_txt := Some (js "free text---MESSAGE---first") |}
    ++ (if is_empty (trim (js " second ")) then [] else [trim (js " second ")]).
Proof.
  refine (proj2 (messages_add_appends Nodemailer
                   {| templates_dir := true; subjects_txt := None;
                      messages_txt := Some (js "free text---MESSAGE---first") |}
                   (js " second ") _ _ _)).
  - right. left. reflexivity.
  - reflexivity.
  - reflexivity.
Defined.

(* ================================================================= *)
(** ** getMimeType: the type by the last extension *)

Lemma ext_loop_app a b : forall i st,
  ext_loop (a ++ b) i st
  = ext_loop b (i - Z.of_nat (length a))%Z (ext_loop a i st).
Proof.
  induction a as [|c a IH]; intros i st.
  - cbn [app ext_loop length]. f_equal. lia.
  - cbn [app ext_loop length]. rewrite IH. f_equal. lia.
Qed.

Lemma ext_step_no_dot st i c :
  c <> DOT -> startDot st = (-1)%Z -> startDot (ext_step st i c) = (-1)%Z.
Proof.
  intros Hc Hs. apply N.eqb_neq in Hc. unfold ext_step. rewrite Hc.
  repeat match goal with
         | |- context [if ?b then _ else _] => destruct b
         end; simpl; auto.
Qed.

Lemma ext_loop_no_dot r : forall i st,
  ~ In DOT r -> startDot st = (-1)%Z -> startDot (ext_loop r i st) = (-1)%Z.
Proof.
  induction r as [|c r IH]; intros i st Hr Hs; [exact Hs|].
  cbn [ext_loop]. apply IH.
  - intros H. apply Hr. now right.
  - apply ext_step_no_dot; [|exact Hs]. intros ->. apply Hr. now left.
Qed.

(** X17. A file name without a dot has no extension and gets the default
    type application/octet-stream. *)
Theorem getMimeType_without_dot (name : jsstring) :
  ~ In DOT name ->
  extname name = [] /\ getMimeType name = js "application/octet-stream".
Proof.
  intros Hn. assert (E : extname name = []).
  { unfold extname. cbv zeta.
    rewrite ext_loop_no_dot; [reflexivity| |reflexivity].
    rewrite <- in_rev. exact Hn. }
  split; [exact E|]. unfold getMimeType. rewrite E. reflexivity.
Qed.

Lemma getMimeType_without_dot_witness :
  getMimeType (js "Makefile") = js "application/octet-stream".
Proof.
  refine (proj2 (getMimeType_without_dot (js "Makefile") _)).
  vm_compute. intuition discriminate.
Defined.

Lemma ext_step_init i c :
  c <> DOT -> c <> SLASH -> ext_step ext_init i c = ext_found (-1) (i + 1) 0.
Proof.
  intros Hd Hs. apply N.eqb_neq in Hd, Hs.
  unfold ext_step, ext_init, ext_found. cbn. rewrite Hd, Hs. reflexivity.
Qed.

Lemma ext_step_plain e i c :
  c <> DOT -> c <> SLASH -> e <> (-1)%Z ->
  ext_step (ext_found (-1) e 0) i c = ext_found (-1) e 0.
Proof.
  intros Hd Hs He. apply N.eqb_neq in Hd, Hs. apply Z.eqb_neq in He.
  unfold ext_step, ext_found. cbn. rewrite Hd, Hs, He. reflexivity.
Qed.

Lemma ext_loop_plain r : forall i e,
  ~ In DOT r -> ~ In SLASH r -> e <> (-1)%Z ->
  ext_loop r i (ext_found (-1) e 0) = ext_found (-1) e 0.
Proof.
  induction r as [|c r IH]; intros i e Hd Hs He; [reflexivity|].
  cbn [ext_loop]. rewrite ext_step_plain.
  - apply IH; [| |exact He]; intros H; [apply Hd|apply Hs]; now right.
  - intros ->. apply Hd. now left.
  - intros ->. apply Hs. now left.
  - exact He.
Qed.

Lemma ext_step_dot e i :
  e <> (-1)%Z -> ext_step (ext_found (-1) e 0) i DOT = ext_found i e 0.
Proof.
  intros He. apply Z.eqb_neq in He.
  unfold ext_step, ext_found. cbn. rewrite He. reflexivity.
Qed.

Lemma ext_step_stem k e pd i c :
  c <> SLASH -> k <> (-1)%Z -> e <> (-1)%Z ->
  exists pd', pd' <> 0%Z /\ ext_step (ext_found k e pd) i c = ext_found k e pd'.
Proof.
  intros Hs Hk He. apply N.eqb_neq in Hs. apply Z.eqb_neq in Hk, He.
  unfold ext_step, ext_found. cbn. rewrite Hs, He. cbn.
  destruct (c =? DOT); rewrite Hk; cbn.
  - destruct (pd =? 1)%Z eqn:E; cbn.
    + apply Z.eqb_eq in E. subst pd. exists 1%Z. split; [lia|reflexivity].
    + exists 1%Z. split; [lia|reflexivity].
  - exists (-1)%Z. split; [lia|reflexivity].
Qed.

Lemma ext_loop_stem k e r : forall i pd,
  ~ In SLASH r -> k <> (-1)%Z -> e <> (-1)%Z ->
  exists pd', (r <> [] \/ pd <> 0%Z -> pd' <> 0%Z)
              /\ ext_loop r i (ext_found k e pd) = ext_found k e pd'.
Proof.
  induction r as [|c r IH]; intros i pd Hs Hk He.
  - exists pd. split; [|reflexivity]. intros [H|H]; [congruence|exact H].
  - cbn [ext_loop].
    destruct (ext_step_stem k e pd i c) as (pd1 & Hpd1 & ->);
      [intros ->; apply Hs; now left|exact Hk|exact He|].
    destruct (IH (i - 1)%Z pd1) as (pd2 & Hpd2 & ->);
      [intros H; apply Hs; now right|exact Hk|exact He|].
    exists pd2. split; [|reflexivity]. intros _. apply Hpd2. now right.
Qed.

Lemma ext_loop_dotted (stem ext : jsstring) :
  stem <> [] -> ~ In SLASH stem ->
  ext <> [] -> ~ In SLASH ext -> ~ In DOT ext ->
  exists pd, pd <> 0%Z
    /\ ext_loop (rev (stem ++ DOT :: ext))
         (Z.of_nat (length (stem ++ DOT :: ext)) - 1) ext_init
       = ext_found (Z.of_nat (length stem))
           (Z.of_nat (length (stem ++ DOT :: ext))) pd.
Proof.
  intros Hs Hss He Hes Hed.
  assert (Hlen : length (stem ++ DOT :: ext)
                 = (length stem + S (length (rev ext)))%nat).
  { rewrite length_app, length_rev. reflexivity. }
  rewrite Hlen. rewrite rev_app_distr. cbn [rev]. rewrite <- !app_assoc.
  cbn [app].
  assert (Hrs : ~ In SLASH (rev ext)) by now rewrite <- in_rev.
  assert (Hrd : ~ In DOT (rev ext)) by now rewrite <- in_rev.
  assert (Hst : ~ In SLASH (rev stem)) by now rewrite <- in_rev.
  assert (Hne : rev stem <> []).
  { intros E. apply Hs. rewrite <- (rev_involutive stem), E. reflexivity. }
  destruct (rev ext) as [|c r] eqn:E.
  { exfalso. apply He. rewrite <- (rev_involutive ext), E. reflexivity. }
  cbn [app ext_loop].
  rewrite ext_step_init;
    [|intros ->; apply Hrd; now left|intros ->; apply Hrs; now left].
  rewrite ext_loop_app.
  rewrite ext_loop_plain;
    [|intros H; apply Hrd; now right|intros H; apply Hrs; now right
     |cbn [length]; lia].
  cbn [ext_loop]. rewrite ext_step_dot by (cbn [length]; lia).
  match goal with
  | |- context [ext_loop (rev stem) ?i (ext_found ?k ?e 0)] =>
      destruct (ext_loop_stem k e (rev stem) i 0%Z Hst) as (pd & Hpd & ->);
        [cbn [length]; lia|cbn [length]; lia|]
  end.
  exists pd. split; [apply Hpd; now left|].
  unfold ext_found. cbn [length]. f_equal; lia.
Qed.

Lemma skipn_app_length {A} (a b : list A) : skipn (length a) (a ++ b) = b.
Proof. induction a as [|x a IH]; [reflexivity|exact IH]. Qed.

Lemma extname_dotted (stem ext : jsstring) :
  stem <> [] -> ~ In SLASH stem ->
  ext <> [] -> ~ In SLASH ext -> ~ In DOT ext ->
  extname (stem ++ DOT :: ext) = DOT :: ext.
Proof.
  intros Hs Hss He Hes Hed.
  destruct (ext_loop_dotted stem ext Hs Hss He Hes Hed) as (pd & Hpd & E).
  unfold extname. cbv zeta. rewrite E. unfold ext_found.
  cbn [startDot end_ preDotState startPart].
  assert (Hl : length (stem ++ DOT :: ext) = (length stem + S (length ext))%nat)
    by now rewrite length_app.
  assert (Hext : (0 < length ext)%nat) by (destruct ext; [congruence|simpl; lia]).
  assert (C1 : (Z.of_nat (length stem) =? -1)%Z = false) by (apply Z.eqb_neq; lia).
  assert (C2 : (Z.of_nat (length (stem ++ DOT :: ext)) =? -1)%Z = false)
    by (apply Z.eqb_neq; lia).
  assert (C3 : (pd =? 0)%Z = false) by (apply Z.eqb_neq; exact Hpd).
  assert (C4 : (Z.of_nat (length stem)
                =? Z.of_nat (length (stem ++ DOT :: ext)) - 1)%Z = false)
    by (apply Z.eqb_neq; lia).
  rewrite C1, C2, C3, C4, andb_false_r. cbn [orb andb].
  rewrite Nat2Z.id.
  replace (Z.to_nat (Z.of_nat (length (stem ++ DOT :: ext)) - Z.of_nat (length stem)))
    with (length (DOT :: ext)) by (cbn [length]; lia).
  rewrite skipn_app_length. apply firstn_all.
Qed.

(** X18. A file name with a stem, a dot and an extension (no slash, no
    further dot in the extension): the extension is what follows the last
    dot, and the type is the one listed for the extension with the letters A
    to Z in lower case, application/octet-stream when none is listed. *)
Theorem getMimeType_by_extension (stem ext : jsstring) :
  stem <> [] -> ~ In SLASH stem ->
  ext <> [] -> ~ In SLASH ext -> ~ In DOT ext ->
  extname (stem ++ DOT :: ext) = DOT :: ext
  /\ (forall k v, In (k, v) mimeTypes -> toLowerCase (DOT :: ext) = k ->
        getMimeType (stem ++ DOT :: ext) = v)
  /\ ((forall k v, In (k, v) mimeTypes -> toLowerCase (DOT :: ext) <> k) ->
      getMimeType (stem ++ DOT :: ext) = octet_stream).
Proof.
  intros Hs Hss He Hes Hed.
  pose proof (extname_dotted stem ext Hs Hss He Hes Hed) as E.
  split; [exact E|]. unfold getMimeType. cbv zeta. rewrite E. split.
  - intros k v Hin <-. now rewrite (assoc_listed _ v Hin).
  - intros Hno. now rewrite (assoc_unlisted _ _ Hno).
Qed.

Lemma getMimeType_by_extension_witness :
  extname (js "report.v2" ++ DOT :: js "PDF") = DOT :: js "PDF"
  /\ getMimeType (js "report.v2" ++ DOT :: js "PDF") = js "application/pdf".
Proof.
  pose proof (getMimeType_by_extension (js "report.v2") (js "PDF")
                ltac:(discriminate)
                ltac:(vm_compute; intuition discriminate)
                ltac:(discriminate)
                ltac:(vm_compute; intuition discriminate)
                ltac:(vm_compute; intuition discriminate)) as (H1 & H2 & _).
  split; [exact H1|].
  apply (H2 (js ".pdf")); [vm_compute; left; reflexivity|reflexivity].
Defined.

(* ================================================================= *)
(** ** The staged name of an upload *)

Lemma pretty_N_char_digit (x : N) : digit (pretty_N_char x).
Proof.
  unfold digit, pretty_N_char.
  repeat match goal with
         | |- context [match ?y with _ => _ end] => destruct y
         end; cbn; lia.
Qed.

Lemma pretty_N_go_digits (x : N) : forall s,
  Forall digit (list_ascii_of_string s) ->
  Forall digit (list_ascii_of_string (pretty_N_go x s)).
Proof.
  induction (N.lt_wf_0 x) as [x _ IH]. intros s Hs.
  destruct (N.eq_dec x 0) as [->|Hx]; [now rewrite pretty_N_go_0|].
  rewrite pretty_N_go_step by lia.
  apply IH; [apply N.div_lt; lia|].
  cbn [list_ascii_of_string]. constructor; [apply pretty_N_char_digit|exact Hs].
Qed.

Lemma pretty_N_digits (t : N) : Forall digit (list_ascii_of_string (pretty t)).
Proof.
  unfold pretty, pretty_N. destruct (decide (t = 0)).
  - repeat constructor; unfold digit; cbn; lia.
  - apply pretty_N_go_digits. constructor.
Qed.

(** The clock reading is written in digits: no hyphen in it. *)
Lemma clock_without_hyphen (t : N) : ~ In MINUS (js (pretty t)).
Proof.
  unfold js. intros H. apply in_map_iff in H as (a & Ha & Hin).
  pose proof (pretty_N_digits t) as Hd. rewrite List.Forall_forall in Hd.
  apply Hd in Hin. unfold digit in Hin. rewrite Ha in Hin.
  unfold MINUS in Hin. lia.
Qed.

Lemma first_hyphen (a b x y : jsstring) :
  ~ In MINUS a -> ~ In MINUS b ->
  a ++ MINUS :: x = b ++ MINUS :: y -> a = b /\ x = y.
Proof.
  revert b. induction a as [|c a IH]; intros [|d b] Ha Hb H.
  - injection H as ->. split; reflexivity.
  - exfalso. injection H as <- _. apply Hb. now left.
  - exfalso. injection H as -> _. apply Ha. now left.
  - injection H as <- H.
    destruct (IH b) as [-> ->]; [| |exact H|split; reflexivity].
    + intros Hin. apply Ha. now right.
    + intros Hin. apply Hb. now right.
Qed.

Lemma multer_path_inj (t1 t2 : N) (n1 n2 : jsstring) :
  multer_path t1 n1 = multer_path t2 n2 -> t1 = t2 /\ n1 = n2.
Proof.
  unfold multer_path. intros H. apply path_join_inj in H.
  change (js "-" ++ ?n) with (MINUS :: n) in H.
  apply first_hyphen in H as [H ->]; try apply clock_without_hyphen.
  split; [|reflexivity]. apply js_inj in H. now apply (inj pretty).
Qed.

(** X19. Two uploads are staged under one path only when the clock reading
    and the original name are the same: uploads that differ in either never
    share a staged copy, and a staged copy is never a file of the store. *)
Theorem staged_paths_differ (t1 t2 : N) (n1 n2 : jsstring) :
  t1 <> t2 \/ n1 <> n2 ->
  path (staged_file t1 n1) <> path (staged_file t2 n2)
  /\ (forall name, path (staged_file t1 n1) <> path_join filesFolder name).
Proof.
  intros Hd. split.
  - cbn [path staged_file]. intros H. apply multer_path_inj in H as [H1 H2].
    destruct Hd as [Hd|Hd]; [now apply Hd|now apply Hd].
  - intros name. apply staged_path_not_in_store.
Qed.

Lemma staged_paths_differ_witness :
  path (staged_file 1700000000000 (js "a.txt"))
  <> path (staged_file 1700000000001 (js "a.txt"))
  /\ (forall name,
        path (staged_file 1700000000000 (js "a.txt")) <> path_join filesFolder name).
Proof.
  apply (staged_paths_differ 1700000000000 1700000000001 (js "a.txt") (js "a.txt")).
  left. discriminate.
Defined.

(* ================================================================= *)
(** ** The Gmail message without attachments *)

(** X20. The Gmail build, for a logged-in user whose name and address
    convert to strings, a recipient and a subject that convert to strings,
    a body that is a string, a selection of plain file names, no upload and
    no selected name that resolves: the message
    has the four headers and a single HTML part, seven lines, without a
    boundary, and does not depend on the clock; this is what goes to the
    transport. *)
Theorem gmail_plain_message (now : N) (session : Gmail.Session)
  (u : Gmail.User) (fs : FS) (req : SendRequest)
  (sender address to_ subject_ body : jsstring) (names : list jsstring) :
  Gmail.user session = Some u ->
  to_string (Gmail.name u) = Ok sender ->
  to_string (Gmail.email u) = Ok address ->
  to_string (to req) = Ok to_ -> to_string (subject req) = Ok subject_ ->
  message req = JStr body ->
  selected_names (selectedFiles req) = Some names ->
  Forall plain_or_empty names ->
  composed_list fs (files req) names = [] ->
  let lines :=
    plain_lines (sender ++ js " <" ++ address ++ js ">") to_ subject_
      (js "<p>" ++ replace_newlines (js "<br>") body ++ js "</p>") in
  (forall now', Gmail.email_lines now' session fs req = Ok lines)
  /\ (forall refresh send now0 t,
        Gmail.tokens session = Some t -> Gmail.expired t now0 = false ->
        truthy (to req) = true -> truthy (subject req) = true -> body <> [] ->
        transport_calls (Gmail.send_email refresh send now0 now session fs req)
        = [Gmail.raw_email lines]).
Proof.
  intros Huser Hname Hemail Hto Hsub Hbody Hsel Hnames Hempty lines.
  assert (Hlines : forall now', Gmail.email_lines now' session fs req = Ok lines).
  { intros now'. unfold Gmail.email_lines, Gmail.push_headers.
    rewrite Huser, Hname, Hemail, Hto, Hsub.
    cbn [bind].
    rewrite (push_selected_composed GmailApi fs (files req) _ names Hsel Hnames).
    cbn [bind]. rewrite Hempty. unfold Gmail.push_body. rewrite Hbody.
    cbn [length Nat.ltb Nat.leb render_html call_replace bind app].
    reflexivity. }
  split; [exact Hlines|].
  intros refresh send now0 t Ht Hexp Hto' Hsub' Hmsg'.
  unfold Gmail.send_email. rewrite Ht. unfold Gmail.handler.
  rewrite Hexp, (Hlines now), Hto', Hsub', Hbody. cbn [truthy].
  destruct body; try congruence. cbn [is_empty negb orb].
  assert (Hfiles : files req = []).
  { unfold composed_list in Hempty. apply app_eq_nil in Hempty as [H _].
    now destruct (files req). }
  rewrite Hfiles.
  destruct (send t (Gmail.raw_email lines)) as [[]|e]; reflexivity.
Qed.

Lemma gmail_plain_message_witness :
  Gmail.email_lines 1700000000000
      {| Gmail.tokens := Some {| Gmail.expiry_date := None |};
         Gmail.user := Some {| Gmail.name := JStr (js "Ann");
                               Gmail.email := JStr (js "ann@example.org") |} |}
      (∅ : FS)
      {| from := JUndefined; to := JStr (js "bob@example.org");
         subject := JStr (js "Hi"); message := JStr (js "one" ++ [LF] ++ js "two");
         senderName := JUndefined; selectedFiles := JStr (js "gone.pdf");
         files := [] |}
    = Ok [ js "From: Ann <ann@example.org>";
           js "To: bob@example.org";
           js "Subject: Hi";
           js "MIME-Version: 1.0";
           js "Content-Type: text/html; charset=UTF-8";
           [];
           js "<p>one<br>two</p>" ].
Proof.
  refine (proj1 (gmail_plain_message 0
                   {| Gmail.tokens := Some {| Gmail.expiry_date := None |};
                      Gmail.user := Some {| Gmail.name := JStr (js "Ann");
                                            Gmail.email := JStr (js "ann@example.org") |} |}
                   {| Gmail.name := JStr (js "Ann");
                      Gmail.email := JStr (js "ann@example.org") |}
                   (∅ : FS)
                   {| from := JUndefined; to := JStr (js "bob@example.org");
                      subject := JStr (js "Hi");
                      message := JStr (js "one" ++ [LF] ++ js "two");
                      senderName := JUndefined; selectedFiles := JStr (js "gone.pdf");
                      files := [] |}
                   (js "Ann") (js "ann@example.org") (js "bob@example.org")
                   (js "Hi") (js "one" ++ [LF] ++ js "two") [js "gone.pdf"]
                   eq_refl eq_refl eq_refl eq_refl eq_refl eq_refl eq_refl _ _)
            1700000000000).
  - apply List.Forall_cons; [right; vm_compute; intuition discriminate|].
    apply List.Forall_nil.
  - vm_compute. reflexivity.
Defined.

(* ================================================================= *)
(** ** Uploads that share a staged copy *)






(* ================================================================= *)
(** ** The access token of the Gmail build *)

(** X22. The Gmail build with a login and the three fields in place: while
    the access token has not expired the refresh is not consulted; with an
    expired token a refresh that fails is answered 500 with nothing sent and
    no file changed, whatever else the request holds; and after a refresh
    that succeeds the transport is used with the new credentials only. *)
Theorem token_refresh_before_send
  (refresh : Gmail.Tokens -> result Gmail.Tokens)
  (send : Gmail.Tokens -> jsstring -> result unit) (now0 now : N)
  (session : Gmail.Session) (t : Gmail.Tokens) (fs : FS) (req : SendRequest) :
  Gmail.tokens session = Some t ->
  truthy (to req) = true -> truthy (subject req) = true ->
  truthy (message req) = true ->
  (Gmail.expired t now0 = false ->
     forall refresh',
       Gmail.send_email refresh' send now0 now session fs req
       = Gmail.send_email refresh send now0 now session fs req)
  /\ (Gmail.expired t now0 = true ->
      forall e, refresh t = Throw e ->
        Gmail.send_email refresh send now0 now session fs req
        = rejected
            (Json 500 false (js "Failed to send email: " ++ exn_message e)) fs)
  /\ (Gmail.expired t now0 = true ->
      forall t', refresh t = Ok t' ->
        Gmail.send_email refresh send now0 now session fs req
        = Gmail.send_email refresh (fun _ => send t') now0 now session fs req).
Proof.
  intros Htok Hto Hsub Hmsg.
  unfold Gmail.send_email, Gmail.handler. rewrite Htok, Hto, Hsub, Hmsg.
  cbn [negb orb]. split; [|split].
  - intros ->. reflexivity.
  - intros -> e ->. reflexivity.
  - intros -> t' ->. reflexivity.
Qed.

Lemma token_refresh_before_send_witness :
  Gmail.send_email
    (fun _ => Throw (Exn TransportError (js "invalid_grant")))
    (fun _ _ => Ok tt) 1700000000005 1700000000007
    {| Gmail.tokens := Some {| Gmail.expiry_date := Some 1600000000000 |};
       Gmail.user := None |}
    (∅ : FS)
    {| from := JUndefined; to := JStr (js "a@b.com");
       subject := JStr (js "Hi"); message := JStr (js "x");
       senderName := JUndefined; selectedFiles := JUndefined; files := [] |}
  = rejected (Json 500 false (js "Failed to send email: invalid_grant")) ∅.
Proof.
  refine (proj1 (proj2 (token_refresh_before_send
                          (fun _ => Throw (Exn TransportError (js "invalid_grant")))
                          (fun _ _ => Ok tt) 1700000000005 1700000000007
                          {| Gmail.tokens :=
                               Some {| Gmail.expiry_date := Some 1600000000000 |};
                             Gmail.user := None |}
                          {| Gmail.expiry_date := Some 1600000000000 |}
                          (∅ : FS)
                          {| from := JUndefined; to := JStr (js "a@b.com");
                             subject := JStr (js "Hi"); message := JStr (js "x");
                             senderName := JUndefined; selectedFiles := JUndefined;
                             files := [] |}
                          eq_refl eq_refl eq_refl eq_refl))
            eq_refl (Exn TransportError (js "invalid_grant")) eq_refl).
Defined.
